(** * Verification of the seed classifier trainer

    A shallow embedding of [scripts/train_special_model.py]: the dataset
    merger, the feature extractor, the in-place standardizer, the logistic
    function and the full-batch gradient-descent trainer.

    Python floats are reached through an interface ([PyFloat]) so that every
    structural result holds for any implementation of the arithmetic; the
    analytic results are proved for the instance of exact real arithmetic,
    and where they fail in binary64 the failure is shown by running the
    same code on primitive floats.
    Python lists are objects of a heap, dictionaries decoded from JSON are
    immutable values, exceptions are results, and file output is a trace of
    events. *)

From Stdlib Require Import String ZArith QArith Bool Lia Reals Lra Psatz List.
From Stdlib Require Import Permutation FunctionalExtensionality.
From Stdlib Require PrimFloat Uint63 Floats.
Import ListNotations.
Close Scope Q_scope.
Close Scope R_scope.
Set Warnings "-register-all".

(* ================================================================= *)
(** ** Exceptions and the two monads *)

Inductive exn : Type :=
| KeyError (key : string)
| TypeError
| ValueError
| AttributeError
| IndexError
| ZeroDivisionError
| OverflowError
| SystemExit (msg : string).

Inductive result (A : Type) : Type :=
| Ok (a : A)
| Raise (e : exn).

Arguments Ok {A} a.
Arguments Raise {A} e.

Definition rbind {A B : Type} (m : result A) (k : A -> result B) : result B :=
  match m with
  | Ok a => k a
  | Raise e => Raise e
  end.

Notation "x <~ m ;; k" := (rbind m (fun x => k))
  (at level 61, m at next level, right associativity).

(** Stateful code: a computation takes the state and returns an outcome
    together with the state it left behind, also when it raised. *)
Definition ST (S A : Type) : Type := S -> result A * S.

Definition ret {S A : Type} (a : A) : ST S A := fun s => (Ok a, s).

Definition raise {S A : Type} (e : exn) : ST S A := fun s => (Raise e, s).

Definition bind {S A B : Type} (m : ST S A) (k : A -> ST S B) : ST S B :=
  fun s => match m s with
           | (Ok a, s') => k a s'
           | (Raise e, s') => (Raise e, s')
           end.

Definition lift {S A : Type} (r : result A) : ST S A := fun s => (r, s).

Notation "x <- m ;; k" := (bind m (fun x => k))
  (at level 61, m at next level, right associativity).
Notation "' p <- m ;; k" := (bind m (fun x => match x with p => k end))
  (at level 61, p pattern, m at next level, right associativity).
Notation "m ;; k" := (bind m (fun _ => k))
  (at level 61, right associativity).

(** [for x in xs: body], threading the local variables the body rebinds. *)
Fixpoint for_fold {S A L : Type} (xs : list A) (body : A -> L -> ST S L)
  (locals : L) : ST S L :=
  match xs with
  | [] => ret locals
  | x :: rest => l' <- body x locals ;; for_fold rest body l'
  end.

Definition for_each {S A : Type} (xs : list A) (body : A -> ST S unit)
  : ST S unit :=
  for_fold xs (fun x _ => body x) tt.

(** The same loop for code that only raises. *)
Fixpoint rfold {A L : Type} (xs : list A) (body : A -> L -> result L)
  (locals : L) : result L :=
  match xs with
  | [] => Ok locals
  | x :: rest => l' <~ body x locals ;; rfold rest body l'
  end.

Fixpoint rmap {A B : Type} (f : A -> result B) (xs : list A)
  : result (list B) :=
  match xs with
  | [] => Ok []
  | x :: rest => b <~ f x ;; bs <~ rmap f rest ;; Ok (b :: bs)
  end.

(** [range(n)] for a Python integer. *)
Definition range (n : Z) : list Z := map Z.of_nat (seq 0 (Z.to_nat n)).

(** [xs[i] = v] on an immutable snapshot of a list. *)
Fixpoint update {A : Type} (i : nat) (v : A) (xs : list A) : list A :=
  match xs, i with
  | [], _ => []
  | _ :: rest, O => v :: rest
  | x :: rest, S i' => x :: update i' v rest
  end.

(* ================================================================= *)
(** ** The float interface *)

Class PyFloat (F : Type) : Type := {
  flit : Q -> F;                (* a float literal, by its decimal value *)
  of_Z : Z -> F;                (* an int used where a float is expected *)
  fadd : F -> F -> F;
  fsub : F -> F -> F;
  fmul : F -> F -> F;
  fdiv : F -> F -> F;           (* the quotient, divisor known nonzero *)
  fneg : F -> F;
  fpow : F -> Z -> F;           (* [x ** n] for an int [n >= 0] *)
  fpow_in_range : F -> Z -> bool;  (* [x ** n] does not overflow *)
  fexp : F -> F;
  fexp_in_range : F -> bool;    (* [math.exp] does not overflow *)
  fsqrt : F -> F;
  feqb : F -> F -> bool;
  feqb_Z : Z -> F -> bool;      (* [m == x] for an int [m]: exact *)
  fltb : F -> F -> bool;
  fleb : F -> F -> bool
}.

(** What the pipeline relies on to run without an arithmetic exception. *)
Class PyFloatLaws (F : Type) `{PyFloat F} : Prop := {
  of_Z_nonzero : forall n : Z, n <> 0%Z -> feqb (of_Z n) (flit 0) = false;
  one_nonzero : feqb (flit 1.0) (flit 0) = false;
  exp_denominator :
    forall x, feqb (fadd (flit 1.0) (fexp x)) (flit 0) = false;
  exp_in_range_neg :
    forall x, fleb (of_Z 0) x = false -> fexp_in_range x = true;
  exp_in_range_opp :
    forall x, fleb (of_Z 0) x = true -> fexp_in_range (fneg x) = true;
  sqrt_of_positive :
    forall v, fltb (of_Z 0) v = true ->
              fltb v (flit 0) = false /\ feqb (fsqrt v) (flit 0) = false
}.

(** Exact real arithmetic. *)
#[export] Instance R_PyFloat : PyFloat R := {|
  flit := Q2R;
  of_Z := IZR;
  fadd := Rplus;
  fsub := Rminus;
  fmul := Rmult;
  fdiv := Rdiv;
  fneg := Ropp;
  fpow := powerRZ;
  fpow_in_range := fun _ _ => true;
  fexp := exp;
  fexp_in_range := fun _ => true;
  fsqrt := sqrt;
  feqb := fun x y => if Req_dec_T x y then true else false;
  feqb_Z := fun m y => if Req_dec_T (IZR m) y then true else false;
  fltb := fun x y => if Rlt_dec x y then true else false;
  fleb := fun x y => if Rle_dec x y then true else false
|}.

(** Binary64 arithmetic, as the interpreter has it; [math.exp] comes from
    the C library and is a parameter. *)

(** The float nearest to the integer [z], ties to even; infinite when [z]
    is beyond the largest float. *)
Definition b64_of_Z (z : Z) : PrimFloat.float :=
  FloatOps.SF2Prim
    (SpecFloat.binary_normalize FloatOps.prec FloatOps.emax z 0 false).

(** [m == x] for an int [m] and a float [x] compares the two numbers
    exactly, without rounding [m]. *)
Definition b64_eqb_Z (m : Z) (x : PrimFloat.float) : bool :=
  match FloatOps.Prim2SF x with
  | SpecFloat.S754_zero _ => Z.eqb m 0
  | SpecFloat.S754_finite s mant e =>
      let v := if s then Zneg mant else Zpos mant in
      if (0 <=? e)%Z then Z.eqb m (v * 2 ^ e) else Z.eqb (m * 2 ^ (- e)) v
  | _ => false
  end.

Fixpoint b64_pow (x : PrimFloat.float) (n : nat) : PrimFloat.float :=
  match n with
  | O => PrimFloat.one
  | S n' => PrimFloat.mul x (b64_pow x n')
  end.

(** The largest argument for which [math.exp] does not overflow:
    0x1.62e42fefa39efp+9. Above it the result is infinite and [math.exp]
    raises [OverflowError], unless the argument is itself infinite. *)
Definition b64_exp_max : PrimFloat.float :=
  PrimFloat.div (b64_of_Z 6243314768165359) (b64_of_Z (2 ^ 43)).

Definition B64_PyFloat (libm_exp : PrimFloat.float -> PrimFloat.float)
  : PyFloat PrimFloat.float := {|
  flit := fun q => PrimFloat.div (b64_of_Z (Qnum q)) (b64_of_Z (Zpos (Qden q)));
  of_Z := b64_of_Z;
  fadd := PrimFloat.add;
  fsub := PrimFloat.sub;
  fmul := PrimFloat.mul;
  fdiv := PrimFloat.div;
  fneg := PrimFloat.opp;
  fpow := fun x n => b64_pow x (Z.to_nat n);
  fpow_in_range := fun x n =>
    negb (PrimFloat.is_infinity (b64_pow x (Z.to_nat n)))
    || PrimFloat.is_infinity x;
  fexp := libm_exp;
  fexp_in_range := fun x => negb (PrimFloat.ltb b64_exp_max x)
                           || PrimFloat.eqb x PrimFloat.infinity;
  fsqrt := PrimFloat.sqrt;
  feqb := PrimFloat.eqb;
  feqb_Z := b64_eqb_Z;
  fltb := PrimFloat.ltb;
  fleb := PrimFloat.leb
|}.

(** The C library's [exp] with its value at zero written out: [exp(0)] is
    exactly 1. *)
Definition exp_at_zero (libm_exp : PrimFloat.float -> PrimFloat.float)
  (x : PrimFloat.float) : PrimFloat.float :=
  if PrimFloat.eqb x PrimFloat.zero then PrimFloat.one else libm_exp x.

(** The C library's [exp] with its underflow written out: from -1000 down
    the exponential is below half the least positive float and rounds to
    zero. *)
Definition exp_underflowing (libm_exp : PrimFloat.float -> PrimFloat.float)
  (x : PrimFloat.float) : PrimFloat.float :=
  if PrimFloat.leb x (b64_of_Z (-1000)) then PrimFloat.zero else libm_exp x.

(* ================================================================= *)
(** ** Values *)

Section Code.

Context {F : Type} `{PyFloat F}.

(** A value decoded from JSON, or written as a literal the same way. A
    dictionary keeps its keys in order; lookup takes the first binding. *)
Inductive json : Type :=
| JNull
| JBool (b : bool)
| JInt (z : Z)
| JFloat (x : F)
| JStr (s : string)
| JList (items : list json)
| JDict (fields : list (string * json)).

Fixpoint assoc (k : string) (fields : list (string * json)) : option json :=
  match fields with
  | [] => None
  | (k', v) :: rest => if String.eqb k k' then Some v else assoc k rest
  end.

(** An int that [float] converts: the halfway point between the largest
    float and [2^1024] already rounds out of range. *)
Definition int_fits_float (z : Z) : bool :=
  (Z.abs z <? 2 ^ 1024 - 2 ^ 970)%Z.

(** [d[k]] *)
Definition py_getitem (d : json) (k : string) : result json :=
  match d with
  | JDict fields =>
      match assoc k fields with
      | Some v => Ok v
      | None => Raise (KeyError k)
      end
  | _ => Raise TypeError
  end.

(** [d.get(k, dflt)] *)
Definition py_get (d : json) (k : string) (dflt : json) : result json :=
  match d with
  | JDict fields =>
      match assoc k fields with
      | Some v => Ok v
      | None => Ok dflt
      end
  | _ => Raise AttributeError
  end.

(** The conversion [float(s)] of a string is Python's own parser. *)
Variable float_of_string : string -> option F.

(** [float(v)]; an int converts when its nearest float is finite, that is
    below [2^1024 - 2^970] in absolute value. *)
Definition py_float (v : json) : result F :=
  match v with
  | JBool b => Ok (of_Z (if b then 1 else 0))
  | JInt z => if int_fits_float z then Ok (of_Z z) else Raise OverflowError
  | JFloat x => Ok x
  | JStr s =>
      match float_of_string s with
      | Some x => Ok x
      | None => Raise ValueError
      end
  | JNull | JList _ | JDict _ => Raise TypeError
  end.

(** Truth value of [v] in a condition. *)
Definition truthy (v : json) : bool :=
  match v with
  | JNull => false
  | JBool b => b
  | JInt z => negb (Z.eqb z 0)
  | JFloat x => negb (feqb x (flit 0))
  | JStr s => negb (String.eqb s EmptyString)
  | JList items => match items with [] => false | _ => true end
  | JDict fields => match fields with [] => false | _ => true end
  end.

(** Float arithmetic that can raise. *)
Definition py_div (x y : F) : result F :=
  if feqb y (flit 0) then Raise ZeroDivisionError else Ok (fdiv x y).

Definition math_exp (x : F) : result F :=
  if fexp_in_range x then Ok (fexp x) else Raise OverflowError.

Definition math_sqrt (x : F) : result F :=
  if fltb x (flit 0) then Raise ValueError else Ok (fsqrt x).

(** [x ** n] *)
Definition py_pow (x : F) (n : Z) : result F :=
  if fpow_in_range x n then Ok (fpow x n) else Raise OverflowError.

(** [logistic] *)
Definition logistic (z : F) : result F :=
  if fleb (of_Z 0) z then
    ez <~ math_exp (fneg z) ;;
    py_div (flit 1.0) (fadd (flit 1.0) ez)
  else
    ez <~ math_exp z ;;
    py_div ez (fadd (flit 1.0) ez).


(* ================================================================= *)
(** ** Dictionaries keyed by values *)

Definition hashable (v : json) : bool :=
  match v with
  | JList _ | JDict _ => false
  | _ => true
  end.

Definition as_number (v : json) : option (Z + F) :=
  match v with
  | JBool b => Some (inl (if b then 1%Z else 0%Z))
  | JInt z => Some (inl z)
  | JFloat x => Some (inr x)
  | _ => None
  end.

(** [a == b] on hashable values. *)
Definition py_eqb (a b : json) : bool :=
  match a, b with
  | JStr s, JStr t => String.eqb s t
  | JNull, JNull => true
  | _, _ =>
      match as_number a, as_number b with
      | Some (inl m), Some (inl n) => Z.eqb m n
      | Some (inl m), Some (inr y) => feqb_Z m y
      | Some (inr x), Some (inl n) => feqb_Z n x
      | Some (inr x), Some (inr y) => feqb x y
      | _, _ => false
      end
  end.

(** A [dict] in insertion order. *)
Definition dict : Type := list (json * json).

Fixpoint dict_insert (k v : json) (d : dict) : dict :=
  match d with
  | [] => [(k, v)]
  | (k', v') :: rest =>
      if py_eqb k' k then (k', v) :: rest
      else (k', v') :: dict_insert k v rest
  end.

(** [d[k] = v] *)
Definition dict_setitem (k v : json) (d : dict) : result dict :=
  if hashable k then Ok (dict_insert k v d) else Raise TypeError.

(** [d.values()] *)
Definition dict_values (d : dict) : list json := map snd d.

(* ================================================================= *)
(** ** The heap of lists, and the output trace *)

Inductive val : Type :=
| VFloat (x : F)
| VInt (z : Z)
| VRef (l : nat).

(** The dictionary handed to [json.dumps]: the lists are serialized as they
    are at that moment. *)
Record Model : Type := {
  m_features : list string;
  m_weights : list val;
  m_bias : F;
  m_means : list val;
  m_stds : list val;
  m_trainedAt : string
}.

Inductive event : Type :=
| Mkdir (of_file : string)
| WriteText (path : string) (content : Model)
| Print (line : string).

Record world : Type := {
  heap : list (list val);
  trace : list event
}.

Definition M : Type -> Type := ST world.

(** A new list object. *)
Definition alloc (items : list val) : M val :=
  fun w => (Ok (VRef (length (heap w))),
            {| heap := heap w ++ [items]; trace := trace w |}).

(** The items of a list object; a reference always points into the heap,
    anything else is not a list. *)
Definition iter (v : val) : M (list val) :=
  fun w => match v with
           | VRef l =>
               match nth_error (heap w) l with
               | Some items => (Ok items, w)
               | None => (Raise TypeError, w)
               end
           | _ => (Raise TypeError, w)
           end.

Definition store (l : nat) (items : list val) : M unit :=
  fun w => (Ok tt, {| heap := update l items (heap w); trace := trace w |}).

(** [len(v)] *)
Definition len (v : val) : M nat :=
  items <- iter v ;; ret (length items).

(** [v[i]] for [i >= 0] *)
Definition getitem (v : val) (i : nat) : M val :=
  items <- iter v ;;
  match nth_error items i with
  | Some x => ret x
  | None => raise IndexError
  end.

(** [v[i] = x] for [i >= 0] *)
Definition setitem (v : val) (i : nat) (x : val) : M unit :=
  items <- iter v ;;
  match v with
  | VRef l =>
      if Nat.ltb i (length items) then store l (update i x items)
      else raise IndexError
  | _ => raise TypeError
  end.

(** [v.append(x)] *)
Definition append (v : val) (x : val) : M unit :=
  items <- iter v ;;
  match v with
  | VRef l => store l (items ++ [x])
  | _ => raise AttributeError
  end.

Definition emit (e : event) : M unit :=
  fun w => (Ok tt, {| heap := heap w; trace := trace w ++ [e] |}).

(** A number used in float arithmetic. *)
Definition to_float (v : val) : result F :=
  match v with
  | VFloat x => Ok x
  | VInt z => Ok (of_Z z)
  | VRef _ => Raise TypeError
  end.

(** [sum(terms)]: the built-in starts from the int 0 and adds the terms in
    order. *)
Definition py_sum (terms : list F) : F := fold_left fadd terms (of_Z 0).

(* ================================================================= *)
(** ** The program *)

Section Program.

Local Open Scope string_scope.

Definition num (q : Q) : json := JFloat (flit q).
Arguments num q%_Q.

Definition MANUAL_SEEDS : list json :=
  [
    JDict
     [("id", JStr "manual-1");
      ("label", JStr "special");
      ("params", JDict
      [("du", num 0.041); ("dv", num 0.028); ("feed", num 0.015);
       ("kill", num 0.044); ("dt", num 2.0); ("threshold", num 0.21);
       ("contrast", num 2.45); ("gamma", num 0.4); ("invert", JBool false)]);
      ("metrics", JDict
      [("activity", num 0.0); ("entropy", num 0.34); ("stdU", num 0.262);
       ("stdV", num 0.074)])];
    JDict
     [("id", JStr "manual-2");
      ("label", JStr "special");
      ("params", JDict
      [("du", num 1.0); ("dv", num 0.266); ("feed", num 0.1);
       ("kill", num 0.054); ("dt", num 1.0); ("threshold", num 0.2);
       ("contrast", num 1.5); ("gamma", num 1.1); ("invert", JBool false)]);
      ("metrics", JDict
      [("activity", num 0.0); ("entropy", num 0.84); ("stdU", num 0.208);
       ("stdV", num 0.14)])];
    JDict
     [("id", JStr "manual-3");
      ("label", JStr "special");
      ("params", JDict
      [("du", num 1.0); ("dv", num 0.306); ("feed", num 0.023);
       ("kill", num 0.06); ("dt", num 1.0); ("threshold", num 0.2);
       ("contrast", num 1.5); ("gamma", num 1.1); ("invert", JBool false)]);
      ("metrics", JDict
      [("activity", num 0.0); ("entropy", num 1.35); ("stdU", num 0.123);
       ("stdV", num 0.125)])];
    JDict
     [("id", JStr "manual-4");
      ("label", JStr "special");
      ("params", JDict
      [("du", num 0.547); ("dv", num 0.089); ("feed", num 0.084);
       ("kill", num 0.077); ("dt", num 1.5); ("threshold", num 0.2);
       ("contrast", num 5.0); ("gamma", num 0.2); ("invert", JBool false)]);
      ("metrics", JDict
      [("activity", num 0.0); ("entropy", num 0.6); ("stdU", num 0.201);
       ("stdV", num 0.169)])];
    JDict
     [("id", JStr "manual-5");
      ("label", JStr "special");
      ("params", JDict
      [("du", num 0.621); ("dv", num 0.07); ("feed", num 0.1);
       ("kill", num 0.07); ("dt", num 1.5); ("threshold", num 0.2);
       ("contrast", num 5.0); ("gamma", num 0.2); ("invert", JBool false)]);
      ("metrics", JDict
      [("activity", num 0.0); ("entropy", num 1.24); ("stdU", num 0.264);
       ("stdV", num 0.25)])];
    JDict
     [("id", JStr "manual-6");
      ("label", JStr "special");
      ("params", JDict
      [("du", num 0.722); ("dv", num 0.08); ("feed", num 0.02);
       ("kill", num 0.056); ("dt", num 1.5); ("threshold", num 0.16);
       ("contrast", num 5.0); ("gamma", num 0.2); ("invert", JBool true)]);
      ("metrics", JDict
      [("activity", num 0.0); ("entropy", num 2.61); ("stdU", num 0.116);
       ("stdV", num 0.329)])];
    JDict
     [("id", JStr "manual-7");
      ("label", JStr "special");
      ("params", JDict
      [("du", num 0.621); ("dv", num 0.07); ("feed", num 0.003);
       ("kill", num 0.021); ("dt", num 1.5); ("threshold", num 0.2);
       ("contrast", num 5.0); ("gamma", num 0.2); ("invert", JBool false)]);
      ("metrics", JDict
      [("activity", num 0.0); ("entropy", num 0.0); ("stdU", num 0.0);
       ("stdV", num 0.0)])];
    JDict
     [("id", JStr "manual-8");
      ("label", JStr "special");
      ("params", JDict
      [("du", num 0.043); ("dv", num 0.009); ("feed", num 0.002);
       ("kill", num 0.021); ("dt", num 1.5); ("threshold", num 0.2);
       ("contrast", num 5.0); ("gamma", num 0.2); ("invert", JBool false)]);
      ("metrics", JDict
      [("activity", num 0.0); ("entropy", num 0.73); ("stdU", num 0.339);
       ("stdV", num 0.074)])];
    JDict
     [("id", JStr "manual-9");
      ("label", JStr "special");
      ("params", JDict
      [("du", num 0.043); ("dv", num 0.009); ("feed", num 0.001);
       ("kill", num 0.026); ("dt", num 2.0); ("threshold", num 0.2);
       ("contrast", num 5.0); ("gamma", num 0.2); ("invert", JBool false)]);
      ("metrics", JDict
      [("activity", num 0.0); ("entropy", num 0.21); ("stdU", num 0.272);
       ("stdV", num 0.044)])]
  ].

Definition FEATURES : list string :=
  ["activity"; "entropy"; "stdU"; "stdV"; "feed"; "kill"; "threshold"; "dt";
   "contrast"; "gamma"; "invert"].

(** One step of filling [combined]: [combined[entry['id']] = entry]. *)
Definition combine_entry (entry : json) (combined : dict) : result dict :=
  k <~ py_getitem entry "id" ;;
  dict_setitem k entry combined.

(** [build_dataset] *)
Definition build_dataset (entries : list json) : result (list json) :=
  combined <~ rfold MANUAL_SEEDS combine_entry [] ;;
  combined <~ rfold entries combine_entry combined ;;
  Ok (dict_values combined).

(** [float(d.get(k, dflt))] *)
Definition float_field (d : json) (k : string) (dflt : Q) : result F :=
  v <~ py_get d k (num dflt) ;;
  py_float v.

(** [extract_features] *)
Definition extract_features (entry : json) : M val :=
  metrics <- lift (py_get entry "metrics" (JDict [])) ;;
  params <- lift (py_get entry "params" (JDict [])) ;;
  activity <- lift (float_field metrics "activity" 0.0) ;;
  entropy <- lift (float_field metrics "entropy" 0.0) ;;
  stdU <- lift (float_field metrics "stdU" 0.0) ;;
  stdV <- lift (float_field metrics "stdV" 0.0) ;;
  feed <- lift (float_field params "feed" 0.0) ;;
  kill <- lift (float_field params "kill" 0.0) ;;
  threshold <- lift (float_field params "threshold" 0.0) ;;
  dt <- lift (float_field params "dt" 1.0) ;;
  contrast <- lift (float_field params "contrast" 1.0) ;;
  gamma <- lift (float_field params "gamma" 1.0) ;;
  invert <- lift (py_get params "invert" JNull) ;;
  alloc [VFloat activity; VFloat entropy; VFloat stdU; VFloat stdV;
         VFloat feed; VFloat kill; VFloat threshold; VFloat dt;
         VFloat contrast; VFloat gamma;
         VFloat (if truthy invert then flit 1.0 else flit 0.0)].

(** The dictionary [train_logistic_regression] returns. *)
Record trained : Type := {
  weights : val;
  bias : F
}.

(** [w * xij] *)
Definition val_mul (w xij : val) : result F :=
  a <~ to_float w ;;
  b <~ to_float xij ;;
  Ok (fmul a b).

(** [train_logistic_regression] *)
Definition train_logistic_regression (X y : val) (epochs : option Z)
  (lr : option F) : M trained :=
  let epochs := match epochs with Some e => e | None => 5000%Z end in
  let lr := match lr with Some r => r | None => flit 0.05 end in
  n_samples <- len X ;;
  x0 <- getitem X 0 ;;
  n_features <- len x0 ;;
  weights <- alloc (repeat (VFloat (flit 0.0)) n_features) ;;
  ' (bias, lr) <-
    for_fold (range epochs) (fun epoch '(bias, lr) =>
      grad_w <- alloc (repeat (VFloat (flit 0.0)) n_features) ;;
      rows <- iter X ;;
      labels <- iter y ;;
      grad_b <-
        for_fold (combine rows labels) (fun '(xi, yi) grad_b =>
          ws <- iter weights ;;
          xis <- iter xi ;;
          terms <- lift (rmap (fun '(w, xij) => val_mul w xij)
                           (combine ws xis)) ;;
          let z := fadd (py_sum terms) bias in
          pred <- lift (logistic z) ;;
          yv <- lift (to_float yi) ;;
          let error := fsub pred yv in
          let grad_b := fadd grad_b error in
          for_each (seq 0 n_features) (fun j =>
            g <- getitem grad_w j ;;
            xij <- getitem xi j ;;
            gv <- lift (to_float g) ;;
            xv <- lift (to_float xij) ;;
            setitem grad_w j (VFloat (fadd gv (fmul error xv)))) ;;
          ret grad_b)
          (flit 0.0) ;;
      db <- lift (py_div grad_b (of_Z (Z.of_nat n_samples))) ;;
      let bias := fsub bias (fmul lr db) in
      for_each (seq 0 n_features) (fun j =>
        w <- getitem weights j ;;
        g <- getitem grad_w j ;;
        wv <- lift (to_float w) ;;
        gv <- lift (to_float g) ;;
        dw <- lift (py_div gv (of_Z (Z.of_nat n_samples))) ;;
        setitem weights j (VFloat (fsub wv (fmul lr dw)))) ;;
      let lr := if ((epoch mod 1000) =? 0)%Z && (0 <? epoch)%Z
                then fmul lr (flit 0.9) else lr in
      ret (bias, lr))
      (flit 0.0, lr) ;;
  ret {| weights := weights; bias := bias |}.

(** One turn of the loop over the columns in the standardization block of
    [main]: the statistics of column [j], then the rewriting of its
    entries. *)
Definition standardize_pass (X means stds : val) (n_samples j : nat)
  : M unit :=
  rows <- iter X ;;
  values <- for_fold rows (fun row acc =>
              v <- getitem row j ;; ret (acc ++ [v])%list) [] ;;
  vs <- lift (rmap to_float values) ;;
  mean <- lift (py_div (py_sum vs) (of_Z (Z.of_nat n_samples))) ;;
  squares <- lift (rmap (fun v => py_pow (fsub v mean) 2) vs) ;;
  variance <- lift (py_div (py_sum squares)
                      (of_Z (Z.max 1 (Z.of_nat n_samples - 1)))) ;;
  std <- lift (if fltb (of_Z 0) variance then math_sqrt variance
               else Ok (flit 1.0)) ;;
  setitem means j (VFloat mean) ;;
  setitem stds j (VFloat std) ;;
  for_each (seq 0 n_samples) (fun i =>
    row <- getitem X i ;;
    v <- getitem row j ;;
    x <- lift (to_float v) ;;
    q <- lift (py_div (fsub x mean) std) ;;
    target <- getitem X i ;;
    setitem target j (VFloat q)).

(** The standardization block of [main]: returns [means] and [stds] and
    rewrites the rows of [X] in place. *)
Definition standardize (X : val) : M (val * val) :=
  x0 <- getitem X 0 ;;
  n_features <- len x0 ;;
  means <- alloc (repeat (VFloat (flit 0.0)) n_features) ;;
  stds <- alloc (repeat (VFloat (flit 0.0)) n_features) ;;
  n_samples <- len X ;;
  for_each (seq 0 n_features) (standardize_pass X means stds n_samples) ;;
  ret (means, stds).

(** [label not in {'special', 'normal'}], negated *)
Definition label_is_valid (label : json) : result bool :=
  if hashable label
  then Ok (py_eqb label (JStr "special") || py_eqb label (JStr "normal"))
  else Raise TypeError.

(** The loop of [main] that fills [X] and [y]. *)
Definition collect (dataset : list json) (X y : val) : M unit :=
  for_each dataset (fun entry =>
    label <- lift (py_get entry "label" JNull) ;;
    valid <- lift (label_is_valid label) ;;
    if valid then
      row <- extract_features entry ;;
      append X row ;;
      append y (VInt (if py_eqb label (JStr "special") then 1 else 0))
    else ret tt).

(** [main], from the decoded feedback [entries] on: [trainedAt] is the name
    of the feedback file and [output] the path of the model file. *)
Definition main (trainedAt output : string) (entries : list json) : M unit :=
  dataset <- lift (build_dataset entries) ;;
  X <- alloc [] ;;
  y <- alloc [] ;;
  collect dataset X y ;;
  n <- len X ;;
  if Nat.eqb n 0 then raise (SystemExit "No valid data to train on")
  else
    ' (means, stds) <- standardize X ;;
    model <- train_logistic_regression X y (Some 6000%Z) (Some (flit 0.08)) ;;
    emit (Mkdir output) ;;
    ws <- iter (weights model) ;;
    ms <- iter means ;;
    ss <- iter stds ;;
    emit (WriteText output
            {| m_features := FEATURES;
               m_weights := ws;
               m_bias := bias model;
               m_means := ms;
               m_stds := ss;
               m_trainedAt := trainedAt |}) ;;
    emit (Print ("Model saved to " ++ output)).


(* ================================================================= *)
(** ** What the specification says, as pure functions *)

(** The two-branch value of the logistic function, without the checks. *)
Definition logistic_value (z : F) : F :=
  if fleb (of_Z 0) z
  then fdiv (flit 1.0) (fadd (flit 1.0) (fexp (fneg z)))
  else fdiv (fexp z) (fadd (flit 1.0) (fexp z)).

(** [dot(weights, X[i])] *)
Definition dot (ws xs : list F) : F :=
  py_sum (map (fun p => fmul (fst p) (snd p)) (combine ws xs)).

(** [error_i = pred_i - y_i] for every example. *)
Definition spec_errors (X : list (list F)) (y : list Z) (ws : list F) (b : F)
  : list F :=
  map (fun p => fsub (logistic_value (fadd (dot ws (fst p)) b)) (of_Z (snd p)))
    (combine X y).

(** [gradB += error_i] over all examples. *)
Definition spec_gradB (errs : list F) : F := fold_left fadd errs (flit 0.0).

(** [gradW[j] += error_i * X[i][j]] over all examples. *)
Definition spec_gradW (n_features : nat) (X : list (list F)) (errs : list F)
  : list F :=
  fold_left
    (fun g p => map (fun q => fadd (fst q) (fmul (fst p) (snd q)))
                  (combine g (snd p)))
    (combine errs X) (repeat (flit 0.0) n_features).

(** The state of the optimizer between epochs: weights, bias and rate. *)
Definition opt_state : Type := (list F * F * F)%type.

Definition spec_epoch (n_features : nat) (X : list (list F)) (y : list Z)
  (st : opt_state) (epoch : Z) : opt_state :=
  let '(ws, b, lr) := st in
  let N := of_Z (Z.of_nat (length X)) in
  let errs := spec_errors X y ws b in
  let gradB := spec_gradB errs in
  let gradW := spec_gradW n_features X errs in
  (map (fun p => fsub (fst p) (fmul lr (fdiv (snd p) N))) (combine ws gradW),
   fsub b (fmul lr (fdiv gradB N)),
   if ((epoch mod 1000) =? 0)%Z && (0 <? epoch)%Z
   then fmul lr (flit 0.9) else lr).

Definition spec_train (n_features : nat) (X : list (list F)) (y : list Z)
  (epochs : Z) (lr : F) : opt_state :=
  fold_left (spec_epoch n_features X y) (range epochs)
    (repeat (flit 0.0) n_features, flit 0.0, lr).

(** Column statistics, as the standardization block computes them. *)
Definition mean_of (col : list F) : F :=
  fdiv (py_sum col) (of_Z (Z.of_nat (length col))).

Definition variance_of (col : list F) : F :=
  fdiv (py_sum (map (fun v => fpow (fsub v (mean_of col)) 2) col))
    (of_Z (Z.max 1 (Z.of_nat (length col) - 1))).

Definition std_of (col : list F) : F :=
  if fltb (of_Z 0) (variance_of col) then fsqrt (variance_of col)
  else flit 1.0.

Definition column (j : nat) (X : list (list F)) : list F :=
  map (fun row => nth j row (flit 0.0)) X.

(** Every square [(v - mean) ** 2] of the column can be taken. *)
Definition squares_ok (col : list F) : bool :=
  forallb (fun v => fpow_in_range (fsub v (mean_of col)) 2) col.

(** The first of the columns [0 .. n_features - 1] with a square that
    overflows, if there is one. *)
Definition first_overflow (n_features : nat) (X : list (list F))
  : option nat :=
  find (fun j => negb (squares_ok (column j X))) (seq 0 n_features).

Definition standardized_row (X : list (list F)) (row : list F) : list F :=
  map (fun j => fdiv (fsub (nth j row (flit 0.0)) (mean_of (column j X)))
                 (std_of (column j X)))
    (seq 0 (length row)).

Definition standardized (X : list (list F)) : list (list F) :=
  map (standardized_row X) X.

(** The rules of the feature table: where a feature is read from, and the
    value it takes when the field is missing. *)
Definition NUMERIC_FEATURES : list (string * string * Q) :=
  [("metrics", "activity", 0.0%Q); ("metrics", "entropy", 0.0%Q);
   ("metrics", "stdU", 0.0%Q); ("metrics", "stdV", 0.0%Q);
   ("params", "feed", 0.0%Q); ("params", "kill", 0.0%Q);
   ("params", "threshold", 0.0%Q); ("params", "dt", 1.0%Q);
   ("params", "contrast", 1.0%Q); ("params", "gamma", 1.0%Q)].

(** A field of a section of a record; a missing section has no field. *)
Definition field_of (fields : list (string * json)) (section key : string)
  : option json :=
  match assoc section fields with
  | Some (JDict inner) => assoc key inner
  | _ => None
  end.

Definition section_ok (fields : list (string * json)) (section : string)
  : Prop :=
  match assoc section fields with
  | None | Some (JDict _) => True
  | Some _ => False
  end.

Definition field_rule (fields : list (string * json))
  (rule : string * string * Q) (x : F) : Prop :=
  let '(section, key, dflt) := rule in
  match field_of fields section key with
  | None => x = flit dflt
  | Some v => py_float v = Ok x
  end.

(** A record whose sections are dictionaries and whose numeric feature
    fields, where present, are numbers. *)
Definition record_fields_ok (fields : list (string * json)) : Prop :=
  section_ok fields "metrics" /\ section_ok fields "params" /\
  Forall (fun rule => exists x, field_rule fields rule x) NUMERIC_FEATURES.

(** The identifier of a record that has a string [id]. *)
Definition id_of (entry : json) : option string :=
  match entry with
  | JDict fields =>
      match assoc "id" fields with
      | Some (JStr s) => Some s
      | _ => None
      end
  | _ => None
  end.

Definition has_id (k : string) (entry : json) : bool :=
  match id_of entry with
  | Some s => String.eqb s k
  | None => false
  end.

(** Identifiers in order of first appearance. *)
Fixpoint first_seen (seen : list string) (ks : list string) : list string :=
  match ks with
  | [] => []
  | k :: rest =>
      if existsb (String.eqb k) seen then first_seen seen rest
      else k :: first_seen (k :: seen) rest
  end.

Definition ids_of (entries : list json) : list string :=
  flat_map (fun e => match id_of e with Some s => [s] | None => [] end)
    entries.

(** The merged dataset in the words of the specification: the manual
    identifiers in their order, then the new external ones in input order;
    under each identifier the last external record that carries it, and the
    manual record when there is none. *)
Definition spec_dataset (entries : list json) : list json :=
  let manual_ids := ids_of MANUAL_SEEDS in
  let order := (manual_ids ++ first_seen manual_ids (ids_of entries))%list in
  flat_map
    (fun k =>
       match find (has_id k) (rev entries) with
       | Some e => [e]
       | None =>
           match find (has_id k) MANUAL_SEEDS with
           | Some e => [e]
           | None => []
           end
       end)
    order.

(** The label of a record, where it is one of the two training labels. *)
Definition label_of (entry : json) : option Z :=
  match entry with
  | JDict fields =>
      match assoc "label" fields with
      | Some (JStr s) =>
          if String.eqb s "special" then Some 1%Z
          else if String.eqb s "normal" then Some 0%Z
          else None
      | _ => None
      end
  | _ => None
  end.

(** The model [main] writes for the feature rows [X] and labels [ys]. *)
Definition trained_model (trainedAt : string) (X : list (list F))
  (ys : list Z) : Model :=
  let s := spec_train 11 (standardized X) ys 6000 (flit 0.08) in
  {| m_features := FEATURES;
     m_weights := map VFloat (fst (fst s));
     m_bias := snd (fst s);
     m_means := map VFloat (map (fun j => mean_of (column j X)) (seq 0 11));
     m_stds := map VFloat (map (fun j => std_of (column j X)) (seq 0 11));
     m_trainedAt := trainedAt |}.

(** The labels of the records that are kept for training, in order. *)
Definition labels_of (dataset : list json) : list Z :=
  flat_map (fun e => match label_of e with Some y => [y] | None => [] end)
    dataset.

(** A record the pipeline can process: a dictionary whose label, where
    present, is a scalar, and whose feature fields are numbers when the
    record is kept for training. *)
Definition entry_ok (e : json) : Prop :=
  exists fields,
    e = JDict fields /\
    match assoc "label" fields with
    | Some l => hashable l = true
    | None => True
    end /\
    (label_of e <> None -> record_fields_ok fields).

(** All four metrics of a record are the literal zero. *)
Definition zero_metrics (e : json) : Prop :=
  exists fields,
    e = JDict fields /\
    Forall (fun k => field_of fields "metrics" k = Some (num 0.0))
      ["activity"; "entropy"; "stdU"; "stdV"].

Definition labeled_special (e : json) : bool :=
  match label_of e with
  | Some 1%Z => true
  | _ => false
  end.

End Program.

(* ================================================================= *)
(** ** Runs and heap shapes *)

(** [m] started in [w] returns normally, and the value and final state
    satisfy [Q]. *)
Definition wp {A : Type} (m : M A) (Q : A -> world -> Prop) (w : world)
  : Prop :=
  exists a w', m w = (Ok a, w') /\ Q a w'.

(** Whatever the outcome of [m], the final state satisfies [I]. *)
Definition keeps {A : Type} (I : world -> Prop) (m : M A) : Prop :=
  forall w, I w -> I (snd (m w)).

(** Every object of [w0] is still there, untouched, and nothing was
    output. *)
Definition extends (w0 w1 : world) : Prop :=
  (exists fresh, heap w1 = heap w0 ++ fresh) /\ trace w1 = trace w0.

Definition floats_at (w : world) (l : nat) (xs : list F) : Prop :=
  nth_error (heap w) l = Some (map VFloat xs).

Definition ints_at (w : world) (l : nat) (ys : list Z) : Prop :=
  nth_error (heap w) l = Some (map VInt ys).

Definition refs_at (w : world) (l : nat) (rows : list nat) : Prop :=
  nth_error (heap w) l = Some (map VRef rows).

(** The list object at [l] is a matrix: its items are references to the
    row objects, which hold the rows of [X]. *)
Definition matrix_at (w : world) (l : nat) (rows : list nat)
  (X : list (list F)) : Prop :=
  refs_at w l rows /\ Forall2 (floats_at w) rows X.

(** The heap while the standardization block runs on the matrix at [Xl]:
    the rows hold [Xc], the two lists created by the block hold [Ms] and
    [Ss], and every other object of [w0] is as it was. *)
Definition std_inv (w0 : world) (Xl : nat) (rows : list nat)
  (Xc : list (list F)) (Ms Ss : list F) (w1 : world) : Prop :=
  length (heap w1) = length (heap w0) + 2 /\
  refs_at w1 Xl rows /\
  Forall2 (floats_at w1) rows Xc /\
  floats_at w1 (length (heap w0)) Ms /\
  floats_at w1 (S (length (heap w0))) Ss /\
  (forall l, l < length (heap w0) -> ~ In l rows ->
             nth_error (heap w1) l = nth_error (heap w0) l) /\
  trace w1 = trace w0.

(** The heap while [main] collects the training rows into the lists at
    [Xl] and [yl]: the labels collected so far are [ys], and there is one
    row object of 11 floats for each of them; these are the only objects
    added to [w0]. *)
Definition collect_inv (w0 : world) (Xl yl : nat) (ys : list Z)
  (w1 : world) : Prop :=
  exists (rows : list nat) (X : list (list F)),
    refs_at w1 Xl rows /\
    Forall2 (floats_at w1) rows X /\
    ints_at w1 yl ys /\
    NoDup rows /\
    Forall (fun row => length row = 11) X /\
    length X = length ys /\
    (forall r, In r rows -> r <> Xl /\ r <> yl /\ r < length (heap w1)) /\
    Xl = length (heap w0) /\ yl = S (length (heap w0)) /\
    (exists fresh, heap w1 = heap w0 ++ fresh /\
                   length fresh = 2 + length ys) /\
    trace w1 = trace w0.

(** The matrix after the first [k] column passes. *)
Definition standardized_upto (k : nat) (X : list (list F))
  : list (list F) :=
  map (fun row => firstn k (standardized_row X row) ++ skipn k row) X.

(** The lists [means] and [stds] after the first [k] column passes. *)
Definition means_upto (k n_features : nat) (X : list (list F)) : list F :=
  fold_left (fun acc j => update j (mean_of (column j X)) acc) (seq 0 k)
    (repeat (flit 0.0) n_features).

Definition stds_upto (k n_features : nat) (X : list (list F)) : list F :=
  fold_left (fun acc j => update j (std_of (column j X)) acc) (seq 0 k)
    (repeat (flit 0.0) n_features).

(** One column pass of the standardization block on the whole matrix. *)
Definition standardize_column (X : list (list F)) (j : nat)
  : list (list F) :=
  map (fun row =>
         update j (fdiv (fsub (nth j row (flit 0.0)) (mean_of (column j X)))
                     (std_of (column j X))) row)
    X.

End Code.

(* ================================================================= *)
(** ** Dictionaries with string keys *)

(** The dictionary that holds, in the order of [keys], the value [valf k]
    under each key [k]. *)
Definition dict_of {F : Type} (keys : list string) (valf : string -> @json F)
  : @dict F :=
  map (fun k => (JStr k, valf k)) keys.

(* ================================================================= *)
(** ** Notions stated over the real numbers *)

(** The logistic function as the specification first writes it. *)
Definition naive_logistic (z : R) : R := (1 / (1 + exp (- z)))%R.

(** The sum of a list of reals. *)
Definition Rsum (xs : list R) : R := fold_right Rplus 0%R xs.


(** Arithmetic mean and Bessel-corrected variance, as the specification
    words them. *)
Definition Rmean (col : list R) : R :=
  (Rsum col / INR (length col))%R.

Definition Rvariance (col : list R) : R :=
  (Rsum (map (fun v => (v - Rmean col) * (v - Rmean col)) col)
   / INR (Nat.max 1 (length col - 1)))%R.

Definition Rstd (col : list R) : R :=
  if Req_dec_T (Rvariance col) 0 then 1%R else sqrt (Rvariance col).

(** A hyperplane [v . x + c = 0] with [xs] strictly on its positive side
    and [xn] strictly on its negative side. *)
Definition separates (v : list R) (c : R) (xs xn : list R) : Prop :=
  (dot v xs + c > 0)%R /\ (dot v xn + c < 0)%R.

(* ================================================================= *)
(** ** Notions for the errors, the effects and the invariances *)

Section Outcomes.

Context {F : Type} `{PyFloat F}.

Local Abbreviation M := (@M F).
Local Abbreviation world := (@world F).
Local Abbreviation val := (@val F).

(** What [combined[entry['id']] = entry] raises for [entry], if anything:
    the subscript fails on a value that is not a dictionary or has no
    [id], the assignment on an [id] that cannot be hashed. *)
Definition id_error (entry : @json F) : option exn :=
  match py_getitem entry "id" with
  | Raise e => Some e
  | Ok k => if hashable k then None else Some TypeError
  end.

(** The error of the first record that has one. *)
Fixpoint first_id_error (entries : list (@json F)) : option exn :=
  match entries with
  | [] => None
  | entry :: rest =>
      match id_error entry with
      | Some e => Some e
      | None => first_id_error rest
      end
  end.

(** [m] raises [e] and leaves the state as it found it. *)
Definition fails_with {A : Type} (m : M A) (e : exn) : Prop :=
  forall w : world, m w = (Raise e, w).

(** [m] returns a new list object that holds [items], and does nothing
    else. *)
Definition makes_list (m : M val) (items : list val) : Prop :=
  forall w : world,
    m w = (Ok (VRef (length (heap w))),
           {| heap := heap w ++ [items]; trace := trace w |}).

(** The heap holds at least [n] objects and the output so far is [t]. *)
Definition quiet (n : nat) (t : list (@event F)) (w : world) : Prop :=
  n <= length (heap w) /\ trace w = t.

End Outcomes.

(** The matrix [X] with column [j] measured in another unit: [x] becomes
    [a_j * x + c_j]. *)
Definition change_units (a c : list R) (X : list (list R)) : list (list R) :=
  map (fun row =>
         map (fun j => (nth j a 0 * nth j row 0 + nth j c 0)%R)
           (seq 0 (length row)))
    X.

(* ================================================================= *)
(** * Proofs *)

(** ** The real numbers implement the interface *)

Lemma Q2R_0 : Q2R 0 = 0%R.
Proof. unfold Q2R; simpl; lra. Qed.

Lemma Q2R_1p0 : Q2R 1.0 = 1%R.
Proof. unfold Q2R; simpl; lra. Qed.

Lemma Q2R_0p0 : Q2R 0.0 = 0%R.
Proof. unfold Q2R; simpl; lra. Qed.

#[export] Instance R_PyFloatLaws : PyFloatLaws R.
Proof.
  constructor; simpl.
  - intros n Hn. rewrite Q2R_0. destruct (Req_dec_T (IZR n) 0) as [E | _]; auto.
    apply eq_IZR_R0 in E. contradiction.
  - rewrite Q2R_0, Q2R_1p0. destruct (Req_dec_T 1 0); auto. lra.
  - intros x. rewrite Q2R_0, Q2R_1p0. pose proof (exp_pos x).
    destruct (Req_dec_T (1 + exp x) 0); auto. lra.
  - reflexivity.
  - reflexivity.
  - intros v Hv. rewrite Q2R_0. destruct (Rlt_dec 0 v) as [Hpos | ]; [| discriminate].
    split.
    + destruct (Rlt_dec v 0); auto. lra.
    + pose proof (sqrt_lt_R0 v Hpos). destruct (Req_dec_T (sqrt v) 0); auto. lra.
Qed.

(* ================================================================= *)
(** ** Lists updated by index *)

Section ListFacts.

Context {A : Type}.

Lemma update_length (i : nat) (v : A) (xs : list A) :
  length (update i v xs) = length xs.
Proof.
  revert i; induction xs as [| x xs IH]; intros [| i]; simpl; auto.
Qed.

Lemma nth_error_update_eq (i : nat) (v : A) (xs : list A) :
  i < length xs -> nth_error (update i v xs) i = Some v.
Proof.
  revert i; induction xs as [| x xs IH]; intros [| i] Hi; simpl in *;
    try lia; auto.
  apply IH; lia.
Qed.

Lemma nth_error_update_neq (i j : nat) (v : A) (xs : list A) :
  i <> j -> nth_error (update i v xs) j = nth_error xs j.
Proof.
  revert i j; induction xs as [| x xs IH]; intros [| i] [| j] Hij; simpl;
    auto; try congruence.
Qed.

Lemma update_app_r (i : nat) (v : A) (xs ys : list A) :
  length xs <= i ->
  update i v (xs ++ ys) = xs ++ update (i - length xs) v ys.
Proof.
  revert i; induction xs as [| x xs IH]; intros i Hi; simpl in *.
  - now rewrite Nat.sub_0_r.
  - destruct i as [| i]; [lia |]. simpl. f_equal. apply IH. lia.
Qed.

Lemma update_middle (v x : A) (pre post : list A) :
  update (length pre) v (pre ++ x :: post) = pre ++ v :: post.
Proof.
  rewrite update_app_r by lia. now rewrite Nat.sub_diag.
Qed.

Lemma nth_middle_default (x d : A) (pre post : list A) :
  nth (length pre) (pre ++ x :: post) d = x.
Proof.
  rewrite app_nth2 by lia. now rewrite Nat.sub_diag.
Qed.

Lemma nth_error_Some_nth (xs : list A) (i : nat) (d : A) :
  i < length xs -> nth_error xs i = Some (nth i xs d).
Proof.
  intros Hi. now apply nth_error_nth'.
Qed.

End ListFacts.

Lemma update_map {A B : Type} (f : A -> B) (i : nat) (v : A) (xs : list A) :
  update i (f v) (map f xs) = map f (update i v xs).
Proof.
  revert i; induction xs as [| x xs IH]; intros [| i]; simpl; auto.
  now rewrite IH.
Qed.

Lemma range_pos (n : Z) :
  (0 < n)%Z -> exists rest, range n = 0%Z :: rest.
Proof.
  intros Hn. unfold range.
  destruct (Z.to_nat n) as [| k] eqn:E; [lia |].
  simpl. eauto.
Qed.

(* ================================================================= *)
(** ** Rules for runs *)

Section Rules.

Context {F : Type} {PF : PyFloat F}.

Local Abbreviation M := (@M F).
Local Abbreviation world := (@world F).
Local Abbreviation val := (@val F).

Lemma wp_ret {A : Type} (a : A) (Q : A -> world -> Prop) (w : world) :
  Q a w -> wp (ret a) Q w.
Proof. intros HQ. exists a, w. auto. Qed.

Lemma wp_lift {A : Type} (r : result A) (a : A) (Q : A -> world -> Prop)
  (w : world) :
  r = Ok a -> Q a w -> wp (lift r) Q w.
Proof. intros -> HQ. exists a, w. auto. Qed.

Lemma wp_bind {A B : Type} (m : M A) (k : A -> M B)
  (Q : B -> world -> Prop) (w : world) :
  wp m (fun a w1 => wp (k a) Q w1) w -> wp (bind m k) Q w.
Proof.
  intros (a & w1 & Hm & b & w2 & Hk & HQ).
  exists b, w2. split; auto. unfold bind. now rewrite Hm.
Qed.

Lemma wp_mono {A : Type} (m : M A) (Q Q' : A -> world -> Prop) (w : world) :
  wp m Q w -> (forall a w', Q a w' -> Q' a w') -> wp m Q' w.
Proof.
  intros (a & w1 & Hm & HQ) Himp. exists a, w1. auto.
Qed.

Lemma bind_run {A B : Type} (m : M A) (k : A -> M B) (a : A)
  (w w1 : world) :
  m w = (Ok a, w1) -> bind m k w = k a w1.
Proof. intros Hm. unfold bind. now rewrite Hm. Qed.

Lemma wp_alloc (items : list val) (Q : val -> world -> Prop) (w : world) :
  Q (VRef (length (heap w)))
    {| heap := heap w ++ [items]; trace := trace w |} ->
  wp (alloc items) Q w.
Proof. intros HQ. eexists _, _. split; [reflexivity | exact HQ]. Qed.

Lemma wp_iter (l : nat) (items : list val) (Q : list val -> world -> Prop)
  (w : world) :
  nth_error (heap w) l = Some items -> Q items w ->
  wp (iter (VRef l)) Q w.
Proof.
  intros Hl HQ. exists items, w. split; auto. unfold iter. now rewrite Hl.
Qed.

Lemma wp_len (l : nat) (items : list val) (Q : nat -> world -> Prop)
  (w : world) :
  nth_error (heap w) l = Some items -> Q (length items) w ->
  wp (len (VRef l)) Q w.
Proof.
  intros Hl HQ. unfold len. apply wp_bind. eapply wp_iter; eauto.
  now apply wp_ret.
Qed.

Lemma wp_getitem (l i : nat) (items : list val) (x : val)
  (Q : val -> world -> Prop) (w : world) :
  nth_error (heap w) l = Some items -> nth_error items i = Some x ->
  Q x w ->
  wp (getitem (VRef l) i) Q w.
Proof.
  intros Hl Hi HQ. unfold getitem. apply wp_bind. eapply wp_iter; eauto.
  rewrite Hi. now apply wp_ret.
Qed.

Lemma wp_setitem (l i : nat) (items : list val) (x : val)
  (Q : unit -> world -> Prop) (w : world) :
  nth_error (heap w) l = Some items -> i < length items ->
  Q tt {| heap := update l (update i x items) (heap w); trace := trace w |} ->
  wp (setitem (VRef l) i x) Q w.
Proof.
  intros Hl Hi HQ. unfold setitem. apply wp_bind. eapply wp_iter; eauto.
  apply Nat.ltb_lt in Hi. rewrite Hi.
  eexists _, _. split; [reflexivity | exact HQ].
Qed.

Lemma wp_append (l : nat) (items : list val) (x : val)
  (Q : unit -> world -> Prop) (w : world) :
  nth_error (heap w) l = Some items ->
  Q tt {| heap := update l (items ++ [x]) (heap w); trace := trace w |} ->
  wp (append (VRef l) x) Q w.
Proof.
  intros Hl HQ. unfold append. apply wp_bind. eapply wp_iter; eauto.
  eexists _, _. split; [reflexivity | exact HQ].
Qed.

Lemma wp_emit (e : event) (Q : unit -> world -> Prop) (w : world) :
  Q tt {| heap := heap w; trace := trace w ++ [e] |} ->
  wp (emit e) Q w.
Proof. intros HQ. eexists _, _. split; [reflexivity | exact HQ]. Qed.

(** A loop simulates a pure fold: each item [x] has an abstract counterpart
    [b], and [Inv] ties the abstract state to the locals and the world. *)
Lemma wp_for_fold {A B S L : Type} (R : A -> B -> Prop)
  (step : S -> B -> S) (Inv : S -> L -> world -> Prop)
  (body : A -> L -> M L) (xs : list A) (bs : list B) :
  Forall2 R xs bs ->
  (forall x b s l w, R x b -> Inv s l w ->
                     wp (body x l) (fun l' w' => Inv (step s b) l' w') w) ->
  forall s l w,
    Inv s l w ->
    wp (for_fold xs body l) (fun l' w' => Inv (fold_left step bs s) l' w') w.
Proof.
  intros HR Hbody. induction HR as [| x b xs bs Hxb _ IH]; intros s l w HI.
  - simpl. now apply wp_ret.
  - simpl. apply wp_bind. eapply wp_mono; [apply (Hbody x b s l w Hxb HI) |].
    intros l' w' HI'. apply IH. exact HI'.
Qed.

Lemma wp_for_each {A B S : Type} (R : A -> B -> Prop)
  (step : S -> B -> S) (Inv : S -> world -> Prop)
  (body : A -> M unit) (xs : list A) (bs : list B) :
  Forall2 R xs bs ->
  (forall x b s w, R x b -> Inv s w ->
                   wp (body x) (fun _ w' => Inv (step s b) w') w) ->
  forall s w,
    Inv s w ->
    wp (for_each xs body) (fun _ w' => Inv (fold_left step bs s) w') w.
Proof.
  intros HR Hbody s w HI. unfold for_each.
  apply (wp_for_fold R step (fun s (_ : unit) w => Inv s w)
           (fun x _ => body x) xs bs HR); auto.
Qed.

End Rules.

(* ================================================================= *)
(** ** The logistic function over the reals *)

Section Logistic.

Local Open Scope R_scope.

Lemma py_div_R (x y : R) : y <> 0 -> py_div x y = Ok (x / y).
Proof.
  intros Hy. unfold py_div; simpl. rewrite Q2R_0.
  destruct (Req_dec_T y 0); [contradiction | reflexivity].
Qed.

Lemma logistic_value_R (z : R) : logistic_value z = 1 / (1 + exp (- z)).
Proof.
  unfold logistic_value; simpl. rewrite Q2R_1p0.
  destruct (Rle_dec 0 z) as [Hz | Hz]; [reflexivity |].
  rewrite exp_Ropp. pose proof (exp_pos z). field. split; lra.
Qed.

Lemma logistic_R (z : R) : logistic z = Ok (1 / (1 + exp (- z))).
Proof.
  rewrite <- logistic_value_R.
  unfold logistic, logistic_value, math_exp; simpl. rewrite Q2R_1p0.
  destruct (Rle_dec 0 z) as [Hz | Hz].
  - apply py_div_R. pose proof (exp_pos (- z)). lra.
  - apply py_div_R. pose proof (exp_pos z). lra.
Qed.

Lemma sigmoid_bounds (z : R) : 0 < 1 / (1 + exp (- z)) < 1.
Proof.
  pose proof (exp_pos (- z)) as He. split.
  - apply Rdiv_lt_0_compat; lra.
  - apply Rmult_lt_reg_r with (1 + exp (- z)); [lra |].
    unfold Rdiv. rewrite Rmult_assoc, Rinv_l by lra. lra.
Qed.

Lemma sigmoid_increasing (z1 z2 : R) :
  z1 < z2 -> 1 / (1 + exp (- z1)) < 1 / (1 + exp (- z2)).
Proof.
  intros Hlt.
  assert (Hexp : exp (- z2) < exp (- z1)) by (apply exp_increasing; lra).
  pose proof (exp_pos (- z1)). pose proof (exp_pos (- z2)).
  unfold Rdiv. rewrite !Rmult_1_l.
  apply Rinv_lt_contravar; [| lra].
  apply Rmult_lt_0_compat; lra.
Qed.

Lemma sigmoid_half (z : R) :
  (0 < z -> 1 / 2 < 1 / (1 + exp (- z))) /\
  (z < 0 -> 1 / (1 + exp (- z)) < 1 / 2).
Proof.
  assert (H0 : 1 / (1 + exp (- 0)) = 1 / 2).
  { rewrite Ropp_0, exp_0. lra. }
  split; intros Hz; rewrite <- H0; now apply sigmoid_increasing.
Qed.

(** C5: over the reals, the two-branch logistic function of the code
    returns, for every [z], the value of the naive formula
    [1 / (1 + e^-z)]. *)
Theorem logistic_equals_naive (z : R) : logistic z = Ok (naive_logistic z).
Proof.
  unfold naive_logistic, logistic, math_exp. simpl. rewrite Q2R_1p0.
  destruct (Rle_dec 0 z) as [Hz | Hz]; cbn [rbind].
  - apply py_div_R. pose proof (exp_pos (- z)). lra.
  - rewrite py_div_R by (pose proof (exp_pos z); lra).
    f_equal. rewrite exp_Ropp. pose proof (exp_pos z). field. split; lra.
Qed.

(** C6: over the reals, [logistic z] lies strictly between 0 and 1 for
    every [z], [logistic 0] is exactly one half, and [logistic] is strictly
    increasing. In binary64 the bounds are reached: see
    [logistic_b64_saturates]. *)
Theorem logistic_bounds_and_monotone :
  (forall z : R, exists p, logistic z = Ok p /\ 0 < p < 1) /\
  logistic 0 = Ok (1 / 2) /\
  (forall z1 z2 : R,
      z1 < z2 ->
      exists p1 p2, logistic z1 = Ok p1 /\ logistic z2 = Ok p2 /\ p1 < p2).
Proof.
  split; [| split].
  - intros z. eexists. split; [apply logistic_R | apply sigmoid_bounds].
  - rewrite logistic_R. do 2 f_equal. rewrite Ropp_0, exp_0. lra.
  - intros z1 z2 Hlt. eexists _, _.
    split; [apply logistic_R |]. split; [apply logistic_R |].
    now apply sigmoid_increasing.
Qed.

Lemma logistic_bounds_and_monotone_witness :
  exists p1 p2, logistic 0 = Ok p1 /\ logistic 1 = Ok p2 /\ p1 < p2.
Proof.
  apply (proj2 (proj2 logistic_bounds_and_monotone) 0 1). lra.
Defined.

End Logistic.

(* ================================================================= *)
(** ** The feature extractor *)

Section Extractor.

Context {F : Type} {PF : PyFloat F}.
Variable float_of_string : string -> option F.

Local Abbreviation world := (@world F).
Local Abbreviation json := (@json F).
Local Open Scope string_scope.

Lemma bind_lift_ok {A B : Type} (r : result A) (a : A) (k : A -> M B)
  (w : world) :
  r = Ok a -> bind (lift r) k w = k a w.
Proof. intros ->. reflexivity. Qed.

Lemma section_get (fields : list (string * json)) (section : string) :
  section_ok fields section ->
  exists inner,
    py_get (JDict fields) section (JDict []) = Ok (JDict inner) /\
    forall key, field_of fields section key = assoc key inner.
Proof.
  unfold section_ok, py_get, field_of.
  destruct (assoc section fields) as [[| | | | | |inner] |]; try contradiction.
  - intros _. exists inner. auto.
  - intros _. exists []. auto.
Qed.

Lemma float_field_ok (fields inner : list (string * json))
  (section key : string) (dflt : Q) (x : F) :
  (forall k, field_of fields section k = assoc k inner) ->
  field_rule float_of_string fields (section, key, dflt) x ->
  float_field float_of_string (JDict inner) key dflt = Ok x.
Proof.
  intros Hin. unfold field_rule, float_field, py_get. rewrite Hin.
  destruct (assoc key inner); simpl; intros Hx; [exact Hx | now subst].
Qed.

Lemma Forall_choose {A B : Type} (P : A -> B -> Prop) (l : list A) :
  Forall (fun a => exists b, P a b) l -> exists bs, Forall2 P l bs.
Proof.
  induction 1 as [| a l [b Hb] _ [bs IH]].
  - exists []. constructor.
  - exists (b :: bs). now constructor.
Qed.

(** The run of [extract_features] on a record whose numeric features are
    [xs]: it only creates the list of the features. *)
Lemma extract_features_run (fields : list (string * json)) (xs : list F) :
  section_ok fields "metrics" -> section_ok fields "params" ->
  Forall2 (field_rule float_of_string fields) NUMERIC_FEATURES xs ->
  forall w : world,
    extract_features float_of_string (JDict fields) w
    = (Ok (VRef (length (heap w))),
       {| heap :=
            heap w
            ++ [map VFloat
                  (xs ++ [if truthy
                               (match field_of fields "params" "invert" with
                                | Some v => v
                                | None => JNull
                                end)
                          then flit 1.0 else flit 0.0])];
          trace := trace w |}).
Proof.
  intros Hm Hp Hrules w.
  destruct (section_get fields "metrics" Hm) as (ms & Hgm & Hfm).
  destruct (section_get fields "params" Hp) as (ps & Hgp & Hfp).
  unfold NUMERIC_FEATURES in Hrules.
  repeat match goal with
         | H : Forall2 _ (_ :: _) _ |- _ =>
             let x := fresh "x" in
             let Hx := fresh "Hx" in
             inversion H as [| ? x ? ? Hx ?]; subst; clear H
         | H : Forall2 _ [] _ |- _ => inversion H; subst; clear H
         end.
  unfold extract_features.
  rewrite (bind_lift_ok _ _ _ _ Hgm), (bind_lift_ok _ _ _ _ Hgp).
  repeat match goal with
         | H : field_rule _ _ ("metrics", _, _) _ |- _ =>
             rewrite (bind_lift_ok _ _ _ _ (float_field_ok _ _ _ _ _ _ Hfm H));
             clear H
         end.
  repeat match goal with
         | H : field_rule _ _ ("params", _, _) _ |- _ =>
             rewrite (bind_lift_ok _ _ _ _ (float_field_ok _ _ _ _ _ _ Hfp H));
             clear H
         end.
  unfold py_get at 1. rewrite Hfp.
  destruct (assoc "invert" ps); reflexivity.
Qed.


End Extractor.


Example extract_features_of_empty_record (w : @world R) :
  extract_features (fun _ => None) (JDict []) w
  = (Ok (VRef (length (heap w))),
     {| heap := heap w
                ++ [map VFloat
                      [Q2R 0.0; Q2R 0.0; Q2R 0.0; Q2R 0.0; Q2R 0.0; Q2R 0.0;
                       Q2R 0.0; Q2R 1.0; Q2R 1.0; Q2R 1.0; Q2R 0.0]];
        trace := trace w |}).
Proof. reflexivity. Qed.

Example extract_features_of_null_metrics (w : @world R) :
  fst (extract_features (fun _ => None)
         (JDict [("metrics"%string, JNull)]) w)
  = Raise AttributeError.
Proof. reflexivity. Qed.

(** The same code runs on binary64 numbers.  No exponential is taken by
    the extractor or by the standardization, so the C library's [exp] is
    irrelevant here. *)
Example extract_features_b64 (libm_exp : PrimFloat.float -> PrimFloat.float) :
  let PF := B64_PyFloat libm_exp in
  extract_features (fun _ => None)
    (JDict [("metrics"%string,
             JDict [("activity"%string, JInt 3%Z);
                    ("entropy"%string, JFloat (b64_of_Z 2%Z))]);
            ("params"%string, JDict [("invert"%string, JBool true)])])
    {| heap := []; trace := [] |}
  = (Ok (VRef 0),
     {| heap := [map (fun z => VFloat (b64_of_Z z))
                   [3; 2; 0; 0; 0; 0; 0; 1; 1; 1; 1]%Z];
        trace := [] |}).
Proof. vm_compute. reflexivity. Qed.

Example standardize_b64 (libm_exp : PrimFloat.float -> PrimFloat.float) :
  let PF := B64_PyFloat libm_exp in
  let f := b64_of_Z in
  let r := PrimFloat.sqrt (f 2%Z) in
  standardize (VRef 0)
    {| heap := [[VRef 1; VRef 2];
                [VFloat (f 1%Z); VFloat (f 2%Z)];
                [VFloat (f 3%Z); VFloat (f 2%Z)]];
       trace := [] |}
  = (Ok (VRef 3, VRef 4),
     {| heap := [[VRef 1; VRef 2];
                 [VFloat (PrimFloat.div (f (-1)%Z) r); VFloat (f 0%Z)];
                 [VFloat (PrimFloat.div (f 1%Z) r); VFloat (f 0%Z)];
                 [VFloat (f 2%Z); VFloat (f 2%Z)];
                 [VFloat r; VFloat (f 1%Z)]];
        trace := [] |}).
Proof. vm_compute. reflexivity. Qed.

(* ================================================================= *)
(** ** The dataset merger *)

Section Merger.

Context {F : Type} {PF : PyFloat F}.

Local Abbreviation json := (@json F).
Local Abbreviation dict := (@dict F).

Lemma combine_entry_id (e : json) (s : string) (d : dict) :
  id_of e = Some s -> combine_entry e d = Ok (dict_insert (JStr s) e d).
Proof.
  unfold id_of, combine_entry, py_getitem.
  destruct e as [| | | | | | fields]; try discriminate.
  destruct (assoc "id" fields) as [[| | | | t | |] |]; try discriminate.
  intros [= ->]. reflexivity.
Qed.

Lemma has_id_true (k : string) (e : json) :
  has_id k e = true <-> id_of e = Some k.
Proof.
  unfold has_id. destruct (id_of e) as [s |]; [| split; discriminate].
  rewrite String.eqb_eq. split; congruence.
Qed.

Lemma existsb_eqb_In (k : string) (ks : list string) :
  existsb (String.eqb k) ks = true <-> In k ks.
Proof.
  rewrite existsb_exists. split.
  - intros (x & Hx & E). apply String.eqb_eq in E. now subst.
  - intros Hk. exists k. split; auto. apply String.eqb_refl.
Qed.

Lemma first_seen_ext (seen1 seen2 ks : list string) :
  (forall k, In k seen1 <-> In k seen2) ->
  first_seen seen1 ks = first_seen seen2 ks.
Proof.
  revert seen1 seen2; induction ks as [| k ks IH]; intros s1 s2 Hs; simpl; auto.
  assert (E : existsb (String.eqb k) s1 = existsb (String.eqb k) s2).
  { apply eq_true_iff_eq. rewrite !existsb_eqb_In. apply Hs. }
  rewrite E. destruct (existsb (String.eqb k) s2).
  - now apply IH.
  - f_equal. apply IH. intros k'. simpl. now rewrite Hs.
Qed.

Lemma first_seen_In (seen ks : list string) (k : string) :
  In k (first_seen seen ks) -> In k ks /\ ~ In k seen.
Proof.
  revert seen; induction ks as [| k0 ks IH]; intros seen; simpl; [tauto |].
  destruct (existsb (String.eqb k0) seen) eqn:E.
  - intros Hk. destruct (IH _ Hk). tauto.
  - intros [-> | Hk].
    + split; auto. rewrite <- existsb_eqb_In. congruence.
    + destruct (IH _ Hk) as [? Hn]. split; auto. simpl in Hn. tauto.
Qed.

Lemma first_seen_NoDup (seen ks : list string) :
  NoDup (first_seen seen ks).
Proof.
  revert seen; induction ks as [| k ks IH]; intros seen; simpl.
  - constructor.
  - destruct (existsb (String.eqb k) seen); auto.
    constructor; auto. intros Hk. apply first_seen_In in Hk. simpl in Hk. tauto.
Qed.

Lemma dict_insert_dict_of (s : string) (e : json) (keys : list string)
  (valf : string -> json) :
  NoDup keys ->
  dict_insert (JStr s) e (dict_of keys valf)
  = dict_of (if existsb (String.eqb s) keys then keys else keys ++ [s])
      (fun k => if String.eqb k s then e else valf k).
Proof.
  induction keys as [| k ks IH]; intros Hnd; simpl.
  - now rewrite String.eqb_refl.
  - inversion Hnd as [| ? ? Hk Hks]; subst.
    rewrite (String.eqb_sym s k).
    destruct (String.eqb k s) eqn:E; simpl.
    + apply String.eqb_eq in E; subst k. rewrite String.eqb_refl.
      f_equal. unfold dict_of.
      apply map_ext_in. intros k' Hk'.
      destruct (String.eqb k' s) eqn:E'; auto.
      apply String.eqb_eq in E'. now subst.
    + rewrite IH by assumption.
      destruct (existsb (String.eqb s) ks); simpl; now rewrite E.
Qed.

Lemma ids_of_cons (e : json) (s : string) (rest : list json) :
  id_of e = Some s -> ids_of (e :: rest) = s :: ids_of rest.
Proof. intros Hid. unfold ids_of. simpl. now rewrite Hid. Qed.

Lemma ids_of_In (entries : list json) (k : string) :
  In k (ids_of entries) -> exists e, In e entries /\ has_id k e = true.
Proof.
  unfold ids_of. rewrite in_flat_map. intros (e & He & Hk).
  exists e. split; auto. apply has_id_true.
  destruct (id_of e); simpl in Hk; [| contradiction].
  destruct Hk as [-> | []]. reflexivity.
Qed.

Lemma find_snoc {A : Type} (p : A -> bool) (xs : list A) (x : A) :
  find p (xs ++ [x])
  = match find p xs with
    | Some y => Some y
    | None => if p x then Some x else None
    end.
Proof.
  induction xs as [| y xs IH]; simpl; auto.
  destruct (p y); auto.
Qed.

(** Folding records with string identifiers into a dictionary: the keys
    grow in order of first appearance and each key holds the last record
    that carried it. *)
Lemma rfold_combine (entries : list json) :
  Forall (fun e => id_of e <> None) entries ->
  forall (keys : list string) (valf : string -> json),
    NoDup keys ->
    exists valf',
      rfold entries combine_entry (dict_of keys valf)
      = Ok (dict_of (keys ++ first_seen keys (ids_of entries)) valf') /\
      NoDup (keys ++ first_seen keys (ids_of entries)) /\
      forall k, valf' k = match find (has_id k) (rev entries) with
                          | Some e => e
                          | None => valf k
                          end.
Proof.
  induction 1 as [| e rest He _ IH]; intros keys valf Hnd.
  - exists valf. simpl. rewrite app_nil_r. auto.
  - destruct (id_of e) as [s |] eqn:Hid; [| contradiction].
    simpl rfold. rewrite (combine_entry_id e s (dict_of keys valf) Hid).
    simpl rbind. rewrite dict_insert_dict_of by assumption.
    rewrite (ids_of_cons e s rest Hid). simpl first_seen.
    destruct (existsb (String.eqb s) keys) eqn:E.
    + destruct (IH keys (fun k => if String.eqb k s then e else valf k) Hnd)
        as (valf' & Hrun & Hnd' & Hval).
      exists valf'. split; [exact Hrun |]. split; [exact Hnd' |].
      intros k. rewrite Hval. simpl rev. rewrite find_snoc.
      destruct (find (has_id k) (rev rest)); auto.
      unfold has_id. rewrite Hid. rewrite (String.eqb_sym s k).
      now destruct (String.eqb k s).
    + assert (Hs : ~ In s keys).
      { rewrite <- existsb_eqb_In. congruence. }
      assert (Hnd1 : NoDup (keys ++ [s])).
      { apply NoDup_app; auto.
        - constructor; [intros [] | constructor].
        - intros x Hx [<- | []]. contradiction. }
      destruct (IH (keys ++ [s])
                  (fun k => if String.eqb k s then e else valf k) Hnd1)
        as (valf' & Hrun & Hnd' & Hval).
      assert (Hfs : first_seen (keys ++ [s]) (ids_of rest)
                    = first_seen (s :: keys) (ids_of rest)).
      { apply first_seen_ext. intros k. rewrite in_app_iff. simpl. tauto. }
      rewrite Hfs, <- app_assoc in Hrun, Hnd'. simpl in Hrun, Hnd'.
      exists valf'. split; [exact Hrun |]. split; [exact Hnd' |].
      intros k. rewrite Hval. simpl rev. rewrite find_snoc.
      destruct (find (has_id k) (rev rest)); auto.
      unfold has_id. rewrite Hid. rewrite (String.eqb_sym s k).
      now destruct (String.eqb k s).
Qed.

Lemma manual_ids :
  ids_of (F := F) MANUAL_SEEDS
  = ["manual-1"; "manual-2"; "manual-3"; "manual-4"; "manual-5"; "manual-6";
     "manual-7"; "manual-8"; "manual-9"]%string.
Proof. reflexivity. Qed.

Lemma manual_have_ids :
  Forall (fun e : json => id_of e <> None) MANUAL_SEEDS.
Proof. repeat constructor; discriminate. Qed.

Lemma manual_first_seen :
  first_seen [] (ids_of (F := F) MANUAL_SEEDS) = ids_of (F := F) MANUAL_SEEDS.
Proof. reflexivity. Qed.

Lemma manual_find (k : string) :
  In k (ids_of (F := F) MANUAL_SEEDS) ->
  exists e : json,
    find (has_id k) MANUAL_SEEDS = Some e /\
    find (has_id k) (rev MANUAL_SEEDS) = Some e.
Proof.
  rewrite manual_ids. simpl In.
  intros [<- | [<- | [<- | [<- | [<- | [<- | [<- | [<- | [<- | []]]]]]]]]];
    eexists; split; reflexivity.
Qed.

Lemma flat_map_singletons {A B : Type} (f : A -> list B) (g : A -> B)
  (xs : list A) :
  (forall x, In x xs -> f x = [g x]) -> flat_map f xs = map g xs.
Proof.
  induction xs as [| x xs IH]; intros Hf; simpl; auto.
  rewrite (Hf x) by (now left). simpl. f_equal. apply IH.
  intros y Hy. apply Hf. now right.
Qed.

Lemma find_rev_entries (entries : list json) (k : string) :
  (exists e, In e entries /\ has_id k e = true) ->
  find (has_id k) (rev entries) <> None.
Proof.
  intros (e & He & Hk) Hnone.
  apply in_rev in He.
  pose proof (find_none _ _ Hnone e He) as Hf. congruence.
Qed.

(** The merged records as a function of the identifier: [build_dataset]
    returns them in the order of the specification, and under each
    identifier stands the last external record that carries it, or else
    the manual seed. *)
Lemma merged_by_id (entries : list json) :
  Forall (fun e : json => id_of e <> None) entries ->
  let order := ids_of MANUAL_SEEDS
               ++ first_seen (ids_of MANUAL_SEEDS) (ids_of entries) in
  exists valf : string -> json,
    build_dataset entries = Ok (map valf order) /\
    spec_dataset entries = map valf order /\
    NoDup order /\
    forall k, In k order ->
      has_id k (valf k) = true /\
      match find (has_id k) (rev entries) with
      | Some e => valf k = e
      | None => ~ In k (ids_of entries)
      end.
Proof.
  intros Hent order.
  destruct (rfold_combine MANUAL_SEEDS manual_have_ids [] (fun _ => JNull)
              (NoDup_nil _)) as (valf1 & Hrun1 & Hnd1 & Hval1).
  rewrite app_nil_l, manual_first_seen in Hrun1, Hnd1.
  destruct (rfold_combine entries Hent (ids_of MANUAL_SEEDS) valf1 Hnd1)
    as (valf2 & Hrun2 & Hnd2 & Hval2).
  fold order in Hrun2, Hnd2.
  assert (Hpick : forall k, In k order ->
            exists e, has_id k e = true /\ valf2 k = e /\
              match find (has_id k) (rev entries) with
              | Some e' => [e']
              | None => match find (has_id k) MANUAL_SEEDS with
                        | Some e' => [e']
                        | None => []
                        end
              end = [e] /\
              match find (has_id k) (rev entries) with
              | Some e' => valf2 k = e'
              | None => ~ In k (ids_of entries)
              end).
  { intros k Hk. rewrite Hval2.
    destruct (find (has_id k) (rev entries)) as [e |] eqn:Hfind.
    - exists e. apply find_some in Hfind. destruct Hfind.
      repeat split; auto.
    - assert (Hnot : ~ In k (ids_of entries)).
      { intros Hin. apply ids_of_In in Hin.
        now apply (find_rev_entries entries k). }
      apply in_app_iff in Hk. destruct Hk as [Hk | Hk].
      + destruct (manual_find k Hk) as (e & Hf1 & Hf2).
        exists e. rewrite Hval1, Hf2, Hf1.
        apply find_some in Hf1. destruct Hf1. auto.
      + apply first_seen_In in Hk. tauto. }
  exists valf2. split; [| split; [| split; [exact Hnd2 |]]].
  - unfold build_dataset.
    change (dict_of [] (fun _ : string => @JNull F))
      with (@nil (json * json)) in Hrun1.
    rewrite Hrun1. cbn [rbind]. rewrite Hrun2. cbn [rbind].
    unfold dict_values, dict_of. now rewrite map_map.
  - unfold spec_dataset. fold order. apply flat_map_singletons.
    intros k Hk. destruct (Hpick k Hk) as (e & _ & <- & Heq & _). exact Heq.
  - intros k Hk. destruct (Hpick k Hk) as (e & Hid & <- & _ & Hlast).
    split; [exact Hid | exact Hlast].
Qed.

(** C3: for external entries that carry a string [id], [build_dataset]
    returns the merged dataset of the specification: the manual identifiers
    first in their fixed order, then the new external identifiers in input
    order, and under each identifier one whole record, the last external
    one that carries it or else the manual seed. Every identifier occurs
    once, and a record whose identifier occurs in the external input is an
    external record. *)
Theorem build_dataset_merges (entries : list json) :
  Forall (fun e : json => id_of e <> None) entries ->
  build_dataset entries = Ok (spec_dataset entries) /\
  NoDup (ids_of (spec_dataset entries)) /\
  length (ids_of (spec_dataset entries)) = length (spec_dataset entries) /\
  forall r e : json,
    In r (spec_dataset entries) -> In e entries -> id_of e = id_of r ->
    In r entries.
Proof.
  intros Hent.
  destruct (merged_by_id entries Hent) as (valf & Hrun & Hds & Hnd & Hpick).
  cbv zeta in Hrun, Hds, Hnd, Hpick.
  set (order := ids_of MANUAL_SEEDS
                ++ first_seen (ids_of MANUAL_SEEDS) (ids_of entries)) in *.
  assert (Hids : ids_of (spec_dataset entries) = order).
  { rewrite Hds. unfold ids_of. rewrite flat_map_concat_map, map_map.
    rewrite <- flat_map_concat_map.
    rewrite (flat_map_singletons _ (fun k => k)); [apply map_id |].
    intros k Hk. destruct (Hpick k Hk) as (Hid & _).
    apply has_id_true in Hid. now rewrite Hid. }
  split; [| split; [| split]].
  - now rewrite Hds.
  - now rewrite Hids.
  - rewrite Hids, Hds. now rewrite length_map.
  - intros r e Hr He Hid. rewrite Hds in Hr. apply in_map_iff in Hr.
    destruct Hr as (k & <- & Hk).
    destruct (Hpick k Hk) as (Hidk & Hlast).
    apply has_id_true in Hidk.
    destruct (find (has_id k) (rev entries)) as [e2 |] eqn:Hfind.
    + rewrite Hlast. apply find_some in Hfind. destruct Hfind as [Hin _].
      now apply in_rev in Hin.
    + exfalso. apply (find_rev_entries entries k); auto.
      exists e. split; auto. apply has_id_true. congruence.
Qed.

End Merger.

Lemma build_dataset_merges_witness :
  let e1 : @json R :=
    JDict [("id"%string, JStr "manual-1"); ("label"%string, JStr "normal")] in
  let e2 : @json R := JDict [("id"%string, JStr "seed-42")] in
  build_dataset [e1; e2; e1] = Ok (spec_dataset [e1; e2; e1]) /\
  spec_dataset [e1; e2; e1] = (e1 :: tl MANUAL_SEEDS) ++ [e2].
Proof.
  intros e1 e2. split.
  - apply (build_dataset_merges [e1; e2; e1]).
    repeat constructor; discriminate.
  - reflexivity.
Defined.

(* ================================================================= *)
(** ** Loops that update a list index by index *)

Section IndexLoops.

Context {A : Type}.

Lemma fold_update_seq (d : A) (g : nat -> A -> A) (post pre : list A) :
  fold_left (fun acc j => update j (g j (nth j acc d)) acc)
    (seq (length pre) (length post)) (pre ++ post)
  = pre ++ map (fun p => g (fst p) (snd p))
             (combine (seq (length pre) (length post)) post).
Proof.
  revert pre; induction post as [| a post IH]; intros pre; simpl.
  - reflexivity.
  - rewrite nth_middle_default, update_middle.
    replace (pre ++ g (length pre) a :: post)
      with ((pre ++ [g (length pre) a]) ++ post)
      by (now rewrite <- app_assoc).
    replace (S (length pre)) with (length (pre ++ [g (length pre) a]))
      by (rewrite length_app; simpl; lia).
    rewrite IH. now rewrite <- app_assoc.
Qed.

Lemma fold_update_all (d : A) (g : nat -> A -> A) (xs : list A) :
  fold_left (fun acc j => update j (g j (nth j acc d)) acc)
    (seq 0 (length xs)) xs
  = map (fun p => g (fst p) (snd p)) (combine (seq 0 (length xs)) xs).
Proof. apply (fold_update_seq d g xs []). Qed.

Lemma map_combine_seq_snd {B : Type} (f : A -> B) (xs : list A) (a : nat) :
  map (fun p => f (snd p)) (combine (seq a (length xs)) xs) = map f xs.
Proof.
  revert a; induction xs as [| x xs IH]; intros a; simpl; auto.
  now rewrite IH.
Qed.

Lemma map_combine_seq_nth {B C : Type} (d : B) (h : A -> B -> C)
  (xs : list A) (ys pre : list B) :
  length xs = length ys ->
  map (fun p => h (snd p) (nth (fst p) (pre ++ ys) d))
    (combine (seq (length pre) (length xs)) xs)
  = map (fun q => h (fst q) (snd q)) (combine xs ys).
Proof.
  revert ys pre; induction xs as [| x xs IH]; intros [| y ys] pre Hlen;
    simpl in *; try discriminate; auto.
  rewrite nth_middle_default. f_equal.
  replace (pre ++ y :: ys) with ((pre ++ [y]) ++ ys)
    by (now rewrite <- app_assoc).
  replace (S (length pre)) with (length (pre ++ [y]))
    by (rewrite length_app; simpl; lia).
  apply IH. lia.
Qed.

Lemma Forall2_seq_lt (a n : nat) :
  Forall2 (fun j j' => j = j' /\ j < a + n) (seq a n) (seq a n).
Proof.
  revert a; induction n as [| n IH]; intros a; simpl; constructor.
  - split; auto; lia.
  - replace (a + S n) with (S a + n) by lia. apply IH.
Qed.

Lemma Forall2_eq_refl (xs : list A) : Forall2 eq xs xs.
Proof. induction xs; constructor; auto. Qed.

Lemma nth_error_middle (x : A) (pre post : list A) :
  nth_error (pre ++ x :: post) (length pre) = Some x.
Proof.
  rewrite nth_error_app2 by lia. now rewrite Nat.sub_diag.
Qed.

Lemma nth_error_app_Some (xs ys : list A) (i : nat) (x : A) :
  nth_error xs i = Some x -> nth_error (xs ++ ys) i = Some x.
Proof.
  intros Hx. rewrite nth_error_app1; auto.
  apply nth_error_Some. congruence.
Qed.

End IndexLoops.

Section UpdateLoop.

Context {F : Type} {PF : PyFloat F}.

Local Abbreviation M := (@M F).
Local Abbreviation world := (@world F).
Local Abbreviation val := (@val F).

Lemma nth_error_map_VFloat (T : list F) (j : nat) :
  j < length T ->
  nth_error (map VFloat T) j = Some (VFloat (nth j T (flit 0.0))).
Proof.
  intros Hj. rewrite nth_error_map.
  now rewrite (nth_error_Some_nth T j (flit 0.0)) by assumption.
Qed.

(** A loop over [range(n)] whose body rewrites item [j] of the list object
    between [pre] and [post], and nothing else. *)
Lemma wp_index_loop (pre post : list (list val)) (tr : list event)
  (n : nat) (g : nat -> F -> F) (body : nat -> M unit) :
  (forall j T w,
      j < n -> length T = n ->
      heap w = pre ++ map VFloat T :: post -> trace w = tr ->
      wp (body j)
        (fun _ w' =>
           heap w' = pre ++ map VFloat (update j (g j (nth j T (flit 0.0))) T)
                             :: post /\
           trace w' = tr) w) ->
  forall T w,
    length T = n ->
    heap w = pre ++ map VFloat T :: post -> trace w = tr ->
    wp (for_each (seq 0 n) body)
      (fun _ w' =>
         heap w' = pre ++ map VFloat
                            (map (fun p => g (fst p) (snd p))
                               (combine (seq 0 n) T)) :: post /\
         trace w' = tr) w.
Proof.
  intros Hbody T w HT Hheap Htr.
  eapply wp_mono.
  - apply (wp_for_each (fun j j' => j = j' /\ j < n)
             (fun T j => update j (g j (nth j T (flit 0.0))) T)
             (fun T w => length T = n /\
                         heap w = pre ++ map VFloat T :: post /\
                         trace w = tr)
             body (seq 0 n) (seq 0 n)).
    + apply (Forall2_seq_lt 0 n).
    + intros j j' T' w' [<- Hj] (HT' & Hh' & Htr').
      eapply wp_mono; [apply (Hbody j T' w' Hj HT' Hh' Htr') |].
      intros _ w'' [Hh'' Htr'']. rewrite update_length. auto.
    + split; [exact HT | split; [exact Hheap | exact Htr]].
  - intros _ w' (_ & Hh & Htr'). split; [| exact Htr'].
    rewrite Hh. subst n. now rewrite fold_update_all.
Qed.

End UpdateLoop.

(* ================================================================= *)
(** ** The trainer refines its specification *)

Section Trainer.

Context {F : Type} {PF : PyFloat F} {PL : PyFloatLaws F}.

Local Abbreviation M := (@M F).
Local Abbreviation world := (@world F).
Local Abbreviation val := (@val F).

Lemma logistic_ok (z : F) : logistic z = Ok (logistic_value z).
Proof.
  unfold logistic, logistic_value, math_exp, py_div.
  destruct (fleb (of_Z 0) z) eqn:E.
  - rewrite (exp_in_range_opp _ E). cbn [rbind]. now rewrite exp_denominator.
  - rewrite (exp_in_range_neg _ E). cbn [rbind]. now rewrite exp_denominator.
Qed.

Lemma py_div_count (x : F) (n : nat) :
  0 < n ->
  py_div x (of_Z (Z.of_nat n)) = Ok (fdiv x (of_Z (Z.of_nat n))).
Proof.
  intros Hn. unfold py_div. rewrite of_Z_nonzero by lia. reflexivity.
Qed.

Lemma rmap_val_mul (W row : list F) :
  rmap (fun '(w, xij) => val_mul w xij)
    (combine (map VFloat W) (map (@VFloat F) row))
  = Ok (map (fun p => fmul (fst p) (snd p)) (combine W row)).
Proof.
  revert row; induction W as [| a W IH]; intros [| x row]; simpl; auto.
  rewrite IH. reflexivity.
Qed.

(** The example loop computes the errors on the fly; the specification
    computes them first and accumulates afterwards. *)
Lemma grad_fold_spec (eof : list F * Z -> F) (l : list (list F * Z))
  (G0 : list F) (gb0 : F) :
  fold_left
    (fun (s : list F * F) (b : list F * Z) =>
       (map (fun q => fadd (fst q) (fmul (eof b) (snd q)))
          (combine (fst s) (fst b)),
        fadd (snd s) (eof b)))
    l (G0, gb0)
  = (fold_left
       (fun g p => map (fun q => fadd (fst q) (fmul (fst p) (snd q)))
                     (combine g (snd p)))
       (combine (map eof l) (map fst l)) G0,
     fold_left fadd (map eof l) gb0).
Proof.
  revert G0 gb0; induction l as [| b l IH]; intros G0 gb0; simpl; auto.
Qed.

(** The inner loop [for j in range(n_features): target[j] = h(target[j],
    source[j])] for a target between [pre] and [post] and a source that is
    another object. *)
Lemma wp_zip_loop (pre post : list (list val)) (tr : list event) (n : nat)
  (h : F -> F -> F) (src : nat) (S : list F) (body : nat -> M unit) :
  length S = n ->
  (forall T, nth_error (pre ++ map VFloat T :: post) src
             = Some (map VFloat S)) ->
  (forall j t s w,
      j < n ->
      heap w = pre ++ t :: post ->
      nth_error t j = Some (VFloat s) ->
      wp (body j)
        (fun _ w' =>
           heap w' = pre ++ update j (VFloat (h s (nth j S (flit 0.0)))) t
                            :: post /\
           trace w' = trace w) w) ->
  forall T w,
    length T = n ->
    heap w = pre ++ map VFloat T :: post -> trace w = tr ->
    wp (for_each (seq 0 n) body)
      (fun _ w' =>
         heap w' = pre ++ map VFloat
                            (map (fun q => h (fst q) (snd q)) (combine T S))
                          :: post /\
         trace w' = tr) w.
Proof.
  intros HS Hsrc Hbody T w HT Hheap Htr.
  assert (Hstep : forall j T' w',
             j < n -> length T' = n ->
             heap w' = pre ++ map VFloat T' :: post -> trace w' = tr ->
             wp (body j)
               (fun _ w'' =>
                  heap w'' = pre ++ map VFloat
                                      (update j (h (nth j T' (flit 0.0))
                                                   (nth j S (flit 0.0))) T')
                                    :: post /\
                  trace w'' = tr) w').
  { intros j T' w' Hj HT' Hh' Htr'.
    eapply wp_mono.
    + apply (Hbody j (map VFloat T') (nth j T' (flit 0.0)) w' Hj Hh').
      apply nth_error_map_VFloat. lia.
    + intros _ w'' [Hh'' Htr'']. split; [| congruence].
      rewrite Hh''. now rewrite update_map. }
  eapply wp_mono.
  - exact (wp_index_loop pre post tr n
             (fun j a => h a (nth j S (flit 0.0))) body Hstep T w HT Hheap Htr).
  - intros _ w' [Hh Htr']. split; [| exact Htr'].
    rewrite Hh. do 3 f_equal. subst n. rewrite <- HT.
    apply (map_combine_seq_nth (flit 0.0) h T S []). lia.
Qed.

Lemma combine_map_fst_combine {A B C : Type} (f : A * B -> C) (xs : list A)
  (ys : list B) :
  combine (map f (combine xs ys)) (map fst (combine xs ys))
  = combine (map f (combine xs ys)) xs.
Proof.
  revert ys. induction xs as [| x xs IH]; intros [| y ys]; simpl; auto.
  now rewrite IH.
Qed.

(** The examples the loop [for xi, yi in zip(X, y)] visits, whatever the
    two lengths. *)
Lemma examples_zipped (h0 : list (list val)) (nF : nat) (rows : list nat)
  (X : list (list F)) (ys : list Z) :
  Forall2 (fun r row => nth_error h0 r = Some (map VFloat row)) rows X ->
  Forall (fun row => length row = nF) X ->
  Forall2
    (fun (x : val * val) (b : list F * Z) =>
       snd x = VInt (snd b) /\ length (fst b) = nF /\
       exists r, fst x = VRef r /\
                 nth_error h0 r = Some (map VFloat (fst b)))
    (combine (map VRef rows) (map VInt ys)) (combine X ys).
Proof.
  intros HR. revert ys.
  induction HR as [| r row rows X Hr _ IH]; intros [| y ys] HF;
    simpl in *; constructor.
  - inversion HF; subst. simpl. repeat split; auto. exists r. auto.
  - inversion HF; subst. apply IH; auto.
Qed.

(** One epoch of the specification as the fold the example loop runs,
    whatever the number of labels. *)
Lemma spec_epoch_zip (nF : nat) (X : list (list F)) (ys : list Z)
  (W : list F) (b lr : F) (epoch : Z) :
  spec_epoch nF X ys (W, b, lr) epoch
  = let s2 :=
      fold_left
        (fun (s : list F * F) (p : list F * Z) =>
           (map (fun q =>
                   fadd (fst q)
                     (fmul (fsub (logistic_value (fadd (dot W (fst p)) b))
                              (of_Z (snd p))) (snd q)))
              (combine (fst s) (fst p)),
            fadd (snd s)
              (fsub (logistic_value (fadd (dot W (fst p)) b)) (of_Z (snd p)))))
        (combine X ys) (repeat (flit 0.0) nF, flit 0.0) in
    (map (fun p => fsub (fst p)
                     (fmul lr (fdiv (snd p) (of_Z (Z.of_nat (length X))))))
       (combine W (fst s2)),
     fsub b (fmul lr (fdiv (snd s2) (of_Z (Z.of_nat (length X))))),
     if ((epoch mod 1000) =? 0)%Z && (0 <? epoch)%Z
     then fmul lr (flit 0.9) else lr).
Proof.
  cbv zeta.
  rewrite (grad_fold_spec
             (fun p => fsub (logistic_value (fadd (dot W (fst p)) b))
                         (of_Z (snd p)))).
  rewrite combine_map_fst_combine.
  reflexivity.
Qed.

Lemma spec_epoch_length (nF : nat) (X : list (list F)) (ys : list Z)
  (s : opt_state) (epoch : Z) :
  Forall (fun row => length row = nF) X ->
  length (fst (fst s)) = nF ->
  length (fst (fst (spec_epoch nF X ys s epoch))) = nF.
Proof.
  intros HX HW. destruct s as [[W b] lr]. unfold spec_epoch. cbn [fst snd] in *.
  rewrite length_map, length_combine.
  assert (HG : forall errs G, length G = nF ->
            length (fold_left
                      (fun g p =>
                         map (fun q => fadd (fst q) (fmul (fst p) (snd q)))
                           (combine g (snd p)))
                      (combine errs X) G) = nF).
  { clear W HW. induction HX as [| row X' Hrow _ IH]; intros errs G HG.
    - destruct errs; simpl; auto.
    - destruct errs as [| e errs]; simpl; auto.
      apply IH. rewrite length_map, length_combine. lia. }
  unfold spec_gradW. rewrite HG by apply repeat_length. lia.
Qed.

Lemma spec_train_length (nF : nat) (X : list (list F)) (ys : list Z)
  (epochs : Z) (lr : F) :
  Forall (fun row => length row = nF) X ->
  length (fst (fst (spec_train nF X ys epochs lr))) = nF.
Proof.
  intros HX. unfold spec_train.
  generalize (range epochs) as es.
  assert (H0 : length (fst (fst (repeat (flit 0.0) nF, flit 0.0, lr))) = nF)
    by apply repeat_length.
  revert H0. generalize (repeat (flit 0.0) nF, flit 0.0, lr) as s.
  intros s Hs es. revert s Hs.
  induction es as [| e es IH]; intros s Hs; simpl; auto.
  apply IH. now apply spec_epoch_length.
Qed.

(** [train_logistic_regression] on a heap that holds the matrix [X] and a
    list of labels [ys], of any length, returns normally; the weights are
    a new list object that holds the weights of [spec_train], the bias is
    that of [spec_train], and every object of the initial heap is as it
    was. *)
Lemma train_refines_zip (w : world) (Xl yl : nat) (rows : list nat)
  (X : list (list F)) (ys : list Z) (nF : nat)
  (epochs : option Z) (lr : option F) :
  matrix_at w Xl rows X ->
  X <> [] ->
  Forall (fun row => length row = nF) X ->
  ints_at w yl ys ->
  wp (train_logistic_regression (VRef Xl) (VRef yl) epochs lr)
    (fun model w' =>
       let s := spec_train nF X ys
                  (match epochs with Some e => e | None => 5000%Z end)
                  (match lr with Some r => r | None => flit 0.05 end) in
       (exists junk,
           heap w' = heap w ++ map VFloat (fst (fst s)) :: junk) /\
       trace w' = trace w /\
       model = {| weights := VRef (length (heap w)); bias := snd (fst s) |})
    w.
Proof.
  intros [HX Hrows] Hne Hlen Hy.
  assert (Hnrows : length rows = length X) by (eapply Forall2_length; eauto).
  assert (Hpos : 0 < length X) by (destruct X; simpl; [congruence | lia]).
  unfold train_logistic_regression.
  set (E := match epochs with Some e => e | None => 5000%Z end).
  set (LR := match lr with Some r => r | None => flit 0.05 end).
  apply wp_bind. eapply wp_len; [exact HX |]. rewrite length_map, Hnrows.
  destruct Hrows as [| r0 row0 rows' X' Hr0 Hrows']; [congruence |].
  set (Xall := row0 :: X') in *.
  assert (Hall : Forall2 (fun r row => nth_error (heap w) r
                                       = Some (map VFloat row))
                   (r0 :: rows') Xall) by (constructor; assumption).
  apply wp_bind. eapply wp_getitem; [exact HX | reflexivity |].
  apply wp_bind. eapply wp_len; [exact Hr0 |]. rewrite length_map.
  assert (Hrow0 : length row0 = nF) by (inversion Hlen; assumption).
  rewrite Hrow0.
  apply wp_bind. apply wp_alloc.
  apply wp_bind. eapply wp_mono.
  { eapply (wp_for_fold eq (spec_epoch nF Xall ys)
              (fun (s : opt_state) (l : F * F) (w1 : world) =>
                 l = (snd (fst s), snd s) /\
                 length (fst (fst s)) = nF /\
                 (exists junk,
                     heap w1 = heap w ++ map VFloat (fst (fst s)) :: junk) /\
                 trace w1 = trace w))
      with (bs := range E) (s := (repeat (flit 0.0) nF, flit 0.0, LR)).
    - apply Forall2_eq_refl.
    - intros epoch ? [[W b] lr0] l w1 <- (Hl & HW & (junk & Hh) & Htr).
      cbn [fst snd] in Hl, HW, Hh. subst l. cbv beta iota.
      set (pre := heap w ++ map VFloat W :: junk) in *.
      apply wp_bind. apply wp_alloc. rewrite Hh.
      match goal with
      | |- wp _ _ ?w0 => set (w2 := w0)
      end.
      assert (Hh2 : heap w2 = pre ++ [map VFloat (repeat (flit 0.0) nF)]).
      { unfold w2. cbn [heap]. now rewrite map_repeat. }
      assert (Htr2 : trace w2 = trace w) by (unfold w2; cbn [trace]; auto).
      clearbody w2.
      assert (Hbase : forall l items post,
                 nth_error (heap w) l = Some items ->
                 nth_error (pre ++ post) l = Some items).
      { intros l items post Hl. apply nth_error_app_Some.
        unfold pre. now apply nth_error_app_Some. }
      apply wp_bind. eapply wp_iter; [rewrite Hh2; apply Hbase; exact HX |].
      apply wp_bind. eapply wp_iter; [rewrite Hh2; apply Hbase; exact Hy |].
      apply wp_bind. eapply wp_mono.
      { eapply (wp_for_fold
                  (fun (x : val * val) (p : list F * Z) =>
                     snd x = VInt (snd p) /\ length (fst p) = nF /\
                     exists r, fst x = VRef r /\
                               nth_error (heap w) r
                               = Some (map VFloat (fst p)))
                  (fun (s : list F * F) (p : list F * Z) =>
                     (map (fun q =>
                             fadd (fst q)
                               (fmul (fsub (logistic_value
                                              (fadd (dot W (fst p)) b))
                                        (of_Z (snd p))) (snd q)))
                        (combine (fst s) (fst p)),
                      fadd (snd s)
                        (fsub (logistic_value (fadd (dot W (fst p)) b))
                           (of_Z (snd p)))))
                  (fun (s : list F * F) (gb : F) (w3 : world) =>
                     gb = snd s /\ length (fst s) = nF /\
                     heap w3 = pre ++ [map VFloat (fst s)] /\
                     trace w3 = trace w))
          with (bs := combine Xall ys)
               (s := (repeat (flit 0.0) nF, flit 0.0)).
        - apply examples_zipped; assumption.
        - intros [xi yi] [row yv] [G gb] grad_b w3
            (Hyi & Hrow & r & Hxi & Hr) (Hgb & HG & Hh3 & Htr3).
          cbn [fst snd] in *. subst xi yi grad_b. cbv beta iota.
          apply wp_bind. eapply wp_iter.
          { rewrite Hh3. unfold pre. rewrite <- app_assoc, <- app_comm_cons.
            apply nth_error_middle. }
          apply wp_bind. eapply wp_iter; [rewrite Hh3; apply Hbase; exact Hr |].
          apply wp_bind. eapply wp_lift; [apply rmap_val_mul |].
          cbv zeta.
          apply wp_bind. eapply wp_lift; [apply logistic_ok |].
          apply wp_bind. eapply wp_lift; [reflexivity |].
          fold (dot W row).
          set (e := fsub (logistic_value (fadd (dot W row) b)) (of_Z yv)).
          apply wp_bind. eapply wp_mono.
          { apply (wp_zip_loop pre [] (trace w) nF
                     (fun a x => fadd a (fmul e x)) r row) with (T := G);
              [exact Hrow | intros T; apply Hbase; exact Hr |
              | exact HG | exact Hh3 | exact Htr3].
            - intros j t sv w4 Hj Hh4 Ht.
              apply wp_bind. eapply wp_getitem;
                [rewrite Hh4; apply nth_error_middle | exact Ht |].
              apply wp_bind. eapply wp_getitem;
                [rewrite Hh4; apply Hbase; exact Hr
                | apply nth_error_map_VFloat; lia |].
              apply wp_bind. eapply wp_lift; [reflexivity |].
              apply wp_bind. eapply wp_lift; [reflexivity |].
              eapply wp_setitem;
                [rewrite Hh4; apply nth_error_middle
                | apply nth_error_Some; congruence |].
              cbn [heap trace]. split; auto.
              rewrite Hh4. apply update_middle. }
          intros _ w4 [Hh4 Htr4]. apply wp_ret.
          cbn [fst snd].
          split; [reflexivity | split; [| split; [exact Hh4 | exact Htr4]]].
          rewrite length_map, length_combine. lia.
        - cbn [fst snd].
          split; [reflexivity | split; [| split; [exact Hh2 | exact Htr2]]].
          apply repeat_length. }
      intros grad_b w3 (Hgb & HG & Hh3 & Htr3). cbv beta.
      rewrite (spec_epoch_zip nF Xall ys W b lr0 epoch). cbv zeta.
      match type of Hgb with
      | _ = snd ?s => set (s2 := s) in *
      end.
      apply wp_bind. eapply wp_lift; [apply py_div_count; exact Hpos |].
      apply wp_bind. eapply wp_mono.
      { apply (wp_zip_loop (heap w) (junk ++ [map VFloat (fst s2)]) (trace w)
                 nF
                 (fun a g => fsub a
                               (fmul lr0 (fdiv g (of_Z (Z.of_nat (length Xall))))))
                 (length pre) (fst s2)) with (T := W);
          [exact HG | | | exact HW | | exact Htr3].
        - intros T. rewrite app_comm_cons, app_assoc.
          replace (length pre) with (length (heap w ++ map VFloat T :: junk))
            by (unfold pre; rewrite !length_app; reflexivity).
          apply nth_error_middle.
        - intros j t sv w4 Hj Hh4 Ht.
          assert (Hg : nth_error (heap w4) (length pre)
                       = Some (map VFloat (fst s2))).
          { rewrite Hh4, app_comm_cons, app_assoc.
            replace (length pre) with (length (heap w ++ t :: junk))
              by (unfold pre; rewrite !length_app; reflexivity).
            apply nth_error_middle. }
          apply wp_bind. eapply wp_getitem;
            [rewrite Hh4; apply nth_error_middle | exact Ht |].
          apply wp_bind. eapply wp_getitem;
            [exact Hg | apply nth_error_map_VFloat; lia |].
          apply wp_bind. eapply wp_lift; [reflexivity |].
          apply wp_bind. eapply wp_lift; [reflexivity |].
          apply wp_bind. eapply wp_lift; [apply py_div_count; exact Hpos |].
          eapply wp_setitem;
            [rewrite Hh4; apply nth_error_middle
            | apply nth_error_Some; congruence |].
          cbn [heap trace]. split; auto.
          rewrite Hh4. apply update_middle.
        - rewrite Hh3. unfold pre. now rewrite <- app_assoc, <- app_comm_cons. }
      intros _ w4 [Hh4 Htr4]. apply wp_ret.
      cbn [fst snd]. subst grad_b.
      split; [reflexivity | split; [| split; [| exact Htr4]]].
      + rewrite length_map, length_combine. lia.
      + eexists. exact Hh4.
    - cbn [fst snd heap trace].
      split; [reflexivity | split; [| split; [| reflexivity]]].
      + apply repeat_length.
      + exists []. now rewrite map_repeat. }
  intros [bias' lr'] w' (Hl & HW & Hjunk & Htr). apply wp_ret.
  cbv zeta. fold (spec_train nF Xall ys E LR) in *.
  injection Hl as -> ->. auto.
Qed.


(** The same with one label for each row. *)
Lemma train_refines (w : world) (Xl yl : nat) (rows : list nat)
  (X : list (list F)) (ys : list Z) (nF : nat)
  (epochs : option Z) (lr : option F) :
  matrix_at w Xl rows X ->
  X <> [] ->
  Forall (fun row => length row = nF) X ->
  ints_at w yl ys ->
  length ys = length X ->
  wp (train_logistic_regression (VRef Xl) (VRef yl) epochs lr)
    (fun model w' =>
       let s := spec_train nF X ys
                  (match epochs with Some e => e | None => 5000%Z end)
                  (match lr with Some r => r | None => flit 0.05 end) in
       (exists junk,
           heap w' = heap w ++ map VFloat (fst (fst s)) :: junk) /\
       trace w' = trace w /\
       model = {| weights := VRef (length (heap w)); bias := snd (fst s) |})
    w.
Proof.
  intros HX Hne Hlen Hy _.
  exact (train_refines_zip w Xl yl rows X ys nF epochs lr HX Hne Hlen Hy).
Qed.

End Trainer.

(** The specification of the trainer, epoch by epoch. *)
Lemma spec_train_start {F : Type} {PF : PyFloat F} (nF : nat)
  (X : list (list F)) (ys : list Z) (lr : F) :
  spec_train nF X ys 0 lr = (repeat (flit 0.0) nF, flit 0.0, lr).
Proof. reflexivity. Qed.

Lemma spec_train_next {F : Type} {PF : PyFloat F} (nF : nat)
  (X : list (list F)) (ys : list Z) (lr : F) (n : Z) :
  (0 <= n)%Z ->
  spec_train nF X ys (n + 1) lr
  = spec_epoch nF X ys (spec_train nF X ys n lr) n.
Proof.
  intros Hn. unfold spec_train, range.
  replace (Z.to_nat (n + 1)) with (S (Z.to_nat n)) by lia.
  rewrite seq_S, map_app, fold_left_app. simpl.
  now rewrite Z2Nat.id by assumption.
Qed.

Lemma spec_epoch_rate {F : Type} {PF : PyFloat F} (nF : nat)
  (X : list (list F)) (ys : list Z) (ws : list F) (b lr : F) (epoch : Z) :
  snd (spec_epoch nF X ys (ws, b, lr) epoch)
  = if ((epoch mod 1000) =? 0)%Z && (0 <? epoch)%Z
    then fmul lr (flit 0.9) else lr.
Proof. reflexivity. Qed.

Example rate_decays_at_1000 (lr : R) :
  snd (spec_epoch 1 [[1%R]] [1%Z] ([0%R], 0%R, lr) 1000) = (lr * Q2R 0.9)%R
  /\ snd (spec_epoch 1 [[1%R]] [1%Z] ([0%R], 0%R, lr) 0) = lr
  /\ snd (spec_epoch 1 [[1%R]] [1%Z] ([0%R], 0%R, lr) 999) = lr.
Proof. repeat split. Qed.

(** C1: on a heap that holds an N x F matrix (N >= 1) and N labels, the
    trainer returns normally, and the weights and bias it returns are those
    of [spec_train]: start from zero weights and zero bias; for each epoch
    from 0 to epochs-1 accumulate the full-batch gradient over all examples
    and update bias and weights by [lr * (grad / N)]; multiply the rate by
    0.9 after each epoch whose index is a nonzero multiple of 1000; run all
    the epochs (5000 by default, rate 0.05 by default). *)
Theorem train_matches_spec {F : Type} {PF : PyFloat F} {PL : PyFloatLaws F}
  (w : @world F) (Xl yl : nat) (rows : list nat) (X : list (list F))
  (ys : list Z) (nF : nat) (epochs : option Z) (lr : option F) :
  matrix_at w Xl rows X ->
  1 <= length X ->
  Forall (fun row => length row = nF) X ->
  ints_at w yl ys ->
  length ys = length X ->
  exists (W : list F) (b lr_final : F) (w' : world),
    spec_train nF X ys
      (match epochs with Some e => e | None => 5000%Z end)
      (match lr with Some r => r | None => flit 0.05 end)
    = (W, b, lr_final) /\
    train_logistic_regression (VRef Xl) (VRef yl) epochs lr w
    = (Ok {| weights := VRef (length (heap w)); bias := b |}, w') /\
    floats_at w' (length (heap w)) W.
Proof.
  intros HX HN Hlen Hy Hylen.
  assert (Hne : X <> []) by (destruct X; simpl in HN; [lia | discriminate]).
  destruct (train_refines w Xl yl rows X ys nF epochs lr HX Hne Hlen Hy Hylen)
    as (model & w' & Hrun & (junk & Hheap) & _ & Hmodel).
  cbv zeta in Hheap, Hmodel.
  destruct (spec_train nF X ys _ _) as [[W b] lrf] eqn:Hspec.
  cbn [fst snd] in Hheap, Hmodel.
  exists W, b, lrf, w'. split; [reflexivity |]. split.
  - rewrite Hrun. now subst model.
  - unfold floats_at. rewrite Hheap. apply nth_error_middle.
Qed.

Lemma train_matches_spec_witness :
  let w0 : @world R :=
    {| heap := [[VRef 1; VRef 2]; [VFloat 1%R; VFloat 0%R];
                [VFloat (-1)%R; VFloat 0%R]; [VInt 1; VInt 0]];
       trace := [] |} in
  exists (W : list R) (b lr_final : R) (w' : world),
    spec_train 2 [[1%R; 0%R]; [(-1)%R; 0%R]] [1%Z; 0%Z] 5000 (flit 0.05)
    = (W, b, lr_final) /\
    train_logistic_regression (VRef 0) (VRef 3) None None w0
    = (Ok {| weights := VRef 4; bias := b |}, w') /\
    floats_at w' 4 W.
Proof.
  intros w0.
  apply (train_matches_spec w0 0 3 [1; 2] [[1%R; 0%R]; [(-1)%R; 0%R]]
           [1%Z; 0%Z] 2 None None).
  - split; [reflexivity |]. repeat constructor.
  - simpl. lia.
  - repeat constructor.
  - reflexivity.
  - reflexivity.
Defined.

(* ================================================================= *)
(** ** The trainer writes only to the lists it creates *)

Section Frame.

Context {F : Type} {PF : PyFloat F}.

Local Abbreviation M := (@M F).
Local Abbreviation world := (@world F).
Local Abbreviation val := (@val F).

Variable w0 : world.

Lemma keeps_ret {A : Type} (I : world -> Prop) (a : A) : keeps I (ret a).
Proof. intros w Hw. exact Hw. Qed.

Lemma keeps_raise {A : Type} (I : world -> Prop) (e : exn) :
  keeps I (raise (A := A) e).
Proof. intros w Hw. exact Hw. Qed.

Lemma keeps_lift {A : Type} (I : world -> Prop) (r : result A) :
  keeps I (lift r).
Proof. intros w Hw. exact Hw. Qed.

Lemma keeps_bind {A B : Type} (I : world -> Prop) (m : M A) (k : A -> M B) :
  keeps I m -> (forall a, keeps I (k a)) -> keeps I (bind m k).
Proof.
  intros Hm Hk w Hw. unfold bind. specialize (Hm w Hw).
  destruct (m w) as [[a | e] w1]; simpl in *; auto.
  now apply Hk.
Qed.

Lemma keeps_for_fold {A L : Type} (I : world -> Prop) (xs : list A)
  (body : A -> L -> M L) (l : L) :
  (forall x l', keeps I (body x l')) -> keeps I (for_fold xs body l).
Proof.
  intros Hbody. revert l. induction xs as [| x xs IH]; intros l; simpl.
  - apply keeps_ret.
  - apply keeps_bind; auto.
Qed.

Lemma keeps_for_each {A : Type} (I : world -> Prop) (xs : list A)
  (body : A -> M unit) :
  (forall x, keeps I (body x)) -> keeps I (for_each xs body).
Proof. intros Hbody. apply keeps_for_fold. auto. Qed.

Lemma keeps_iter (I : world -> Prop) (v : val) : keeps I (iter v).
Proof.
  intros w Hw. unfold iter. destruct v; simpl; auto.
  destruct (nth_error (heap w) l); simpl; auto.
Qed.

Lemma keeps_len (I : world -> Prop) (v : val) : keeps I (len v).
Proof.
  unfold len. apply keeps_bind; [apply keeps_iter |].
  intros; apply keeps_ret.
Qed.

Lemma keeps_getitem (I : world -> Prop) (v : val) (i : nat) :
  keeps I (getitem v i).
Proof.
  unfold getitem. apply keeps_bind; [apply keeps_iter |].
  intros items. destruct (nth_error items i);
    [apply keeps_ret | apply keeps_raise].
Qed.

(** Allocation extends the heap, and the reference it returns is new. *)
Lemma keeps_alloc_bind {B : Type} (items : list val) (k : val -> M B) :
  (forall l, length (heap w0) <= l -> keeps (extends w0) (k (VRef l))) ->
  keeps (extends w0) (bind (alloc items) k).
Proof.
  intros Hk w [[fresh Hh] Htr]. unfold bind, alloc.
  apply Hk.
  - rewrite Hh, length_app. lia.
  - split; cbn [heap trace]; auto.
    exists (fresh ++ [items]). now rewrite Hh, app_assoc.
Qed.

(** Writing to an object that is not in [w0]. *)
Lemma keeps_setitem_new (l i : nat) (x : val) :
  length (heap w0) <= l ->
  keeps (extends w0) (setitem (VRef l) i x).
Proof.
  intros Hl w [[fresh Hh] Htr]. unfold setitem, bind, iter.
  destruct (nth_error (heap w) l) as [items |]; cbn [snd];
    [| split; eauto].
  destruct (Nat.ltb i (length items)); cbn [snd store raise heap trace];
    [| split; eauto].
  split; cbn [heap trace]; auto.
  rewrite Hh, update_app_r by assumption. eauto.
Qed.

Lemma train_keeps (X y : val) (epochs : option Z) (lr : option F) :
  keeps (extends w0) (train_logistic_regression X y epochs lr).
Proof.
  unfold train_logistic_regression.
  apply keeps_bind; [apply keeps_len | intros n_samples].
  apply keeps_bind; [apply keeps_getitem | intros x0].
  apply keeps_bind; [apply keeps_len | intros n_features].
  apply keeps_alloc_bind. intros wl Hwl.
  apply keeps_bind; [| intros [b l]; apply keeps_ret].
  apply keeps_for_fold. intros epoch [b l]. cbv beta iota.
  apply keeps_alloc_bind. intros gl Hgl.
  apply keeps_bind; [apply keeps_iter | intros rows].
  apply keeps_bind; [apply keeps_iter | intros labels].
  apply keeps_bind.
  - apply keeps_for_fold. intros [xi yi] grad_b. cbv beta iota zeta.
    apply keeps_bind; [apply keeps_iter | intros ws].
    apply keeps_bind; [apply keeps_iter | intros xis].
    apply keeps_bind; [apply keeps_lift | intros terms].
    apply keeps_bind; [apply keeps_lift | intros pred].
    apply keeps_bind; [apply keeps_lift | intros yv].
    apply keeps_bind; [| intros; apply keeps_ret].
    apply keeps_for_each. intros j.
    apply keeps_bind; [apply keeps_getitem | intros g].
    apply keeps_bind; [apply keeps_getitem | intros xij].
    apply keeps_bind; [apply keeps_lift | intros gv].
    apply keeps_bind; [apply keeps_lift | intros xv].
    now apply keeps_setitem_new.
  - intros grad_b.
    apply keeps_bind; [apply keeps_lift | intros db]. cbv zeta.
    apply keeps_bind; [| intros; apply keeps_ret].
    apply keeps_for_each. intros j.
    apply keeps_bind; [apply keeps_getitem | intros wv].
    apply keeps_bind; [apply keeps_getitem | intros g].
    apply keeps_bind; [apply keeps_lift | intros wf].
    apply keeps_bind; [apply keeps_lift | intros gf].
    apply keeps_bind; [apply keeps_lift | intros dw].
    now apply keeps_setitem_new.
Qed.

End Frame.

Lemma extends_refl {F : Type} (w : @world F) : extends w w.
Proof. split; auto. exists []. now rewrite app_nil_r. Qed.

Lemma extends_lookup {F : Type} (w w' : @world F) (l : nat)
  (items : list (@val F)) :
  extends w w' ->
  nth_error (heap w) l = Some items -> nth_error (heap w') l = Some items.
Proof.
  intros [[fresh Hh] _] Hl. rewrite Hh. now apply nth_error_app_Some.
Qed.

(** C10: for every heap, every arguments [X] and [y] and every
    configuration, whether the trainer returns or raises, each list object
    that existed before the call holds the same items after it and nothing
    is output; so a matrix and a label vector observed after training are
    the ones passed in. *)
Theorem train_leaves_inputs_unchanged {F : Type} {PF : PyFloat F}
  (w : @world F) (X y : @val F) (epochs : option Z) (lr : option F) :
  let w' := snd (train_logistic_regression X y epochs lr w) in
  extends w w' /\
  (forall l items,
      nth_error (heap w) l = Some items ->
      nth_error (heap w') l = Some items) /\
  (forall Xl rows M, matrix_at w Xl rows M -> matrix_at w' Xl rows M) /\
  (forall yl ys, ints_at w yl ys -> ints_at w' yl ys).
Proof.
  intros w'.
  assert (Hext : extends w w').
  { apply (train_keeps w X y epochs lr w). apply extends_refl. }
  split; [exact Hext |]. split; [| split].
  - intros l items. now apply extends_lookup.
  - intros Xl rows M [HX Hrows]. split.
    + now apply (extends_lookup w w').
    + eapply Forall2_impl; [| exact Hrows].
      intros r row Hr. now apply (extends_lookup w w').
  - intros yl ys Hy. now apply (extends_lookup w w').
Qed.

(* ================================================================= *)
(** ** The standardization block refines its specification *)

Section ColumnPasses.

Context {F : Type} {PF : PyFloat F}.

Lemma nth_map_seq {A : Type} (f : nat -> A) (n k : nat) (d : A) :
  k < n -> nth k (map f (seq 0 n)) d = f k.
Proof.
  intros Hk. rewrite (nth_indep _ d (f 0)) by (rewrite length_map, length_seq; lia).
  rewrite map_nth. now rewrite seq_nth.
Qed.

Lemma standardized_row_length (X : list (list F)) (row : list F) :
  length (standardized_row X row) = length row.
Proof. unfold standardized_row. now rewrite length_map, length_seq. Qed.

Lemma skipn_nth_cons {A : Type} (k : nat) (xs : list A) (d : A) :
  k < length xs -> skipn k xs = nth k xs d :: skipn (S k) xs.
Proof.
  revert k; induction xs as [| x xs IH]; intros [| k] Hk; simpl in *;
    try lia; auto.
  apply IH. lia.
Qed.

Lemma firstn_S_nth {A : Type} (k : nat) (xs : list A) (d : A) :
  k < length xs -> firstn (S k) xs = firstn k xs ++ [nth k xs d].
Proof.
  revert k; induction xs as [| x xs IH]; intros [| k] Hk; simpl in *;
    try lia; auto.
  f_equal. apply IH. lia.
Qed.

Lemma upto_entry (k : nat) (X : list (list F)) (row : list F) :
  k < length row ->
  nth k (firstn k (standardized_row X row) ++ skipn k row) (flit 0.0)
  = nth k row (flit 0.0).
Proof.
  intros Hk.
  assert (Hlen : length (firstn k (standardized_row X row)) = k).
  { rewrite length_firstn, standardized_row_length. lia. }
  rewrite app_nth2 by lia. rewrite Hlen, Nat.sub_diag.
  now rewrite (skipn_nth_cons k row (flit 0.0)) by assumption.
Qed.

Lemma upto_column (nF k : nat) (X : list (list F)) :
  Forall (fun row => length row = nF) X -> k < nF ->
  column k (standardized_upto k X) = column k X.
Proof.
  intros HX Hk. unfold column, standardized_upto. rewrite map_map.
  apply map_ext_in. intros row Hrow.
  rewrite Forall_forall in HX. apply upto_entry. rewrite (HX row Hrow). lia.
Qed.

Lemma upto_step (nF k : nat) (X : list (list F)) :
  Forall (fun row => length row = nF) X -> k < nF ->
  standardize_column (standardized_upto k X) k = standardized_upto (S k) X.
Proof.
  intros HX Hk. unfold standardize_column.
  rewrite (upto_column nF k X HX Hk).
  unfold standardized_upto at 1. rewrite map_map.
  apply map_ext_in. intros row Hrow.
  rewrite Forall_forall in HX. pose proof (HX row Hrow) as Hlen.
  rewrite upto_entry by lia.
  assert (Hfst : length (firstn k (standardized_row X row)) = k).
  { rewrite length_firstn, standardized_row_length. lia. }
  rewrite (skipn_nth_cons k row (flit 0.0)) by lia.
  rewrite <- Hfst at 1. rewrite update_middle.
  rewrite (firstn_S_nth k (standardized_row X row) (flit 0.0))
    by (rewrite standardized_row_length; lia).
  rewrite <- app_assoc. simpl. do 2 f_equal.
  unfold standardized_row. rewrite nth_map_seq by lia. reflexivity.
Qed.

Lemma upto_zero (X : list (list F)) : standardized_upto 0 X = X.
Proof. unfold standardized_upto. simpl. apply map_id. Qed.

Lemma upto_all (nF : nat) (X : list (list F)) :
  Forall (fun row => length row = nF) X ->
  standardized_upto nF X = standardized X.
Proof.
  intros HX. unfold standardized_upto, standardized.
  apply map_ext_in. intros row Hrow.
  rewrite Forall_forall in HX. pose proof (HX row Hrow) as Hlen.
  rewrite firstn_all2 by (rewrite standardized_row_length; lia).
  rewrite skipn_all2 by lia. apply app_nil_r.
Qed.

Lemma fold_update_fill {A : Type} (f : nat -> A) (xs : list A) :
  fold_left (fun acc j => update j (f j) acc) (seq 0 (length xs)) xs
  = map f (seq 0 (length xs)).
Proof.
  assert (H := fold_update_all (f 0) (fun j _ => f j) xs).
  cbv beta in H. rewrite H. clear H.
  generalize 0 as a. induction xs as [| x xs IH]; intros a; simpl; auto.
  now rewrite IH.
Qed.

(** All the column passes, one after the other. *)
Lemma column_passes (nF : nat) (X : list (list F)) (Ms Ss : list F) :
  Forall (fun row => length row = nF) X ->
  length Ms = nF -> length Ss = nF ->
  fold_left
    (fun (s : list (list F) * list F * list F) (j : nat) =>
       (standardize_column (fst (fst s)) j,
        update j (mean_of (column j (fst (fst s)))) (snd (fst s)),
        update j (std_of (column j (fst (fst s)))) (snd s)))
    (seq 0 nF) (X, Ms, Ss)
  = (standardized X,
     map (fun j => mean_of (column j X)) (seq 0 nF),
     map (fun j => std_of (column j X)) (seq 0 nF)).
Proof.
  intros HX HMs HSs.
  assert (Hk : forall k, k <= nF ->
            fold_left
              (fun (s : list (list F) * list F * list F) (j : nat) =>
                 (standardize_column (fst (fst s)) j,
                  update j (mean_of (column j (fst (fst s)))) (snd (fst s)),
                  update j (std_of (column j (fst (fst s)))) (snd s)))
              (seq 0 k) (X, Ms, Ss)
            = (standardized_upto k X,
               fold_left (fun acc j => update j (mean_of (column j X)) acc)
                 (seq 0 k) Ms,
               fold_left (fun acc j => update j (std_of (column j X)) acc)
                 (seq 0 k) Ss)).
  { induction k as [| k IH]; intros Hle.
    - simpl. now rewrite upto_zero.
    - rewrite seq_S, !fold_left_app, IH by lia. cbn [fold_left fst snd plus].
      rewrite (upto_step nF k X HX) by lia.
      rewrite (upto_column nF k X HX) by lia. reflexivity. }
  rewrite (Hk nF) by lia. rewrite (upto_all nF X HX).
  rewrite <- HMs at 1 2. rewrite fold_update_fill, HMs.
  rewrite <- HSs at 1 2. rewrite fold_update_fill, HSs.
  reflexivity.
Qed.

End ColumnPasses.

Section StandardizeRefines.

Context {F : Type} {PF : PyFloat F} {PL : PyFloatLaws F}.

Local Abbreviation M := (@M F).
Local Abbreviation world := (@world F).
Local Abbreviation val := (@val F).

Lemma rmap_to_float (xs : list F) :
  rmap to_float (map (@VFloat F) xs) = Ok xs.
Proof.
  induction xs as [| x xs IH]; simpl; auto. now rewrite IH.
Qed.

Lemma fold_snoc_map {A B : Type} (f : A -> B) (l : list A) (acc : list B) :
  fold_left (fun acc x => acc ++ [f x]) l acc = acc ++ map f l.
Proof.
  revert acc; induction l as [| x l IH]; intros acc; simpl.
  - now rewrite app_nil_r.
  - rewrite IH. now rewrite <- app_assoc.
Qed.

Lemma std_of_nonzero (col : list F) : feqb (std_of col) (flit 0) = false.
Proof.
  unfold std_of. destruct (fltb (of_Z 0) (variance_of col)) eqn:E.
  - now apply sqrt_of_positive.
  - apply one_nonzero.
Qed.

Lemma std_run (col : list F) :
  (if fltb (of_Z 0) (variance_of col) then math_sqrt (variance_of col)
   else Ok (flit 1.0))
  = Ok (std_of col).
Proof.
  unfold std_of, math_sqrt.
  destruct (fltb (of_Z 0) (variance_of col)) eqn:E; auto.
  destruct (sqrt_of_positive _ E) as [H1 _]. now rewrite H1.
Qed.

Lemma Forall2_nth_error {A B : Type} (P : A -> B -> Prop) (xs : list A)
  (ys : list B) (i : nat) (x : A) :
  Forall2 P xs ys -> nth_error xs i = Some x ->
  exists y, nth_error ys i = Some y /\ P x y.
Proof.
  intros HP. revert i. induction HP as [| a b xs ys Hab _ IH]; intros [| i] Hi;
    simpl in *; try discriminate.
  - injection Hi as <-. eauto.
  - eauto.
Qed.

Lemma floats_at_other (w1 w2 : world) (l : nat) (v : list val)
  (rows : list nat) (Xc : list (list F)) :
  heap w2 = update l v (heap w1) -> ~ In l rows ->
  Forall2 (floats_at w1) rows Xc -> Forall2 (floats_at w2) rows Xc.
Proof.
  intros Hh Hl HF. induction HF as [| r row rows Xc Hr _ IH]; constructor.
  - unfold floats_at in *. rewrite Hh, nth_error_update_neq; auto.
    intros ->. apply Hl. now left.
  - apply IH. intros Hin. apply Hl. now right.
Qed.

Lemma floats_at_row (w1 w2 : world) (r i : nat) (row' : list F)
  (rows : list nat) (Xc : list (list F)) :
  heap w2 = update r (map VFloat row') (heap w1) ->
  NoDup rows -> nth_error rows i = Some r ->
  Forall2 (floats_at w1) rows Xc ->
  Forall2 (floats_at w2) rows (update i row' Xc).
Proof.
  intros Hh Hnd Hi HF. revert i Hi.
  induction HF as [| r0 row0 rows Xc Hr0 HF IH]; intros [| i] Hi;
    simpl in *; try discriminate; inversion Hnd as [| ? ? Hnot Hnd']; subst.
  - injection Hi as ->. constructor.
    + unfold floats_at in *. rewrite Hh. apply nth_error_update_eq.
      apply nth_error_Some. congruence.
    + now apply (floats_at_other w1 w2 r (map VFloat row')).
  - constructor.
    + unfold floats_at in *. rewrite Hh, nth_error_update_neq; auto.
      intros ->. apply Hnot. eapply nth_error_In; eauto.
    + apply IH; auto.
Qed.

Section Invariant.

Variables (w0 : world) (Xl : nat) (rows : list nat).
Hypothesis rows_old : forall r, In r rows -> r < length (heap w0).
Hypothesis X_old : Xl < length (heap w0).
Hypothesis X_not_row : ~ In Xl rows.
Hypothesis rows_distinct : NoDup rows.

Lemma std_inv_set_means (Xc : list (list F)) (Ms Ms' Ss : list F)
  (w1 w2 : world) :
  std_inv w0 Xl rows Xc Ms Ss w1 ->
  heap w2 = update (length (heap w0)) (map VFloat Ms') (heap w1) ->
  trace w2 = trace w1 ->
  std_inv w0 Xl rows Xc Ms' Ss w2.
Proof.
  intros (Hlen & HX & Hrows & HM & HS & Hfr & Htr) Hh Htr2.
  split; [rewrite Hh, update_length; exact Hlen |].
  split; [unfold refs_at in *; rewrite Hh, nth_error_update_neq; auto; lia |].
  split.
  { apply (floats_at_other w1 w2 _ _ rows Xc Hh); auto.
    intros Hin. apply rows_old in Hin. lia. }
  split; [unfold floats_at; rewrite Hh; apply nth_error_update_eq; lia |].
  split; [unfold floats_at in *; rewrite Hh, nth_error_update_neq; auto |].
  split; [| congruence].
  intros l Hl Hnot. rewrite Hh, nth_error_update_neq by lia. auto.
Qed.

Lemma std_inv_set_stds (Xc : list (list F)) (Ms Ss Ss' : list F)
  (w1 w2 : world) :
  std_inv w0 Xl rows Xc Ms Ss w1 ->
  heap w2 = update (S (length (heap w0))) (map VFloat Ss') (heap w1) ->
  trace w2 = trace w1 ->
  std_inv w0 Xl rows Xc Ms Ss' w2.
Proof.
  intros (Hlen & HX & Hrows & HM & HS & Hfr & Htr) Hh Htr2.
  split; [rewrite Hh, update_length; exact Hlen |].
  split; [unfold refs_at in *; rewrite Hh, nth_error_update_neq; auto; lia |].
  split.
  { apply (floats_at_other w1 w2 _ _ rows Xc Hh); auto.
    intros Hin. apply rows_old in Hin. lia. }
  split; [unfold floats_at in *; rewrite Hh, nth_error_update_neq; auto |].
  split; [unfold floats_at; rewrite Hh; apply nth_error_update_eq; lia |].
  split; [| congruence].
  intros l Hl Hnot. rewrite Hh, nth_error_update_neq by lia. auto.
Qed.

Lemma std_inv_set_row (Xc : list (list F)) (Ms Ss row' : list F)
  (i r : nat) (w1 w2 : world) :
  std_inv w0 Xl rows Xc Ms Ss w1 ->
  nth_error rows i = Some r ->
  heap w2 = update r (map VFloat row') (heap w1) ->
  trace w2 = trace w1 ->
  std_inv w0 Xl rows (update i row' Xc) Ms Ss w2.
Proof.
  intros (Hlen & HX & Hrows & HM & HS & Hfr & Htr) Hi Hh Htr2.
  assert (Hin : In r rows) by (eapply nth_error_In; eauto).
  pose proof (rows_old r Hin) as Hr.
  split; [rewrite Hh, update_length; exact Hlen |].
  split.
  { unfold refs_at in *. rewrite Hh, nth_error_update_neq; auto.
    intros ->. contradiction. }
  split; [now apply (floats_at_row w1 w2 r i row' rows Xc Hh) |].
  split; [unfold floats_at in *; rewrite Hh, nth_error_update_neq; auto; lia |].
  split; [unfold floats_at in *; rewrite Hh, nth_error_update_neq; auto; lia |].
  split; [| congruence].
  intros l Hl Hnot. rewrite Hh, nth_error_update_neq; auto.
  intros ->. contradiction.
Qed.

End Invariant.

Lemma Forall_update {A : Type} (P : A -> Prop) (i : nat) (v : A)
  (xs : list A) :
  Forall P xs -> P v -> Forall P (update i v xs).
Proof.
  intros HP Hv. revert i. induction HP as [| x xs Hx HP IH]; intros [| i];
    simpl; auto.
Qed.

Ltac name_world w :=
  match goal with
  | |- wp _ _ ?ww => set (w := ww)
  end.

(** The list comprehension [[row[j] for row in X]] reads column [j]. *)
Lemma column_values (w1 : world) (rows : list nat) (Xc : list (list F))
  (nF j : nat) :
  Forall2 (floats_at w1) rows Xc ->
  Forall (fun row => length row = nF) Xc -> j < nF ->
  wp (for_fold (map VRef rows)
        (fun (row : val) (acc : list val) =>
           v <- getitem row j ;; ret (acc ++ [v])) [])
    (fun values w' => w' = w1 /\ values = map VFloat (column j Xc)) w1.
Proof.
  intros Hrows Hlen Hj.
  eapply wp_mono.
  - eapply (wp_for_fold
              (fun (x : val) (row : list F) =>
                 exists r, x = VRef r /\ floats_at w1 r row /\ j < length row)
              (fun (acc : list F) (row : list F) =>
                 acc ++ [nth j row (flit 0.0)])
              (fun (acc : list F) (vals : list val) (w' : world) =>
                 w' = w1 /\ vals = map VFloat acc))
      with (bs := Xc) (s := []).
    + induction Hrows as [| r row rows Xc Hr _ IH]; simpl; constructor.
      * inversion Hlen; subst. exists r. repeat split; auto.
      * apply IH. now inversion Hlen.
    + intros x row acc vals w' (r & -> & Hr & Hjr) [-> ->].
      apply wp_bind. eapply wp_getitem;
        [exact Hr | apply nth_error_map_VFloat; exact Hjr |].
      apply wp_ret. split; auto. now rewrite map_app.
    + split; reflexivity.
  - intros values w' [-> ->]. split; auto.
    rewrite fold_snoc_map. reflexivity.
Qed.

Lemma rmap_py_pow_ok (f : F -> F) (vs : list F) :
  forallb (fun v => fpow_in_range (f v) 2) vs = true ->
  rmap (fun v => py_pow (f v) 2) vs = Ok (map (fun v => fpow (f v) 2) vs).
Proof.
  induction vs as [| v vs IH]; simpl; auto.
  intros Hok. apply andb_prop in Hok. destruct Hok as [Hv Hvs].
  unfold py_pow at 1. rewrite Hv. simpl. now rewrite IH.
Qed.

Lemma rmap_py_pow_overflow (f : F -> F) (vs : list F) :
  forallb (fun v => fpow_in_range (f v) 2) vs = false ->
  rmap (fun v => py_pow (f v) 2) vs = Raise OverflowError.
Proof.
  induction vs as [| v vs IH]; simpl; [discriminate |].
  intros Hbad. unfold py_pow at 1.
  destruct (fpow_in_range (f v) 2); simpl in *; [| reflexivity].
  now rewrite IH.
Qed.

Lemma find_seq_first (p : nat -> bool) (a n k : nat) :
  find p (seq a n) = Some k ->
  a <= k < a + n /\ p k = true /\ forall j, a <= j < k -> p j = false.
Proof.
  revert a. induction n as [| n IH]; intros a; simpl; [discriminate |].
  destruct (p a) eqn:E.
  - intros [= <-]. repeat split; auto; lia.
  - intros Hf. destruct (IH _ Hf) as (Hk & Hp & Hlow).
    repeat split; auto; try lia.
    intros j Hj. destruct (Nat.eq_dec j a) as [-> | Hja]; auto.
    apply Hlow. lia.
Qed.

Lemma find_seq_none (p : nat -> bool) (a n : nat) :
  find p (seq a n) = None -> forall j, a <= j < a + n -> p j = false.
Proof.
  intros Hf j Hj. apply (find_none _ _ Hf). apply in_seq. lia.
Qed.

Lemma fold_update_length {A : Type} (f : nat -> A) (js : list nat)
  (xs : list A) :
  length (fold_left (fun acc j => update j (f j) acc) js xs) = length xs.
Proof.
  revert xs. induction js as [| j js IH]; intros xs; simpl; auto.
  now rewrite IH, update_length.
Qed.

Lemma fold_update_fill_repeat {A : Type} (f : nat -> A) (a : A) (n : nat) :
  fold_left (fun acc j => update j (f j) acc) (seq 0 n) (repeat a n)
  = map f (seq 0 n).
Proof.
  pose proof (fold_update_fill f (repeat a n)) as H.
  now rewrite repeat_length in H.
Qed.

(** A run that is known step by step. *)
Lemma run_bind {A B : Type} (m : M A) (k : A -> M B)
  (r : result B * world) (w : world) :
  wp m (fun a w1 => k a w1 = r) w -> bind m k w = r.
Proof. intros (a & w1 & Hm & Hk). unfold bind. now rewrite Hm. Qed.

Lemma run_of_wp {A : Type} (m : M A) (a : A) (w w1 : world) :
  wp m (fun a' w' => a' = a /\ w' = w1) w -> m w = (Ok a, w1).
Proof. intros (a' & w' & Hm & -> & ->). exact Hm. Qed.

(** A loop stops at the first item on which the body raises. *)
Lemma for_each_raise {A : Type} (xs ys : list A) (y : A)
  (body : A -> M unit) (e : exn) (Q : world -> Prop) (w : world) :
  wp (for_each xs body) (fun _ w1 => body y w1 = (Raise e, w1) /\ Q w1) w ->
  exists w1, for_each (xs ++ y :: ys) body w = (Raise e, w1) /\ Q w1.
Proof.
  unfold for_each. revert w. induction xs as [| x xs IH]; intros w.
  - intros (u & w1 & Hrun & Hy & HQ). injection Hrun as _ <-.
    exists w. split; [| exact HQ]. cbn [app for_fold]. unfold bind.
    now rewrite Hy.
  - intros (u & w1 & Hrun & Hy & HQ). cbn [app for_fold] in *.
    unfold bind in Hrun |- *.
    destruct (body x w) as [[[] | e'] w0]; [| discriminate].
    apply IH. exists u, w1. auto.
Qed.

Section Passes.

Variables (w : world) (Xl : nat) (rows : list nat) (X : list (list F))
  (nF : nat).
Hypothesis X_at : matrix_at w Xl rows X.
Hypothesis rows_distinct : NoDup rows.
Hypothesis X_nonempty : X <> [].
Hypothesis X_width : Forall (fun row => length row = nF) X.

Lemma rows_count : length rows = length X.
Proof. destruct X_at as [_ Hrows]. eapply Forall2_length; eauto. Qed.

Lemma rows_old (r : nat) : In r rows -> r < length (heap w).
Proof.
  destruct X_at as [_ Hrows].
  intros Hin. apply In_nth_error in Hin. destruct Hin as [i Hi].
  destruct (Forall2_nth_error _ _ _ _ _ Hrows Hi) as (row & _ & Hr).
  apply nth_error_Some. unfold floats_at in Hr. congruence.
Qed.

Lemma X_old : Xl < length (heap w).
Proof.
  destruct X_at as [HX _]. apply nth_error_Some. unfold refs_at in HX.
  congruence.
Qed.

Lemma X_not_row : ~ In Xl rows.
Proof.
  destruct X_at as [HX Hrows].
  intros Hin. apply In_nth_error in Hin. destruct Hin as [i Hi].
  destruct (Forall2_nth_error _ _ _ _ _ Hrows Hi) as (row & _ & Hr).
  unfold floats_at, refs_at in *. rewrite HX in Hr.
  destruct rows; [destruct i; discriminate |].
  destruct row; discriminate.
Qed.

Lemma upto_lengths (k : nat) :
  Forall (fun row => length row = nF) (standardized_upto k X) /\
  length (standardized_upto k X) = length X.
Proof.
  unfold standardized_upto. split; [| apply length_map].
  apply Forall_forall. intros row Hrow.
  apply in_map_iff in Hrow. destruct Hrow as (r & <- & Hr).
  rewrite Forall_forall in X_width. specialize (X_width r Hr).
  rewrite length_app, length_firstn, length_skipn, standardized_row_length.
  lia.
Qed.

(** The heap after the first [k] column passes. *)
Local Abbreviation pass_inv k :=
  (std_inv w Xl rows (standardized_upto k X) (means_upto k nF X)
     (stds_upto k nF X)).

Local Abbreviation pass :=
  (standardize_pass (VRef Xl) (VRef (length (heap w)))
     (VRef (S (length (heap w)))) (length X)).

(** The statistics of column [k], read from the heap after [k] passes. *)
Lemma pass_mean (k : nat) (w1 : world) :
  k < nF -> pass_inv k w1 ->
  forall (B : Type) (rest : list F -> F -> M B),
    (rows <- iter (VRef Xl) ;;
     values <- for_fold rows (fun row acc =>
                 v <- getitem row k ;; ret (acc ++ [v])%list) [] ;;
     vs <- lift (rmap to_float values) ;;
     mean <- lift (py_div (py_sum vs) (of_Z (Z.of_nat (length X)))) ;;
     rest vs mean) w1
    = rest (column k X) (mean_of (column k X)) w1.
Proof.
  intros Hk Hinv B rest.
  destruct Hinv as (_ & HX1 & Hrows1 & _).
  destruct (upto_lengths k) as [HXc _].
  apply run_bind. eapply wp_iter; [exact HX1 |].
  apply run_bind. eapply wp_mono;
    [apply (column_values w1 rows _ nF k Hrows1 HXc Hk) |].
  intros values w1' [-> ->].
  rewrite (upto_column nF k X X_width Hk).
  rewrite (bind_lift_ok _ _ _ _ (rmap_to_float _)).
  assert (Hmean : py_div (py_sum (column k X)) (of_Z (Z.of_nat (length X)))
                  = Ok (mean_of (column k X))).
  { unfold mean_of, column. rewrite length_map. apply py_div_count.
    destruct X; simpl; [congruence | lia]. }
  now rewrite (bind_lift_ok _ _ _ _ Hmean).
Qed.

(** A column pass whose squares overflow raises before it writes. *)
Lemma pass_overflow (k : nat) (w1 : world) :
  k < nF -> squares_ok (column k X) = false -> pass_inv k w1 ->
  pass k w1 = (Raise OverflowError, w1).
Proof.
  intros Hk Hbad Hinv. unfold standardize_pass.
  rewrite (pass_mean k w1 Hk Hinv).
  rewrite (rmap_py_pow_overflow
             (fun v => fsub v (mean_of (column k X))) _ Hbad).
  reflexivity.
Qed.

(** A column pass whose squares can be taken. *)
Lemma pass_ok (k : nat) (w1 : world) :
  k < nF -> squares_ok (column k X) = true -> pass_inv k w1 ->
  wp (pass k) (fun _ w' => pass_inv (S k) w') w1.
Proof.
  intros Hk Hsafe Hinv.
  pose proof rows_count as Hnrows.
  pose proof rows_old as Hold. pose proof X_old as HXold.
  pose proof X_not_row as HXnot.
  assert (Hpos : 0 < length X) by (destruct X; simpl; [congruence | lia]).
  destruct (upto_lengths k) as [HXc HXcl].
  set (Xc := standardized_upto k X) in *.
  set (Ms := means_upto k nF X) in *.
  set (Ss := stds_upto k nF X) in *.
  assert (HMs : length Ms = nF).
  { unfold Ms, means_upto. rewrite fold_update_length. apply repeat_length. }
  assert (HSs : length Ss = nF).
  { unfold Ss, stds_upto. rewrite fold_update_length. apply repeat_length. }
  set (col := column k X) in *.
  assert (Hcol : length col = length X)
    by (unfold col, column; now rewrite length_map).
  assert (Hcx : column k Xc = col) by (apply (upto_column nF k X X_width Hk)).
  unfold wp, standardize_pass. rewrite (pass_mean k w1 Hk Hinv). fold col.
  change (wp (squares <- lift (rmap (fun v => py_pow (fsub v (mean_of col)) 2)
                                 col) ;;
              variance <- lift (py_div (py_sum squares)
                                  (of_Z (Z.max 1 (Z.of_nat (length X) - 1)))) ;;
              std <- lift (if fltb (of_Z 0) variance then math_sqrt variance
                           else Ok (flit 1.0)) ;;
              setitem (VRef (length (heap w))) k (VFloat (mean_of col)) ;;
              setitem (VRef (S (length (heap w)))) k (VFloat std) ;;
              for_each (seq 0 (length X)) (fun i =>
                row <- getitem (VRef Xl) i ;;
                v <- getitem row k ;;
                x <- lift (to_float v) ;;
                q <- lift (py_div (fsub x (mean_of col)) std) ;;
                target <- getitem (VRef Xl) i ;;
                setitem target k (VFloat q)))
            (fun _ w' => pass_inv (S k) w') w1).
  pose proof Hinv as (Hl1 & HX1 & Hrows1 & HM1 & HS1 & Hfr1 & Htr1).
  apply wp_bind. eapply wp_lift;
    [apply (rmap_py_pow_ok (fun v => fsub v (mean_of col)) col Hsafe) |].
  apply wp_bind. eapply wp_lift with (a := variance_of col).
  { unfold variance_of, py_div. rewrite Hcol.
    rewrite of_Z_nonzero by lia. reflexivity. }
  apply wp_bind. eapply wp_lift; [apply std_run |].
  apply wp_bind. eapply wp_setitem;
    [exact HM1 | rewrite length_map; lia |].
  rewrite update_map. name_world w3.
  assert (Hinv3 : std_inv w Xl rows Xc (update k (mean_of col) Ms) Ss w3).
  { apply (std_inv_set_means w Xl rows Hold HXold Xc Ms _ Ss w1 w3 Hinv);
      reflexivity. }
  clearbody w3.
  apply wp_bind. eapply wp_setitem;
    [apply Hinv3 | rewrite length_map; lia |].
  rewrite update_map. name_world w4.
  assert (Hinv4 : std_inv w Xl rows Xc (update k (mean_of col) Ms)
                    (update k (std_of col) Ss) w4).
  { apply (std_inv_set_stds w Xl rows Hold HXold Xc _ Ss _ w3 w4 Hinv3);
      reflexivity. }
  clearbody w4.
  eapply wp_mono.
  { eapply (wp_for_each (fun i i' => i = i' /\ i < 0 + length X)
              (fun (Xc' : list (list F)) (i : nat) =>
                 update i
                   (update k
                      (fdiv (fsub (nth k (nth i Xc' []) (flit 0.0))
                               (mean_of col)) (std_of col))
                      (nth i Xc' []))
                   Xc')
              (fun (Xc' : list (list F)) (w5 : world) =>
                 std_inv w Xl rows Xc' (update k (mean_of col) Ms)
                   (update k (std_of col) Ss) w5 /\
                 Forall (fun row => length row = nF) Xc' /\
                 length Xc' = length X))
      with (bs := seq 0 (length X)) (s := Xc).
    - apply Forall2_seq_lt.
    - intros i ? Xc' w5 [<- Hi] (Hinv5 & HXc' & HXcl'). simpl in Hi.
      pose proof Hinv5 as (_ & HX5 & Hrows5 & _).
      destruct (nth_error rows i) as [r |] eqn:Hri;
        [| apply nth_error_None in Hri; lia].
      destruct (Forall2_nth_error _ _ _ _ _ Hrows5 Hri)
        as (row & Hrow & Hr).
      assert (Hrowlen : length row = nF).
      { rewrite Forall_forall in HXc'. apply HXc'.
        eapply nth_error_In; eauto. }
      assert (Hnth : nth i Xc' [] = row) by (now apply nth_error_nth).
      apply wp_bind. eapply wp_getitem;
        [exact HX5 | rewrite nth_error_map, Hri; reflexivity |].
      apply wp_bind. eapply wp_getitem;
        [exact Hr | apply nth_error_map_VFloat; lia |].
      apply wp_bind. eapply wp_lift; [reflexivity |].
      apply wp_bind. eapply wp_lift.
      { unfold py_div. rewrite std_of_nonzero. reflexivity. }
      apply wp_bind. eapply wp_getitem;
        [exact HX5 | rewrite nth_error_map, Hri; reflexivity |].
      eapply wp_setitem; [exact Hr | rewrite length_map; lia |].
      rewrite update_map, Hnth.
      split; [| split].
      + eapply (std_inv_set_row w Xl rows Hold HXold HXnot rows_distinct
                  Xc' _ _ _ i r w5 _ Hinv5 Hri); reflexivity.
      + apply Forall_update; auto. now rewrite update_length.
      + now rewrite update_length.
    - auto. }
  intros _ w5 (Hinv5 & _ & _).
  assert (Hfold :
            fold_left
              (fun (Xc' : list (list F)) (i : nat) =>
                 update i
                   (update k
                      (fdiv (fsub (nth k (nth i Xc' []) (flit 0.0))
                               (mean_of col)) (std_of col))
                      (nth i Xc' []))
                   Xc')
              (seq 0 (length X)) Xc
            = standardized_upto (S k) X).
  { rewrite <- (upto_step nF k X X_width Hk). fold Xc.
    unfold standardize_column. rewrite Hcx.
    rewrite <- HXcl.
    rewrite (fold_update_all []
               (fun (_ : nat) (row : list F) =>
                  update k
                    (fdiv (fsub (nth k row (flit 0.0)) (mean_of col))
                       (std_of col)) row) Xc).
    apply (map_combine_seq_snd
             (fun row : list F =>
                update k
                  (fdiv (fsub (nth k row (flit 0.0)) (mean_of col))
                     (std_of col)) row) Xc 0). }
  rewrite Hfold in Hinv5.
  unfold means_upto, stds_upto. rewrite seq_S, !fold_left_app.
  exact Hinv5.
Qed.

(** The passes over the columns [a .. a + n - 1], none of which
    overflows. *)
Lemma passes_ok (n a : nat) (w1 : world) :
  a + n <= nF ->
  (forall j, a <= j < a + n -> squares_ok (column j X) = true) ->
  pass_inv a w1 ->
  wp (for_each (seq a n) pass) (fun _ w' => pass_inv (a + n) w') w1.
Proof.
  unfold for_each. revert a w1.
  induction n as [| n IH]; intros a w1 Hle Hsafe Hinv.
  - rewrite Nat.add_0_r. now apply wp_ret.
  - cbn [seq for_fold]. apply wp_bind. eapply wp_mono.
    + apply (pass_ok a w1); [lia | apply Hsafe; lia | exact Hinv].
    + intros [] w2 Hinv2. replace (a + S n) with (S a + n) by lia.
      apply IH; [lia | | exact Hinv2].
      intros j Hj. apply Hsafe. lia.
Qed.

(** The block up to its loop. *)
Lemma standardize_start :
  exists w2 : world,
    pass_inv 0 w2 /\
    standardize (VRef Xl) w
    = (for_each (seq 0 nF) pass ;;
       ret (VRef (length (heap w)), VRef (S (length (heap w))))) w2.
Proof.
  pose proof rows_count as Hnrows.
  destruct X_at as [HX Hrows].
  assert (H0 : exists r0 row0,
             nth_error rows 0 = Some r0 /\ floats_at w r0 row0 /\
             length row0 = nF).
  { destruct Hrows as [| r0 row0 rows' X' Hr0 _]; [congruence |].
    exists r0, row0. inversion X_width; subst. auto. }
  destruct H0 as (r0 & row0 & Hr0n & Hr0 & Hrow0).
  set (zeros := repeat (@VFloat F (flit 0.0)) nF).
  set (w2 := {| heap := (heap w ++ [zeros]) ++ [zeros]; trace := trace w |}).
  exists w2. split.
  - unfold w2, zeros, std_inv, refs_at, floats_at, means_upto, stds_upto.
    cbn [heap trace seq fold_left]. rewrite <- map_repeat.
    split; [rewrite !length_app; simpl; lia |].
    split; [now do 2 apply nth_error_app_Some |].
    split.
    { rewrite upto_zero. eapply Forall2_impl; [| exact Hrows].
      intros r row Hr. now do 2 apply nth_error_app_Some. }
    split; [apply nth_error_app_Some; apply nth_error_middle |].
    split.
    { replace (S (length (heap w)))
        with (length (heap w ++ [map VFloat (repeat (flit 0.0) nF)]))
        by (rewrite length_app; simpl; lia).
      apply nth_error_middle. }
    split; [| reflexivity].
    intros l Hl _. rewrite !nth_error_app1; auto.
    rewrite length_app. lia.
  - unfold standardize.
    apply run_bind. eapply wp_getitem;
      [exact HX | rewrite nth_error_map, Hr0n; reflexivity |].
    apply run_bind. eapply wp_len; [exact Hr0 |]. rewrite length_map, Hrow0.
    apply run_bind. apply wp_alloc. apply run_bind. apply wp_alloc.
    cbn [heap trace]. rewrite length_app. cbn [length].
    replace (length (heap w) + 1) with (S (length (heap w))) by lia.
    fold zeros. fold w2.
    apply run_bind. eapply wp_len.
    { unfold w2. cbn [heap]. do 2 apply nth_error_app_Some. exact HX. }
    rewrite length_map, Hnrows. reflexivity.
Qed.

(** The standardization block on a heap that holds the matrix [X] in
    distinct row objects. When no square overflows it returns two new
    lists with the column means and deviations, the rows hold
    [standardized X], and every other object is as it was. Otherwise it
    raises [OverflowError] at the first column [k] with a square that
    overflows: the columns before [k] are standardized, the others are
    not. *)
Lemma standardize_outcome :
  match first_overflow nF X with
  | None =>
      wp (standardize (VRef Xl))
        (fun out w' =>
           out = (VRef (length (heap w)), VRef (S (length (heap w)))) /\
           std_inv w Xl rows (standardized X)
             (map (fun j => mean_of (column j X)) (seq 0 nF))
             (map (fun j => std_of (column j X)) (seq 0 nF)) w')
        w
  | Some k =>
      k < nF /\
      exists w' : world,
        standardize (VRef Xl) w = (Raise OverflowError, w') /\
        std_inv w Xl rows (standardized_upto k X) (means_upto k nF X)
          (stds_upto k nF X) w'
  end.
Proof.
  destruct standardize_start as (w2 & Hinv2 & Hrun).
  unfold first_overflow.
  destruct (find (fun j => negb (squares_ok (column j X))) (seq 0 nF))
    as [k |] eqn:Hfind.
  - destruct (find_seq_first _ _ _ _ Hfind) as (Hk & Hbad & Hlow).
    apply negb_true_iff in Hbad. split; [lia |].
    destruct (for_each_raise (seq 0 k) (seq (S k) (nF - S k)) k pass
                OverflowError (fun w' => pass_inv k w') w2)
      as (w' & Hloop & Hinv').
    { eapply wp_mono.
      - apply (passes_ok k 0 w2); [lia | | exact Hinv2].
        intros j Hj. specialize (Hlow j ltac:(lia)).
        now apply negb_false_iff in Hlow.
      - intros [] w1 Hinv1. split; [| exact Hinv1].
        apply pass_overflow; [lia | exact Hbad | exact Hinv1]. }
    exists w'. split; [| exact Hinv'].
    rewrite Hrun. unfold bind.
    replace (seq 0 nF) with (seq 0 k ++ k :: seq (S k) (nF - S k)).
    + now rewrite Hloop.
    + symmetry. transitivity (seq 0 (k + S (nF - S k))); [f_equal; lia |].
      rewrite seq_app. reflexivity.
  - unfold wp. rewrite Hrun.
    change (wp (for_each (seq 0 nF) pass ;;
                ret (@VRef F (length (heap w)),
                     @VRef F (S (length (heap w)))))
              (fun out w' =>
                 out = (VRef (length (heap w)), VRef (S (length (heap w)))) /\
                 std_inv w Xl rows (standardized X)
                   (map (fun j => mean_of (column j X)) (seq 0 nF))
                   (map (fun j => std_of (column j X)) (seq 0 nF)) w')
              w2).
    apply wp_bind. eapply wp_mono.
    + apply (passes_ok nF 0 w2); [lia | | exact Hinv2].
      intros j Hj. pose proof (find_seq_none _ _ _ Hfind j Hj) as Hj'.
      now apply negb_false_iff in Hj'.
    + intros [] w' Hinv. apply wp_ret. split; [reflexivity |].
      cbn [plus] in Hinv. rewrite (upto_all nF X X_width) in Hinv.
      unfold means_upto, stds_upto in Hinv.
      now rewrite !fold_update_fill_repeat in Hinv.
Qed.

End Passes.

(** The block returns when no square overflows. *)
Lemma standardize_refines (w : world) (Xl : nat) (rows : list nat)
  (X : list (list F)) (nF : nat) :
  matrix_at w Xl rows X ->
  NoDup rows ->
  X <> [] ->
  Forall (fun row => length row = nF) X ->
  first_overflow nF X = None ->
  wp (standardize (VRef Xl))
    (fun out w' =>
       out = (VRef (length (heap w)), VRef (S (length (heap w)))) /\
       std_inv w Xl rows (standardized X)
         (map (fun j => mean_of (column j X)) (seq 0 nF))
         (map (fun j => std_of (column j X)) (seq 0 nF)) w')
    w.
Proof.
  intros HX Hnd Hne Hlen Hsafe.
  pose proof (standardize_outcome w Xl rows X nF HX Hnd Hne Hlen) as H.
  now rewrite Hsafe in H.
Qed.

End StandardizeRefines.

(* ================================================================= *)
(** ** Standardization over the reals *)

Section StandardizeReal.

Local Open Scope R_scope.

Lemma fold_left_Rplus (xs : list R) (a : R) :
  fold_left Rplus xs a = a + Rsum xs.
Proof.
  revert a; induction xs as [| x xs IH]; intros a; simpl.
  - lra.
  - rewrite IH. lra.
Qed.

Lemma py_sum_R (xs : list R) : py_sum xs = Rsum xs.
Proof. unfold py_sum. simpl. rewrite fold_left_Rplus. lra. Qed.

(** Over the reals no square overflows. *)
Lemma squares_ok_R (col : list R) : squares_ok col = true.
Proof.
  unfold squares_ok. generalize (mean_of col) as m.
  induction col as [| v col IH]; intros m; [reflexivity | exact (IH m)].
Qed.

Lemma first_overflow_R (nF : nat) (X : list (list R)) :
  first_overflow nF X = None.
Proof.
  unfold first_overflow. induction (seq 0 nF) as [| j js IH]; simpl; auto.
  now rewrite squares_ok_R.
Qed.

Lemma Rsum_scale (f : R -> R) (k : R) (xs : list R) :
  Rsum (map (fun v => f v / k) xs) = Rsum (map f xs) / k.
Proof.
  induction xs as [| x xs IH]; simpl.
  - unfold Rdiv. lra.
  - rewrite IH. unfold Rdiv. lra.
Qed.

Lemma Rsum_shift (m : R) (xs : list R) :
  Rsum (map (fun v => v - m) xs) = Rsum xs - INR (length xs) * m.
Proof.
  induction xs as [| x xs IH].
  - simpl. lra.
  - cbn [map Rsum fold_right length]. fold (Rsum (map (fun v => v - m) xs)).
    fold (Rsum xs). rewrite IH, S_INR. lra.
Qed.

Lemma Rsum_nonneg (xs : list R) :
  Forall (fun v => 0 <= v) xs -> 0 <= Rsum xs.
Proof.
  induction 1 as [| x xs Hx _ IH]; simpl; lra.
Qed.

Lemma Rsum_zero (xs : list R) :
  Forall (fun v => 0 <= v) xs -> Rsum xs = 0 -> Forall (fun v => v = 0) xs.
Proof.
  induction 1 as [| x xs Hx Hxs IH]; simpl; intros Hsum; constructor.
  - pose proof (Rsum_nonneg xs Hxs). unfold Rsum in *. lra.
  - apply IH. pose proof (Rsum_nonneg xs Hxs). unfold Rsum in *. lra.
Qed.

Lemma bessel_pos (n : nat) : 0 < INR (Nat.max 1 (n - 1)).
Proof. apply lt_0_INR. lia. Qed.

Lemma mean_of_R (col : list R) : mean_of col = Rmean col.
Proof.
  unfold mean_of, Rmean. simpl. now rewrite py_sum_R, <- INR_IZR_INZ.
Qed.

Lemma variance_of_R (col : list R) : variance_of col = Rvariance col.
Proof.
  unfold variance_of. rewrite mean_of_R, py_sum_R. unfold Rvariance.
  cbn [fdiv fsub fpow of_Z R_PyFloat]. f_equal.
  - f_equal. apply map_ext. intros v. simpl. lra.
  - rewrite INR_IZR_INZ. f_equal. lia.
Qed.

Lemma Rvariance_nonneg (col : list R) : 0 <= Rvariance col.
Proof.
  unfold Rvariance. apply Rmult_le_pos.
  - apply Rsum_nonneg. apply Forall_forall. intros v Hv.
    apply in_map_iff in Hv. destruct Hv as (x & Hx & _). subst v.
    apply Rle_0_sqr.
  - left. apply Rinv_0_lt_compat. apply bessel_pos.
Qed.

Lemma std_of_R (col : list R) : std_of col = Rstd col.
Proof.
  unfold std_of, Rstd. rewrite variance_of_R. simpl.
  pose proof (Rvariance_nonneg col) as Hv.
  destruct (Rlt_dec 0 (Rvariance col)), (Req_dec_T (Rvariance col) 0);
    try lra; auto; apply Q2R_1p0.
Qed.



(** A column rescaled by its own mean and deviation. *)
Lemma rescaled_mean (col : list R) (s : R) :
  col <> [] -> s <> 0 ->
  Rmean (map (fun v => (v - Rmean col) / s) col) = 0.
Proof.
  intros Hne Hs. unfold Rmean at 1. rewrite length_map.
  rewrite (Rsum_scale (fun v => v - Rmean col) s), Rsum_shift.
  assert (Hn : 0 < INR (length col)).
  { apply lt_0_INR. destruct col; [contradiction | simpl; lia]. }
  unfold Rmean. field. split; lra.
Qed.

Lemma rescaled_variance (col : list R) :
  col <> [] -> 0 < Rvariance col ->
  Rvariance (map (fun v => (v - Rmean col) / sqrt (Rvariance col)) col) = 1.
Proof.
  intros Hne Hvar.
  assert (Hs : 0 < sqrt (Rvariance col)) by now apply sqrt_lt_R0.
  unfold Rvariance at 1.
  rewrite (rescaled_mean col (sqrt (Rvariance col))) by (auto; lra).
  rewrite length_map, map_map.
  pose proof (bessel_pos (length col)) as HD.
  set (D := INR (Nat.max 1 (length col - 1))) in *.
  set (SS := Rsum (map (fun v => (v - Rmean col) * (v - Rmean col)) col)).
  assert (Hvar_eq : Rvariance col = SS / D) by reflexivity.
  assert (Hsum :
            Rsum (map (fun x =>
                         ((x - Rmean col) / sqrt (Rvariance col) - 0) *
                         ((x - Rmean col) / sqrt (Rvariance col) - 0)) col)
            = SS / Rvariance col).
  { unfold SS.
    rewrite <- (Rsum_scale (fun v => (v - Rmean col) * (v - Rmean col))
                  (Rvariance col)).
    f_equal. apply map_ext. intros x.
    rewrite <- (sqrt_sqrt (Rvariance col)) at 3 by lra.
    field. lra. }
  rewrite Hsum, Hvar_eq.
  assert (HSS : 0 < SS).
  { rewrite Hvar_eq in Hvar. unfold Rdiv in Hvar.
    assert (0 < / D) by now apply Rinv_0_lt_compat.
    nra. }
  field. split; lra.
Qed.

End StandardizeReal.

Lemma column_R (j : nat) (X : list (list R)) :
  column j X = map (fun row => nth j row 0%R) X.
Proof.
  unfold column. apply map_ext. intros row. simpl. now rewrite Q2R_0p0.
Qed.

Lemma standardized_R (nF : nat) (X : list (list R)) :
  Forall (fun row => length row = nF) X ->
  standardized X
  = map (fun row =>
           map (fun j => ((nth j row 0 - Rmean (column j X))
                          / Rstd (column j X))%R) (seq 0 nF)) X.
Proof.
  intros HX. unfold standardized, standardized_row.
  apply map_ext_in. intros row Hrow.
  rewrite Forall_forall in HX. rewrite (HX row Hrow).
  apply map_ext. intros j. rewrite mean_of_R, std_of_R. simpl.
  now rewrite Q2R_0p0.
Qed.

Lemma standardized_column_R (nF j : nat) (X : list (list R)) :
  j < nF ->
  column j
    (map (fun row =>
            map (fun j => ((nth j row 0 - Rmean (column j X))
                           / Rstd (column j X))%R) (seq 0 nF)) X)
  = map (fun v => ((v - Rmean (column j X)) / Rstd (column j X))%R)
      (column j X).
Proof.
  intros Hj. rewrite !column_R, !map_map. apply map_ext. intros row.
  rewrite nth_map_seq by exact Hj. now rewrite column_R.
Qed.



(* ================================================================= *)
(** ** Training on two separable points, over the reals *)

Section TwoPoints.

Local Open Scope R_scope.

Lemma dot_R (ws xs : list R) :
  dot ws xs = Rsum (map (fun p => fst p * snd p) (combine ws xs)).
Proof. unfold dot. now rewrite py_sum_R. Qed.

Lemma dot_scale (k : R) (u v : list R) :
  dot (map (Rmult k) u) v = k * dot u v.
Proof.
  rewrite !dot_R. revert v. induction u as [| a u IH]; intros [| b v]; simpl;
    try ring.
  rewrite IH. ring.
Qed.

Lemma dot_opp (w v : list R) : dot w (map Ropp v) = - dot w v.
Proof.
  rewrite !dot_R. revert v. induction w as [| a w IH]; intros [| b v]; simpl;
    try ring.
  rewrite IH. ring.
Qed.

Lemma dot_self_nonneg (u : list R) : 0 <= dot u u.
Proof.
  rewrite dot_R. induction u as [| a u IH]; simpl; [lra |].
  nra.
Qed.

Lemma dot_self_zero (u v : list R) : dot u u = 0 -> dot v u = 0.
Proof.
  rewrite !dot_R. revert v. induction u as [| a u IH]; intros v Hu.
  - destruct v; reflexivity.
  - destruct v as [| b v]; [reflexivity |]. simpl in *.
    pose proof (dot_self_nonneg u) as Hn. rewrite dot_R in Hn.
    assert (Ha : a = 0) by nra.
    assert (Hrest : Rsum (map (fun p => fst p * snd p) (combine u u)) = 0)
      by nra.
    rewrite (IH v Hrest). subst a. lra.
Qed.

Lemma separated_norm (u xs xn : list R) :
  (xs = u /\ xn = map Ropp u) \/ (xs = map Ropp u /\ xn = u) ->
  (exists v c, separates v c xs xn) ->
  0 < dot u u.
Proof.
  intros Hcase (v & c & Hs & Hn).
  destruct (Rle_lt_or_eq_dec _ _ (dot_self_nonneg u)) as [| Hz]; auto.
  exfalso. symmetry in Hz. pose proof (dot_self_zero u v Hz) as Hv.
  destruct Hcase as [[-> ->] | [-> ->]]; rewrite ?dot_opp, Hv in *; lra.
Qed.

Lemma sigmoid_reflect (z : R) :
  1 / (1 + exp (- - z)) = 1 - 1 / (1 + exp (- z)).
Proof.
  rewrite Ropp_involutive, exp_Ropp. pose proof (exp_pos z).
  field. split; lra.
Qed.

Lemma combine_map_same {A B C : Type} (f : A -> B) (g : A -> C)
  (l : list A) :
  combine (map f l) (map g l) = map (fun x => (f x, g x)) l.
Proof. induction l as [| x l IH]; simpl; auto. now rewrite IH. Qed.

Lemma combine_map_left {A B : Type} (f : A -> B) (l : list A) :
  combine (map f l) l = map (fun x => (f x, x)) l.
Proof. induction l as [| x l IH]; simpl; auto. now rewrite IH. Qed.

Lemma repeat_as_map {A B : Type} (b : B) (l : list A) :
  repeat b (length l) = map (fun _ => b) l.
Proof. induction l as [| x l IH]; simpl; auto. now rewrite IH. Qed.

(** One epoch on the points [u] and [-u]: the bias stays zero and the
    weights stay a multiple of [u], pushed towards the special point. *)
Lemma spec_epoch_pair (u : list R) (sgn k lr : R) (y1 y2 epoch : Z) :
  sgn = 1 \/ sgn = -1 ->
  IZR y1 = (1 + sgn) / 2 -> IZR y2 = (1 - sgn) / 2 ->
  0 <= sgn * k -> 0 < lr ->
  exists k' lr',
    spec_epoch (length u) [u; map Ropp u] [y1; y2]
      (map (Rmult k) u, 0, lr) epoch
    = (map (Rmult k') u, 0, lr') /\
    0 < sgn * k' /\ 0 < lr'.
Proof.
  intros Hsgn Hy1 Hy2 Hk Hlr.
  set (z := k * dot u u).
  set (e1 := 1 / (1 + exp (- z)) - IZR y1).
  assert (He2 : 1 / (1 + exp (- - z)) - IZR y2 = - e1).
  { unfold e1. rewrite sigmoid_reflect, Hy1, Hy2. lra. }
  assert (Herrs : spec_errors [u; map Ropp u] [y1; y2] (map (Rmult k) u) 0
                  = [e1; - e1]).
  { unfold spec_errors. cbn [combine map fst snd].
    rewrite !logistic_value_R, dot_opp, dot_scale.
    cbn [fadd fsub of_Z R_PyFloat]. fold z.
    rewrite !Rplus_0_r, He2. reflexivity. }
  exists (k - lr * e1),
    (if ((epoch mod 1000) =? 0)%Z && (0 <? epoch)%Z
     then lr * Q2R 0.9 else lr).
  split; [| split].
  - unfold spec_epoch. rewrite Herrs.
    apply f_equal2; [apply f_equal2 |].
    + unfold spec_gradW. cbn [combine fold_left fst snd].
      cbn [fadd fsub fmul fdiv of_Z flit R_PyFloat length].
      rewrite Q2R_0p0, repeat_as_map.
      rewrite combine_map_left, map_map. cbn [fst snd].
      rewrite combine_map_same, map_map. cbn [fst snd].
      rewrite combine_map_same, map_map. cbn [fst snd].
      apply map_ext. intros x. simpl. field.
    + unfold spec_gradB.
      cbn [fold_left fadd fsub fmul fdiv of_Z flit R_PyFloat length].
      rewrite Q2R_0p0. simpl. field.
    + reflexivity.
  - assert (Hpush : sgn * e1 < 0).
    { pose proof (sigmoid_bounds z) as Hb. unfold e1. rewrite Hy1.
      destruct Hsgn as [-> | ->]; lra. }
    nra.
  - destruct ((epoch mod 1000 =? 0)%Z && (0 <? epoch)%Z); auto.
    assert (0 < Q2R 0.9) by (unfold Q2R; simpl; lra). nra.
Qed.

Lemma spec_epochs_pair (u : list R) (sgn : R) (y1 y2 : Z) (es : list Z) :
  sgn = 1 \/ sgn = -1 ->
  IZR y1 = (1 + sgn) / 2 -> IZR y2 = (1 - sgn) / 2 ->
  forall k lr,
    0 < sgn * k -> 0 < lr ->
    exists k' lr',
      fold_left (spec_epoch (length u) [u; map Ropp u] [y1; y2]) es
        (map (Rmult k) u, 0, lr)
      = (map (Rmult k') u, 0, lr') /\
      0 < sgn * k'.
Proof.
  intros Hsgn Hy1 Hy2. induction es as [| e es IH]; intros k lr Hk Hlr.
  - exists k, lr. auto.
  - destruct (spec_epoch_pair u sgn k lr y1 y2 e Hsgn Hy1 Hy2) as
      (k1 & lr1 & Hstep & Hk1 & Hlr1); [lra | lra |].
    cbn [fold_left]. rewrite Hstep. now apply IH.
Qed.

Lemma spec_train_pair (u : list R) (sgn : R) (y1 y2 : Z) (epochs : Z)
  (lr : R) :
  sgn = 1 \/ sgn = -1 ->
  IZR y1 = (1 + sgn) / 2 -> IZR y2 = (1 - sgn) / 2 ->
  (0 < epochs)%Z -> 0 < lr ->
  exists k lr',
    spec_train (length u) [u; map Ropp u] [y1; y2] epochs lr
    = (map (Rmult k) u, 0, lr') /\
    0 < sgn * k.
Proof.
  intros Hsgn Hy1 Hy2 He Hlr. unfold spec_train.
  destruct (range_pos epochs He) as [rest ->].
  assert (Hinit : (repeat (flit 0.0) (length u), flit 0.0, lr)
                  = (map (Rmult 0) u, 0, lr)).
  { simpl flit. rewrite Q2R_0p0, repeat_as_map. do 2 f_equal.
    apply map_ext. intros x. lra. }
  rewrite Hinit. cbn [fold_left].
  destruct (spec_epoch_pair u sgn 0 lr y1 y2 0%Z Hsgn Hy1 Hy2) as
    (k1 & lr1 & Hstep & Hk1 & Hlr1); [lra | lra |].
  rewrite Hstep. now apply spec_epochs_pair.
Qed.

End TwoPoints.

Lemma standardized_pair (r1 r2 : list R) (nF : nat) :
  length r1 = nF -> length r2 = nF ->
  exists u : list R,
    length u = nF /\ standardized [r1; r2] = [u; map Ropp u].
Proof.
  intros H1 H2.
  rewrite (standardized_R nF) by (repeat constructor; assumption).
  cbn [map].
  exists (map (fun j => ((nth j r1 0 - Rmean (column j [r1; r2]))
                         / Rstd (column j [r1; r2]))%R) (seq 0 nF)).
  split; [| do 2 f_equal].
  - now rewrite length_map, length_seq.
  - rewrite map_map. apply map_ext. intros j.
    rewrite column_R. cbn [map]. unfold Rmean. cbn [Rsum fold_right length].
    set (a := nth j r1 0%R). set (b := nth j r2 0%R).
    set (s := Rstd [a; b]).
    replace (b - (a + (b + 0)) / INR 2)%R
      with (- (a - (a + (b + 0)) / INR 2))%R by (simpl; field).
    unfold Rdiv. ring.
Qed.

(** C9, over the reals: take two feature vectors, standardize them, and
    train with the default epochs and rate on the standardized pair, one
    example labeled special (1) and the other normal (0), in either order.
    If some hyperplane separates the standardized special point from the
    normal one, then training returns weights and a bias that put the
    special point above one half and the normal point below one half. In
    binary64 this fails for points so small that the products underflow:
    see [two_point_training_b64]. *)
Theorem two_point_training (w : @world R) (Xl yl : nat) (rows : list nat)
  (raw1 raw2 xs xn : list R) (X : list (list R)) (ys : list Z) :
  length raw1 = length raw2 ->
  standardized [raw1; raw2] = X ->
  (X = [xs; xn] /\ ys = [1%Z; 0%Z]) \/ (X = [xn; xs] /\ ys = [0%Z; 1%Z]) ->
  (exists v c, separates v c xs xn) ->
  matrix_at w Xl rows X ->
  ints_at w yl ys ->
  exists (W : list R) (b : R) (w' : world) (ps pn : R),
    train_logistic_regression (VRef Xl) (VRef yl) None None w
    = (Ok {| weights := VRef (length (heap w)); bias := b |}, w') /\
    floats_at w' (length (heap w)) W /\
    logistic (dot W xs + b)%R = Ok ps /\ (ps > 1 / 2)%R /\
    logistic (dot W xn + b)%R = Ok pn /\ (pn < 1 / 2)%R.
Proof.
  intros Hlen Hstd Hcase Hsep HX Hy.
  destruct (standardized_pair raw1 raw2 (length raw2) Hlen eq_refl)
    as (u & Hu & Hpair).
  rewrite Hpair in Hstd. subst X.
  assert (Hrowlen : Forall (fun row => length row = length u)
                      [u; map Ropp u]).
  { repeat constructor. apply length_map. }
  assert (Hys : length ys = 2) by (destruct Hcase as [[_ ->] | [_ ->]]; auto).
  assert (Hne : [u; map Ropp u] <> []) by discriminate.
  destruct (train_refines w Xl yl rows [u; map Ropp u] ys (length u)
              None None HX Hne Hrowlen Hy Hys)
    as (model & w' & Hrun & (junk & Hheap) & _ & Hmodel).
  cbv zeta in Hheap, Hmodel.
  destruct (spec_train (length u) [u; map Ropp u] ys 5000 (flit 0.05))
    as [[W b] lrf] eqn:Hspec.
  cbn [fst snd] in Hheap, Hmodel. subst model.
  assert (HW : floats_at w' (length (heap w)) W).
  { unfold floats_at. rewrite Hheap. apply nth_error_middle. }
  assert (Hnorm : (0 < dot u u)%R).
  { apply (separated_norm u xs xn); auto.
    destruct Hcase as [[E _] | [E _]]; injection E; auto. }
  assert (Hgoal : exists k sgn,
             W = map (Rmult k) u /\ b = 0%R /\ (0 < sgn * k)%R /\
             ((sgn = 1%R /\ xs = u /\ xn = map Ropp u) \/
              (sgn = (-1)%R /\ xs = map Ropp u /\ xn = u))).
  { destruct Hcase as [[E ->] | [E ->]]; injection E as <- <-.
    - destruct (spec_train_pair u 1 1 0 5000 (flit 0.05)) as
        (k & lr' & Hk & Hpos); auto; try lra; try lia.
      { simpl. unfold Q2R. simpl. lra. }
      rewrite Hk in Hspec. injection Hspec as <- <- _.
      exists k, 1%R. auto 10.
    - destruct (spec_train_pair u (-1) 0 1 5000 (flit 0.05)) as
        (k & lr' & Hk & Hpos); auto; try lra; try lia.
      { simpl. unfold Q2R. simpl. lra. }
      rewrite Hk in Hspec. injection Hspec as <- <- _.
      exists k, (-1)%R. auto 10. }
  destruct Hgoal as (k & sgn & -> & -> & Hk & Hside).
  exists (map (Rmult k) u), 0%R, w'.
  exists (1 / (1 + exp (- (dot (map (Rmult k) u) xs + 0))))%R,
    (1 / (1 + exp (- (dot (map (Rmult k) u) xn + 0))))%R.
  split; [exact Hrun |]. split; [exact HW |].
  split; [apply logistic_R |].
  split.
  { apply Rlt_gt. apply sigmoid_half.
    destruct Hside as [(-> & -> & ->) | (-> & -> & ->)];
      rewrite ?dot_opp, dot_scale; nra. }
  split; [apply logistic_R |].
  apply sigmoid_half.
  destruct Hside as [(-> & -> & ->) | (-> & -> & ->)];
    rewrite ?dot_opp, dot_scale; nra.
Qed.

Lemma Rstd_pos (col : list R) : (0 < Rstd col)%R.
Proof.
  unfold Rstd. destruct (Req_dec_T (Rvariance col) 0); [lra |].
  apply sqrt_lt_R0. pose proof (Rvariance_nonneg col). lra.
Qed.

Lemma two_point_training_witness :
  let X0 : list (list R) := [[1%R]; [0%R]] in
  let xs := standardized_row X0 [1%R] in
  let xn := standardized_row X0 [0%R] in
  let w0 : @world R :=
    {| heap := [[VRef 1; VRef 2]; map VFloat xs; map VFloat xn;
                [VInt 1; VInt 0]];
       trace := [] |} in
  exists (W : list R) (b : R) (w' : world) (ps pn : R),
    train_logistic_regression (VRef 0) (VRef 3) None None w0
    = (Ok {| weights := VRef 4; bias := b |}, w') /\
    floats_at w' 4 W /\
    logistic (dot W xs + b)%R = Ok ps /\ (ps > 1 / 2)%R /\
    logistic (dot W xn + b)%R = Ok pn /\ (pn < 1 / 2)%R.
Proof.
  intros X0 xs xn w0.
  apply (two_point_training w0 0 3 [1; 2] [1%R] [0%R] xs xn [xs; xn]
           [1%Z; 0%Z]).
  - reflexivity.
  - reflexivity.
  - left. split; reflexivity.
  - exists [1%R], 0%R. unfold separates, xs, xn, standardized_row, X0.
    cbn [length seq map nth column].
    rewrite mean_of_R, std_of_R, !dot_R.
    cbn [combine map fst snd Rsum fold_right].
    unfold Rmean. cbn [Rsum fold_right length INR].
    pose proof (Rstd_pos [1%R; 0%R]) as Hs.
    assert (Ht : (0 < / Rstd [1; 0])%R) by now apply Rinv_0_lt_compat.
    cbn [fdiv fsub R_PyFloat]. unfold Rdiv.
    set (t := (/ Rstd [1; 0])%R) in *.
    replace (/ (1 + 1))%R with (1 / 2)%R by lra.
    split; nra.
  - split; [reflexivity | repeat constructor].
  - reflexivity.
Defined.

(* ================================================================= *)
(** ** The pipeline *)

Section Pipeline.

Context {F : Type} {PF : PyFloat F} {PL : PyFloatLaws F}.
Variable float_of_string : string -> option F.

Local Abbreviation M := (@M F).
Local Abbreviation world := (@world F).
Local Abbreviation val := (@val F).
Local Abbreviation json := (@json F).

Lemma wp_run {A : Type} (m : M A) (a : A) (Q : A -> world -> Prop)
  (w w' : world) :
  m w = (Ok a, w') -> Q a w' -> wp m Q w.
Proof. intros Hm HQ. exists a, w'. auto. Qed.

Lemma label_check (fields : list (string * json)) :
  match assoc "label" fields with
  | Some l => hashable l = true
  | None => True
  end ->
  exists lbl,
    py_get (JDict fields) "label" JNull = Ok lbl /\
    label_is_valid lbl
    = Ok (match label_of (JDict fields) with Some _ => true | None => false end)
    /\
    forall y, label_of (JDict fields) = Some y ->
              y = if py_eqb lbl (JStr "special") then 1%Z else 0%Z.
Proof.
  unfold py_get, label_of, label_is_valid.
  destruct (assoc "label" fields) as [l |].
  - intros Hh. exists l. split; [reflexivity |]. rewrite Hh.
    destruct l as [| b | z | x | s | items | inner]; simpl in *;
      try discriminate; try (split; [reflexivity | discriminate]).
    destruct (String.eqb s "special") eqn:E1; simpl.
    + split; [reflexivity |]. now intros y [= <-].
    + destruct (String.eqb s "normal") eqn:E2; simpl.
      * split; [reflexivity |]. now intros y [= <-].
      * split; [reflexivity | discriminate].
  - intros _. exists JNull. simpl. split; [reflexivity |].
    split; [reflexivity | discriminate].
Qed.

Lemma fold_app_flat_map {A B : Type} (f : A -> list B) (l : list A)
  (acc : list B) :
  fold_left (fun acc x => acc ++ f x) l acc = acc ++ flat_map f l.
Proof.
  revert acc; induction l as [| x l IH]; intros acc; simpl.
  - now rewrite app_nil_r.
  - rewrite IH. now rewrite app_assoc.
Qed.

Lemma floats_at_transfer (w1 w2 : world) (rows : list nat)
  (X : list (list F)) :
  Forall2 (floats_at w1) rows X ->
  (forall r, In r rows -> nth_error (heap w2) r = nth_error (heap w1) r) ->
  Forall2 (floats_at w2) rows X.
Proof.
  intros HF. induction HF as [| r row rows X Hr _ IH]; intros Hsame;
    constructor.
  - unfold floats_at in *. rewrite Hsame by (now left). exact Hr.
  - apply IH. intros r' Hr'. apply Hsame. now right.
Qed.

(** The loop of [main] that fills [X] and [y] keeps one row of 11 floats
    per record with a training label, and leaves the others out. *)
Lemma collect_refines (w0 : world) (Xl yl : nat) (dataset : list json) :
  Forall (entry_ok float_of_string) dataset ->
  forall (ys0 : list Z) (w : world),
    collect_inv w0 Xl yl ys0 w ->
    wp (collect float_of_string dataset (VRef Xl) (VRef yl))
      (fun _ w' => collect_inv w0 Xl yl (ys0 ++ labels_of dataset) w') w.
Proof.
  intros Hok ys0 w Hinv. unfold collect.
  eapply wp_mono.
  - eapply (wp_for_each
              (fun (e e' : json) => e = e' /\ entry_ok float_of_string e)
              (fun (ys : list Z) (e : json) =>
                 ys ++ match label_of e with Some y => [y] | None => [] end)
              (collect_inv w0 Xl yl))
      with (bs := dataset) (s := ys0).
    + clear Hinv. induction Hok; constructor; auto.
    + intros e ? ys w1 [<- (fields & -> & Hlabel & Hfields)] Hinv1.
      destruct (label_check fields Hlabel) as (lbl & Hget & Hvalid & Hy).
      apply wp_bind. eapply wp_lift; [exact Hget |].
      apply wp_bind. eapply wp_lift; [exact Hvalid |].
      destruct (label_of (JDict fields)) as [y |] eqn:Hlab.
      2:{ apply wp_ret. now rewrite app_nil_r. }
      destruct Hfields as (Hm & Hp & Hrules); [discriminate |].
      destruct (Forall_choose _ _ Hrules) as [xs Hxs].
      pose proof (extract_features_run float_of_string fields xs Hm Hp Hxs)
        as Hrun.
      match type of Hrun with
      | context [map VFloat ?l] => set (feats := l) in *
      end.
      assert (Hlen11 : length feats = 11).
      { apply Forall2_length in Hxs. unfold feats.
        rewrite length_app, <- Hxs. reflexivity. }
      destruct Hinv1 as (rows & X & HX & Hrows & Hys & Hnd & H11 & HXys
                         & Hr & HXl0 & Hyl0 & (fresh & Hfresh & Hflen) & Htr).
      assert (Hne : Xl <> yl) by lia.
      assert (HXl : Xl < length (heap w1))
        by (apply nth_error_Some; unfold refs_at in HX; congruence).
      assert (Hyl : yl < length (heap w1))
        by (apply nth_error_Some; unfold ints_at in Hys; congruence).
      set (n1 := length (heap w1)) in *.
      apply wp_bind. eapply wp_run; [apply Hrun |]. fold n1.
      apply wp_bind. eapply wp_append.
      { cbn [heap]. apply nth_error_app_Some. exact HX. }
      cbn [heap trace].
      eapply wp_append.
      { cbn [heap]. rewrite nth_error_update_neq by exact Hne.
        apply nth_error_app_Some. exact Hys. }
      cbn [heap trace].
      rewrite <- (Hy y eq_refl).
      set (h1 := update Xl (map VRef rows ++ [VRef n1])
                   (heap w1 ++ [map VFloat feats])).
      assert (Hlen1 : length h1 = S n1).
      { unfold h1. rewrite update_length, length_app. simpl. lia. }
      assert (Hother : forall l, l <> Xl -> l <> yl ->
                nth_error (update yl (map VInt ys ++ [VInt y]) h1) l
                = nth_error (heap w1 ++ [map VFloat feats]) l).
      { intros l H1 H2. unfold h1.
        rewrite nth_error_update_neq by auto.
        now rewrite nth_error_update_neq by auto. }
      exists (rows ++ [n1]), (X ++ [feats]).
      unfold refs_at, ints_at. cbn [heap trace].
      split.
      { rewrite nth_error_update_neq by auto. unfold h1.
        rewrite nth_error_update_eq by (rewrite length_app; lia).
        now rewrite map_app. }
      split.
      { apply Forall2_app.
        - apply (floats_at_transfer w1 _ rows X Hrows).
          intros r Hin. destruct (Hr r Hin) as (H1 & H2 & H3).
          cbn [heap]. rewrite Hother by auto.
          now apply nth_error_app1.
        - constructor; [| constructor].
          unfold floats_at. cbn [heap]. rewrite Hother by lia.
          apply nth_error_middle. }
      split.
      { rewrite nth_error_update_eq by lia. now rewrite map_app. }
      split.
      { apply NoDup_app; auto.
        - constructor; [intros [] | constructor].
        - intros r Hin [E | []]. destruct (Hr r Hin) as (_ & _ & H3). lia. }
      split; [apply Forall_app; auto |].
      split; [rewrite !length_app; simpl; lia |].
      split.
      { intros r Hin. rewrite update_length, Hlen1.
        apply in_app_iff in Hin. destruct Hin as [Hin | [E | []]].
        - destruct (Hr r Hin) as (H1 & H2 & H3). repeat split; auto.
        - repeat split; lia. }
      split; [exact HXl0 |]. split; [exact Hyl0 |].
      split; [| exact Htr].
      unfold h1. rewrite Hfresh, <- app_assoc.
      rewrite update_app_r by lia. rewrite update_app_r by lia.
      eexists. split; [reflexivity |].
      rewrite !update_length, !length_app. simpl. lia.
    + exact Hinv.
  - intros u w' Hinv'. unfold labels_of.
    now rewrite fold_app_flat_map in Hinv'.
Qed.

Lemma manual_entries_ok :
  Forall (entry_ok float_of_string) MANUAL_SEEDS.
Proof.
  repeat constructor;
    (eexists; split; [reflexivity |]; split; [reflexivity |]; intros _;
     split; [exact I |]; split; [exact I |];
     repeat constructor; eexists; reflexivity).
Qed.

Lemma spec_dataset_In (entries : list json) (r : json) :
  In r (spec_dataset entries) -> In r MANUAL_SEEDS \/ In r entries.
Proof.
  unfold spec_dataset. rewrite in_flat_map. intros (k & _ & Hr).
  destruct (find (has_id k) (rev entries)) as [e |] eqn:Hf.
  - destruct Hr as [<- | []]. apply find_some in Hf.
    right. apply in_rev. tauto.
  - destruct (find (has_id k) MANUAL_SEEDS) as [e |] eqn:Hm;
      [| contradiction].
    destruct Hr as [<- | []]. apply find_some in Hm. tauto.
Qed.

Lemma dataset_ok (entries : list json) :
  Forall (fun e => id_of e <> None /\ entry_ok float_of_string e) entries ->
  build_dataset entries = Ok (spec_dataset entries) /\
  Forall (entry_ok float_of_string) (spec_dataset entries).
Proof.
  intros Hent. split.
  - assert (Hids : Forall (fun e : json => id_of e <> None) entries).
    { eapply Forall_impl; [| exact Hent]. intros e [He _]. exact He. }
    destruct (merged_by_id entries Hids) as (valf & Hrun & Hds & _).
    cbv zeta in Hrun, Hds. now rewrite Hds.
  - apply Forall_forall. intros r Hr.
    apply spec_dataset_In in Hr. destruct Hr as [Hr | Hr].
    + pose proof manual_entries_ok as Hm. rewrite Forall_forall in Hm. auto.
    + rewrite Forall_forall in Hent. now apply Hent.
Qed.

Lemma standardized_lengths (nF : nat) (X : list (list F)) :
  Forall (fun row => length row = nF) X ->
  Forall (fun row => length row = nF) (standardized X).
Proof.
  intros HX. unfold standardized. apply Forall_forall. intros row Hrow.
  apply in_map_iff in Hrow. destruct Hrow as (r & <- & Hr).
  rewrite standardized_row_length. rewrite Forall_forall in HX. auto.
Qed.

(** [main] up to the end of the loop that fills [X] and [y]. *)
Lemma main_prefix (entries : list json) (w : world) :
  Forall (fun e => id_of e <> None /\ entry_ok float_of_string e) entries ->
  exists w2 : world,
    collect_inv w (length (heap w)) (S (length (heap w)))
      (labels_of (spec_dataset entries)) w2 /\
    forall (B : Type) (k : val -> val -> M B),
      (dataset <- lift (build_dataset entries) ;;
       X <- alloc [] ;;
       y <- alloc [] ;;
       collect float_of_string dataset X y ;;
       k X y) w
      = k (VRef (length (heap w))) (VRef (S (length (heap w)))) w2.
Proof.
  intros Hent. destruct (dataset_ok entries Hent) as [Hds Hok].
  set (w1 := {| heap := (heap w ++ [[]]) ++ [@nil val]; trace := trace w |}).
  assert (Hinv : collect_inv w (length (heap w)) (S (length (heap w))) [] w1).
  { exists [], []. unfold refs_at, ints_at, w1. cbn [heap trace map].
    split; [apply nth_error_app_Some; apply nth_error_middle |].
    split; [constructor |].
    split.
    { replace (S (length (heap w))) with (length (heap w ++ [@nil val]))
        by (rewrite length_app; simpl; lia).
      apply nth_error_middle. }
    split; [constructor |]. split; [constructor |].
    split; [reflexivity |]. split; [intros r [] |].
    split; [reflexivity |]. split; [reflexivity |].
    split; [| reflexivity].
    exists [[]; []]. rewrite <- app_assoc. auto. }
  destruct (collect_refines w _ _ (spec_dataset entries) Hok [] w1 Hinv)
    as (u & w2 & Hrun & Hinv2).
  exists w2. split; [exact Hinv2 |].
  intros B k. rewrite (bind_lift_ok _ _ _ _ Hds).
  unfold bind at 1. unfold alloc at 1. unfold bind at 1. unfold alloc at 1.
  cbn [heap trace]. rewrite length_app. cbn [length].
  replace (length (heap w) + 1) with (S (length (heap w))) by lia.
  fold w1. now rewrite (bind_run _ _ _ _ _ Hrun).
Qed.

(** With at least one record left, [main] gets past the filter with one
    feature row for each kept record. When no square of the
    standardization overflows it runs to the end and writes the model
    trained on these rows; otherwise it raises [OverflowError] there and
    has output nothing. *)
Lemma main_outcome (trainedAt output : string) (entries : list json)
  (w : world) :
  Forall (fun e => id_of e <> None /\ entry_ok float_of_string e) entries ->
  labels_of (spec_dataset entries) <> [] ->
  exists (X : list (list F)) (w' : world),
    length X = length (labels_of (spec_dataset entries)) /\
    Forall (fun row => length row = 11) X /\
    match first_overflow 11 X with
    | None =>
        main float_of_string trainedAt output entries w = (Ok tt, w') /\
        trace w'
        = trace w
          ++ [Mkdir output;
              WriteText output
                (trained_model trainedAt X (labels_of (spec_dataset entries)));
              Print ("Model saved to " ++ output)%string]
    | Some _ =>
        main float_of_string trainedAt output entries w
        = (Raise OverflowError, w') /\
        trace w' = trace w
    end.
Proof.
  intros Hent Hsome.
  destruct (main_prefix entries w Hent) as (w2 & Hinv & Hrun).
  set (ys := labels_of (spec_dataset entries)) in *.
  destruct Hinv as (rows & X & HX & Hrows & Hys & Hnd & H11 & HXys & Hr
                    & HXl & Hyl & _ & Htr).
  assert (Hne : X <> []).
  { destruct X; [| discriminate]. destruct ys; [congruence | discriminate]. }
  assert (Hnrows : length rows = length X) by (eapply Forall2_length; eauto).
  cut (exists w' : world,
          match first_overflow 11 X with
          | None =>
              main float_of_string trainedAt output entries w = (Ok tt, w') /\
              trace w'
              = trace w
                ++ [Mkdir output;
                    WriteText output (trained_model trainedAt X ys);
                    Print ("Model saved to " ++ output)%string]
          | Some _ =>
              main float_of_string trainedAt output entries w
              = (Raise OverflowError, w') /\
              trace w' = trace w
          end).
  { intros [w' Hw']. exists X, w'. auto. }
  destruct (first_overflow 11 X) as [k |] eqn:Hsafe.
  { pose proof (standardize_outcome w2 _ rows X 11 (conj HX Hrows) Hnd Hne H11)
      as Hout.
    rewrite Hsafe in Hout. destruct Hout as (_ & w3 & Hstd & Hinv3).
    exists w3. split.
    - unfold main. rewrite Hrun.
      rewrite (bind_run _ _ (length X) w2 w2).
      2:{ apply run_of_wp. eapply wp_len; [exact HX |].
          rewrite length_map, Hnrows. auto. }
      destruct (length X) as [| n] eqn:HlenX;
        [destruct X; [congruence | discriminate] |].
      cbn [Nat.eqb]. unfold bind at 1. rewrite Hstd. reflexivity.
    - destruct Hinv3 as (_ & _ & _ & _ & _ & _ & Htr3). congruence. }
  assert (Hwp :
            wp (main float_of_string trainedAt output entries)
              (fun _ w' =>
                 trace w'
                 = trace w
                   ++ [Mkdir output;
                       WriteText output (trained_model trainedAt X ys);
                       Print ("Model saved to " ++ output)%string]) w).
  { unfold wp. unfold main. rewrite Hrun.
    change (wp (n <- len (VRef (length (heap w))) ;;
                if Nat.eqb n 0
                then raise (SystemExit "No valid data to train on")
                else
                  ' (means, stds) <- standardize (VRef (length (heap w))) ;;
                  model <- train_logistic_regression
                             (VRef (length (heap w)))
                             (VRef (S (length (heap w))))
                             (Some 6000%Z) (Some (flit 0.08)) ;;
                  emit (Mkdir output) ;;
                  ws <- iter (weights model) ;;
                  ms <- iter means ;;
                  ss <- iter stds ;;
                  emit (WriteText output
                          {| m_features := FEATURES;
                             m_weights := ws;
                             m_bias := bias model;
                             m_means := ms;
                             m_stds := ss;
                             m_trainedAt := trainedAt |}) ;;
                  emit (Print ("Model saved to " ++ output)%string))
              (fun _ w' =>
                 trace w'
                 = trace w
                   ++ [Mkdir output;
                       WriteText output (trained_model trainedAt X ys);
                       Print ("Model saved to " ++ output)%string]) w2).
    apply wp_bind. eapply wp_len; [exact HX |]. rewrite length_map, Hnrows.
    destruct (length X) as [| n] eqn:HlenX;
      [destruct X; [congruence | discriminate] |].
    cbn [Nat.eqb].
    apply wp_bind. eapply wp_mono.
    { apply (standardize_refines w2 _ rows X 11); auto. split; auto. }
    intros out w3 [-> Hinv3]. cbv beta iota.
    pose proof Hinv3 as (Hlen3 & HX3 & Hrows3 & HM3 & HS3 & Hfr3 & Htr3).
    assert (Hys3 : ints_at w3 (S (length (heap w))) ys).
    { unfold ints_at in *. rewrite Hfr3; auto.
      - apply nth_error_Some. congruence.
      - intros Hin. destruct (Hr _ Hin) as (_ & H2 & _). congruence. }
    apply wp_bind. eapply wp_mono.
    { apply (train_refines w3 _ _ rows (standardized X) ys 11).
      - split; auto.
      - unfold standardized. destruct X; [congruence | discriminate].
      - now apply standardized_lengths.
      - exact Hys3.
      - unfold standardized. rewrite length_map. lia. }
    intros model w4 ((junk & Hh4) & Htr4 & ->). cbv zeta in Hh4 |- *.
    cbn [weights bias].
    apply wp_bind. apply wp_emit.
    apply wp_bind. eapply wp_iter.
    { cbn [heap]. rewrite Hh4. apply nth_error_middle. }
    apply wp_bind. eapply wp_iter.
    { cbn [heap]. rewrite Hh4. apply nth_error_app_Some. exact HM3. }
    apply wp_bind. eapply wp_iter.
    { cbn [heap]. rewrite Hh4. apply nth_error_app_Some. exact HS3. }
    apply wp_bind. apply wp_emit. apply wp_emit.
    cbn [trace]. rewrite Htr4, Htr3, Htr, <- !app_assoc. reflexivity. }
  destruct Hwp as ([] & w' & Hmain & Htrace).
  exists w'. split; auto.
Qed.

(** With no record left, [main] stops at the check of [X]. *)
Lemma main_no_data (trainedAt output : string) (entries : list json)
  (w : world) :
  Forall (fun e => id_of e <> None /\ entry_ok float_of_string e) entries ->
  labels_of (spec_dataset entries) = [] ->
  main float_of_string trainedAt output entries w
  = (Raise (SystemExit "No valid data to train on"),
     {| heap := heap w ++ [[]; []]; trace := trace w |}).
Proof.
  intros Hent Hnone.
  destruct (main_prefix entries w Hent) as (w2 & Hinv & Hrun).
  unfold main. rewrite Hrun. rewrite Hnone in Hinv.
  destruct Hinv as (rows & X & HX & Hrows & Hys & _ & _ & HXys & _ & _ & _
                    & (fresh & Hfresh & Hflen) & Htr).
  destruct X; [| discriminate]. inversion Hrows; subst.
  rewrite (bind_run _ _ 0 _ w2).
  2:{ unfold len. rewrite (bind_run _ _ [] _ w2); [reflexivity |].
      unfold iter. unfold refs_at in HX. now rewrite HX. }
  cbn [Nat.eqb]. unfold raise. f_equal.
  destruct w2 as [h2 t2]. cbn [heap trace] in *. subst t2. f_equal.
  destruct fresh as [| a [| b [| c fresh]]]; try discriminate.
  unfold refs_at, ints_at in *. cbn [heap] in *. rewrite Hfresh in *.
  rewrite nth_error_middle in HX.
  replace (S (length (heap w))) with (length (heap w ++ [a])) in Hys
    by (rewrite length_app; simpl; lia).
  replace (heap w ++ [a; b]) with ((heap w ++ [a]) ++ [b]) in Hys
    by (now rewrite <- app_assoc).
  rewrite nth_error_middle in Hys.
  injection HX as ->. injection Hys as ->. reflexivity.
Qed.

Lemma manual_labels :
  labels_of (spec_dataset (@nil json)) = [1; 1; 1; 1; 1; 1; 1; 1; 1]%Z.
Proof. reflexivity. Qed.

Lemma trained_model_shape (trainedAt : string) (X : list (list F))
  (ys : list Z) :
  Forall (fun row => length row = 11) X ->
  let model := trained_model trainedAt X ys in
  length (m_weights model) = 11 /\
  length (m_means model) = 11 /\
  length (m_stds model) = 11 /\
  m_features model
  = ["activity"; "entropy"; "stdU"; "stdV"; "feed"; "kill"; "threshold";
     "dt"; "contrast"; "gamma"; "invert"]%string.
Proof.
  intros HX. unfold trained_model. cbn [m_weights m_means m_stds m_features].
  rewrite !length_map, length_seq.
  rewrite spec_train_length by (now apply standardized_lengths).
  auto.
Qed.

End Pipeline.



(** The claim counts 8 seeds labeled special; all 9 are. *)
Lemma manual_seeds_not_eight_special :
  length (filter labeled_special (@MANUAL_SEEDS R _)) <> 8.
Proof. discriminate. Qed.

Lemma seed_metric_nonzero (q : Q) :
  Q2R q <> 0%R -> Some (@num R _ q) <> Some (num 0.0).
Proof.
  intros Hq E. injection E as E. simpl in E. rewrite Q2R_0p0 in E.
  contradiction.
Qed.

(** C8, as the code has it: the manual seed set consists of 9 records, all
    9 labeled "special", exactly one of which (manual-7) has all-zero
    metrics; with no external feedback the pipeline completes and writes a
    model whose weights, means and stds each have length 11 and whose
    features list is activity, entropy, stdU, stdV, feed, kill, threshold,
    dt, contrast, gamma, invert. *)
Theorem manual_seeds_pipeline :
  length (@MANUAL_SEEDS R _) = 9 /\
  length (filter labeled_special (@MANUAL_SEEDS R _)) = 9 /\
  (exists e : @json R,
      In e MANUAL_SEEDS /\ id_of e = Some "manual-7"%string /\
      zero_metrics e /\
      forall e', In e' MANUAL_SEEDS -> zero_metrics e' -> e' = e) /\
  forall (float_of_string : string -> option R) (trainedAt output : string)
         (w : @world R),
  exists (model : Model) (w' : world),
    main float_of_string trainedAt output [] w = (Ok tt, w') /\
    trace w'
    = trace w
      ++ [Mkdir output; WriteText output model;
          Print ("Model saved to " ++ output)%string] /\
    length (m_weights model) = 11 /\
    length (m_means model) = 11 /\
    length (m_stds model) = 11 /\
    m_features model
    = ["activity"; "entropy"; "stdU"; "stdV"; "feed"; "kill"; "threshold";
       "dt"; "contrast"; "gamma"; "invert"]%string.
Proof.
  split; [reflexivity |]. split; [reflexivity |]. split.
  - eexists. split; [do 6 right; left; reflexivity |].
    split; [reflexivity |]. split.
    + eexists. split; [reflexivity |]. repeat constructor.
    + intros e' Hin (fields & E & Hall).
      apply Forall_cons_iff in Hall. destruct Hall as [_ Hall].
      apply Forall_cons_iff in Hall. destruct Hall as [Hentropy _].
      unfold MANUAL_SEEDS in Hin. cbn [In] in Hin.
      repeat (destruct Hin as [<- | Hin]); try contradiction;
        injection E as <-; try reflexivity;
        exfalso; revert Hentropy; apply seed_metric_nonzero;
        unfold Q2R; simpl; lra.
  - intros float_of_string trainedAt output w.
    destruct (main_outcome float_of_string trainedAt output [] w)
      as (X & w' & _ & H11 & Hout).
    + constructor.
    + rewrite manual_labels. discriminate.
    + rewrite first_overflow_R in Hout. destruct Hout as [Hrun Htrace].
      destruct (trained_model_shape trainedAt X
                  (labels_of (spec_dataset [])) H11) as (H1 & H2 & H3 & H4).
      eexists _, w'. repeat split; eauto.
Qed.

(* ================================================================= *)
(** ** Binary64: where the results over the reals stop *)

Section Binary64Limits.

Import PrimFloat.

Lemma exp_at_zero_same (libm_exp : float -> float) :
  (forall x, eqb x zero = true -> libm_exp x = one) ->
  exp_at_zero libm_exp = libm_exp.
Proof.
  intros Hexp. apply functional_extensionality. intros x.
  unfold exp_at_zero. destruct (eqb x zero) eqn:E; auto.
  symmetry. auto.
Qed.

Lemma exp_underflowing_same (libm_exp : float -> float) :
  (forall x, leb x (b64_of_Z (-1000)) = true -> libm_exp x = zero) ->
  exp_underflowing libm_exp = libm_exp.
Proof.
  intros Hexp. apply functional_extensionality. intros x.
  unfold exp_underflowing. destruct (leb x (b64_of_Z (-1000))) eqn:E; auto.
  symmetry. auto.
Qed.


(** In binary64 a square of the block can overflow: on the two rows 1e200
    and -1e200 it raises [OverflowError] after creating [means] and
    [stds], and the rows are as they were. *)
Example standardize_b64_overflow (libm_exp : float -> float) :
  let PF := B64_PyFloat libm_exp in
  let x := b64_of_Z (10 ^ 200) in
  standardize (VRef 0)
    {| heap := [[VRef 1; VRef 2]; [VFloat x]; [VFloat (opp x)]];
       trace := [] |}
  = (Raise OverflowError,
     {| heap := [[VRef 1; VRef 2]; [VFloat x]; [VFloat (opp x)];
                 [VFloat zero]; [VFloat zero]];
        trace := [] |}).
Proof. vm_compute. reflexivity. Qed.

(** In binary64 the bounds are reached and the function is flat at both
    ends: when [exp] underflows to zero from -1000 down, as it does under
    rounding to nearest, [logistic(1000.0)] and [logistic(2000.0)] are
    exactly 1.0, and [logistic(-1000.0)] is exactly 0.0. *)
Lemma logistic_b64_saturates :
  exists z1 z2 : float,
    is_finite z1 = true /\ is_finite z2 = true /\ ltb z1 z2 = true /\
    forall libm_exp : float -> float,
      (forall x, leb x (b64_of_Z (-1000)) = true -> libm_exp x = zero) ->
      let PF := B64_PyFloat libm_exp in
      logistic z1 = Ok one /\ logistic z2 = Ok one /\
      logistic (opp z1) = Ok zero.
Proof.
  exists (b64_of_Z 1000), (b64_of_Z 2000).
  split; [vm_compute; reflexivity |].
  split; [vm_compute; reflexivity |].
  split; [vm_compute; reflexivity |].
  intros libm_exp Hexp. rewrite <- (exp_underflowing_same libm_exp Hexp).
  repeat split; vm_compute; reflexivity.
Qed.

(** In binary64 a separable pair can stay undecided: the points 5e-201
    and -5e-201 are their own standardization (the squares underflow, so
    the deviation falls back to 1.0) and lie on either side of zero, but
    every product [w * x] underflows to zero during training; after the
    5000 default epochs the weight is 5.119e-199, the bias 0.0, and both
    points are given exactly 0.5. Only [exp(-0.0)], which is 1, is ever
    taken. *)
Lemma two_point_training_b64 :
  exists x : float,
    ltb zero x = true /\
    forall libm_exp : float -> float,
      (forall z, eqb z zero = true -> libm_exp z = one) ->
      let PF := B64_PyFloat libm_exp in
      let xs := [x] in
      let xn := [opp x] in
      let w0 :=
        {| heap := [[VRef 1; VRef 2]; map VFloat xs; map VFloat xn;
                    [VInt 1; VInt 0]];
           trace := [] |} in
      standardized [xs; xn] = [xs; xn] /\
      fltb (of_Z 0) (dot [flit 1.0] xs) = true /\
      fltb (dot [flit 1.0] xn) (of_Z 0) = true /\
      exists (W : list float) (b : float) (w' : world),
        train_logistic_regression (VRef 0) (VRef 3) None None w0
        = (Ok {| weights := VRef 4; bias := b |}, w') /\
        floats_at w' 4 W /\
        logistic (fadd (dot W xs) b) = Ok 0.5%float /\
        logistic (fadd (dot W xn) b) = Ok 0.5%float.
Proof.
  exists 0x1.87e92154ef7acp-666%float. split; [reflexivity |].
  intros libm_exp Hexp. rewrite <- (exp_at_zero_same libm_exp Hexp).
  intros PF xs xn w0.
  split; [vm_compute; reflexivity |].
  split; [vm_compute; reflexivity |].
  split; [vm_compute; reflexivity |].
  set (r := train_logistic_regression (VRef 0) (VRef 3) None None w0).
  assert (Hr : fst r = Ok {| weights := VRef 4; bias := zero |} /\
               nth_error (heap (snd r)) 4
               = Some [VFloat 0x1.397c6836c60c3p-659%float])
    by (vm_compute; split; reflexivity).
  destruct Hr as [Hfst Hw].
  exists [0x1.397c6836c60c3p-659%float], zero, (snd r).
  split.
  { transitivity (fst r, snd r); [apply surjective_pairing |].
    now rewrite Hfst. }
  split; [exact Hw |].
  split; vm_compute; reflexivity.
Qed.

(** [float] of an int: the largest int that converts, and the first that
    does not. *)
Example py_float_int_range (libm_exp : float -> float) :
  let PF := B64_PyFloat libm_exp in
  py_float (fun _ => None) (JInt (2 ^ 1024 - 2 ^ 970 - 1))
  = Ok 0x1.fffffffffffffp+1023%float /\
  py_float (fun _ => None) (JInt (2 ^ 1024 - 2 ^ 970)) = Raise OverflowError /\
  py_float (fun _ => None) (JInt (- 10 ^ 400)) = Raise OverflowError.
Proof. vm_compute. repeat split. Qed.

(** An int and a float are compared exactly: [2**53 + 1] is not equal to
    the float [2.0**53], although it rounds to it. *)
Example py_eqb_int_float_exact (libm_exp : float -> float) :
  let PF := B64_PyFloat libm_exp in
  py_eqb (JInt (2 ^ 53 + 1)) (JFloat (b64_of_Z (2 ^ 53))) = false /\
  py_eqb (JInt (2 ^ 53)) (JFloat (b64_of_Z (2 ^ 53))) = true /\
  py_eqb (JFloat 0.5%float) (JInt 0) = false /\
  py_eqb (JBool true) (JFloat one) = true /\
  feqb (of_Z (2 ^ 53 + 1)) (b64_of_Z (2 ^ 53)) = true.
Proof. vm_compute. repeat split. Qed.

End Binary64Limits.

(** An int too large for [float] stops the extractor at its field, before
    the later fields are looked at. *)
Example extract_features_huge_int (w : @world R) :
  extract_features (fun _ => None)
    (JDict [("metrics"%string,
             JDict [("activity"%string, JInt (10 ^ 400));
                    ("entropy"%string, JNull)])]) w
  = (Raise OverflowError, w).
Proof. reflexivity. Qed.

(* ================================================================= *)
(** * Further properties of the code *)

(* ================================================================= *)
(** ** The dataset merger: errors and re-merging *)

Section MergerMore.

Context {F : Type} {PF : PyFloat F}.

Local Abbreviation json := (@json F).
Local Abbreviation dict := (@dict F).

Lemma rfold_app {A L : Type} (xs ys : list A) (body : A -> L -> result L)
  (l : L) :
  rfold (xs ++ ys) body l = rbind (rfold xs body l) (rfold ys body).
Proof.
  revert l. induction xs as [| x xs IH]; intros l; simpl; auto.
  destruct (body x l); simpl; auto.
Qed.

Lemma dict_insert_length (k v : json) (d : dict) :
  length d <= length (dict_insert k v d).
Proof.
  induction d as [| [k' v'] d IH]; simpl; [lia |].
  destruct (py_eqb k' k); simpl; lia.
Qed.

Lemma rfold_combine_outcome (entries : list json) (d : dict) :
  match first_id_error entries with
  | Some e => rfold entries combine_entry d = Raise e
  | None => exists d', rfold entries combine_entry d = Ok d' /\
                       length d <= length d'
  end.
Proof.
  revert d. induction entries as [| entry rest IH]; intros d; simpl.
  - eauto.
  - unfold id_error, combine_entry, dict_setitem.
    destruct (py_getitem entry "id") as [k | e]; simpl; auto.
    destruct (hashable k); simpl; auto.
    specialize (IH (dict_insert k entry d)).
    destruct (first_id_error rest); auto.
    destruct IH as (d' & Hrun & Hlen). exists d'. split; auto.
    pose proof (dict_insert_length k entry d). lia.
Qed.

(** X1: [build_dataset] raises exactly when some external entry cannot be
    filed under its [id], and then with the error of the first such entry:
    [KeyError('id')] for a dictionary without [id], [TypeError] for an
    entry that is not a dictionary or whose [id] is a list or a
    dictionary. Otherwise it returns a dataset of at least the 9 manual
    identifiers. *)
Theorem build_dataset_outcome (entries : list json) :
  match first_id_error entries with
  | Some e => build_dataset entries = Raise e
  | None => exists ds, build_dataset entries = Ok ds /\ 9 <= length ds
  end.
Proof.
  unfold build_dataset.
  destruct (rfold_combine MANUAL_SEEDS manual_have_ids [] (fun _ => JNull)
              (NoDup_nil _)) as (valf1 & Hrun1 & _).
  change (dict_of [] (fun _ : string => @JNull F))
    with (@nil (json * json)) in Hrun1.
  rewrite Hrun1. cbn [rbind].
  pose proof (rfold_combine_outcome entries
                (dict_of ([] ++ first_seen [] (ids_of MANUAL_SEEDS)) valf1))
    as Hout.
  destruct (first_id_error entries) as [e |].
  - now rewrite Hout.
  - destruct Hout as (d' & Hrun & Hlen). rewrite Hrun. cbn [rbind].
    eexists. split; [reflexivity |].
    unfold dict_values. rewrite length_map.
    unfold dict_of in Hlen. rewrite length_map in Hlen. exact Hlen.
Qed.


Lemma NoDup_app_disjoint {A : Type} (l l' : list A) (a : A) :
  NoDup (l ++ l') -> In a l -> In a l' -> False.
Proof.
  induction l as [| x l IH]; simpl; intros Hnd Hl Hl'; [contradiction |].
  inversion Hnd as [| ? ? Hx Hrest]; subst.
  destruct Hl as [-> | Hl]; [| now apply IH].
  apply Hx, in_or_app. now right.
Qed.

Lemma first_seen_known (seen ks rest : list string) :
  (forall k, In k ks -> In k seen) ->
  first_seen seen (ks ++ rest) = first_seen seen rest.
Proof.
  induction ks as [| k ks IH]; intros Hks; simpl; auto.
  assert (E : existsb (String.eqb k) seen = true).
  { apply existsb_eqb_In. apply Hks. now left. }
  rewrite E. apply IH. intros k' Hk'. apply Hks. now right.
Qed.

Lemma first_seen_new (seen ks : list string) :
  NoDup ks -> (forall k, In k ks -> ~ In k seen) ->
  first_seen seen ks = ks.
Proof.
  revert seen. induction ks as [| k ks IH]; intros seen Hnd Hnew; simpl; auto.
  inversion Hnd as [| ? ? Hk Hks]; subst.
  destruct (existsb (String.eqb k) seen) eqn:E.
  - apply existsb_eqb_In in E. exfalso. apply (Hnew k); [now left | exact E].
  - f_equal. apply IH; auto.
    intros k' Hk' [<- | Hin]; [contradiction |].
    apply (Hnew k'); [now right | exact Hin].
Qed.

Lemma find_by_id (valf : string -> json) (ks : list string) (k : string) :
  (forall k', In k' ks -> id_of (valf k') = Some k') ->
  In k ks ->
  find (has_id k) (rev (map valf ks)) = Some (valf k).
Proof.
  intros Hid Hk.
  destruct (find (has_id k) (rev (map valf ks))) as [e |] eqn:Hf.
  - apply find_some in Hf. destruct Hf as [Hin He].
    apply in_rev, in_map_iff in Hin. destruct Hin as (k' & <- & Hk').
    apply has_id_true in He. rewrite (Hid k' Hk') in He.
    now injection He as ->.
  - exfalso. apply (find_rev_entries (map valf ks) k); auto.
    exists (valf k). split; [now apply in_map |].
    apply has_id_true. now apply Hid.
Qed.

(** Inserting the records of a dictionary, in its order, into a
    dictionary that holds a prefix of its keys gives it back. *)
Lemma rfold_own_items (keys news : list string) (valf0 valf : string -> json) :
  NoDup (keys ++ news) ->
  (forall k, In k (keys ++ news) -> id_of (valf k) = Some k) ->
  rfold (map valf (keys ++ news)) combine_entry (dict_of keys valf0)
  = Ok (dict_of (keys ++ news) valf).
Proof.
  intros Hnd Hid.
  assert (Hent : Forall (fun e : json => id_of e <> None)
                   (map valf (keys ++ news))).
  { apply Forall_forall. intros e He. apply in_map_iff in He.
    destruct He as (k & <- & Hk). rewrite (Hid k Hk). discriminate. }
  assert (Hids : ids_of (map valf (keys ++ news)) = keys ++ news).
  { unfold ids_of. rewrite flat_map_concat_map, map_map.
    rewrite <- flat_map_concat_map.
    rewrite (flat_map_singletons _ (fun k => k)); [apply map_id |].
    intros k Hk. now rewrite (Hid k Hk). }
  destruct (rfold_combine _ Hent keys valf0 (NoDup_app_remove_r _ _ Hnd))
    as (valf' & Hrun & _ & Hval).
  rewrite Hrun, Hids. f_equal.
  rewrite first_seen_known by auto.
  rewrite first_seen_new.
  - unfold dict_of. apply map_ext_in. intros k Hk.
    rewrite Hval, find_by_id; auto.
  - now apply NoDup_app_remove_l in Hnd.
  - intros k Hk Hin. exact (NoDup_app_disjoint _ _ k Hnd Hin Hk).
Qed.

(** X2: merging is stable. For external entries with string identifiers,
    feeding the merged dataset back in returns it unchanged, and feeding
    it back together with further entries gives what merging the original
    entries with those further entries gives, errors included. *)
Theorem build_dataset_remerge (entries more ds : list json) :
  Forall (fun e : json => id_of e <> None) entries ->
  build_dataset entries = Ok ds ->
  build_dataset ds = Ok ds /\
  build_dataset (ds ++ more) = build_dataset (entries ++ more).
Proof.
  intros Hent Hds.
  destruct (rfold_combine MANUAL_SEEDS manual_have_ids [] (fun _ => JNull)
              (NoDup_nil _)) as (valf1 & Hrun1 & Hnd1 & _).
  rewrite app_nil_l, manual_first_seen in Hrun1, Hnd1.
  change (dict_of [] (fun _ : string => @JNull F))
    with (@nil (json * json)) in Hrun1.
  destruct (rfold_combine entries Hent (ids_of MANUAL_SEEDS) valf1 Hnd1)
    as (valf2 & Hrun2 & Hnd2 & _).
  destruct (merged_by_id entries Hent) as (valf & Hrun & _ & _ & Hpick).
  cbv zeta in Hrun, Hpick.
  set (news := first_seen (ids_of MANUAL_SEEDS) (ids_of entries)) in *.
  assert (Hsame : map valf2 (ids_of MANUAL_SEEDS ++ news) = ds
                  /\ map valf (ids_of MANUAL_SEEDS ++ news) = ds).
  { split; [| rewrite Hrun in Hds; now injection Hds].
    unfold build_dataset in Hds. rewrite Hrun1 in Hds. cbn [rbind] in Hds.
    rewrite Hrun2 in Hds. cbn [rbind] in Hds.
    unfold dict_values, dict_of in Hds. rewrite map_map in Hds.
    now injection Hds. }
  destruct Hsame as [Hds2 Hds1].
  assert (Hid : forall k, In k (ids_of MANUAL_SEEDS ++ news) ->
                          id_of (valf2 k) = Some k).
  { intros k Hk. apply has_id_true.
    assert (E : valf2 k = valf k).
    { apply (ext_in_map (f := valf2) (g := valf)
               (l := ids_of MANUAL_SEEDS ++ news)); [congruence | exact Hk]. }
    rewrite E. now apply Hpick. }
  assert (Hback : rfold ds combine_entry (dict_of (ids_of MANUAL_SEEDS) valf1)
                  = Ok (dict_of (ids_of MANUAL_SEEDS ++ news) valf2)).
  { rewrite <- Hds2. now apply rfold_own_items. }
  assert (Hmore : build_dataset (ds ++ more) = build_dataset (entries ++ more)).
  { unfold build_dataset. rewrite Hrun1. cbn [rbind].
    rewrite !rfold_app, Hback, Hrun2. reflexivity. }
  split; [| exact Hmore].
  unfold build_dataset. rewrite Hrun1. cbn [rbind]. rewrite Hback.
  cbn [rbind]. unfold dict_values, dict_of. rewrite map_map.
  f_equal. exact Hds2.
Qed.

End MergerMore.

Lemma build_dataset_remerge_witness :
  let e1 : @json R :=
    JDict [("id"%string, JStr "manual-1"); ("label"%string, JStr "normal")] in
  let e2 : @json R := JDict [("id"%string, JStr "seed-42")] in
  let ds := (e1 :: tl MANUAL_SEEDS) ++ [e2] in
  build_dataset ds = Ok ds /\
  build_dataset (ds ++ [e2; e1]) = build_dataset ([e1; e2; e1] ++ [e2; e1]).
Proof.
  intros e1 e2 ds.
  apply (build_dataset_remerge [e1; e2; e1] [e2; e1] ds).
  - repeat constructor; discriminate.
  - reflexivity.
Defined.

(* ================================================================= *)
(** ** The feature extractor: outcomes and what it reads *)

Section ExtractorMore.

Context {F : Type} {PF : PyFloat F}.
Variable float_of_string : string -> option F.

Local Abbreviation world := (@world F).
Local Abbreviation json := (@json F).
Local Abbreviation val := (@val F).
Local Abbreviation M := (@M F).
Local Open Scope string_scope.

Lemma outcome_bind_lift {A : Type} (r : result A) (k : A -> M val)
  (n : nat) :
  (forall a, r = Ok a ->
     (exists e, fails_with (k a) e) \/
     (exists xs : list F, length xs = n /\ makes_list (k a) (map VFloat xs))) ->
  (exists e, fails_with (bind (lift r) k) e) \/
  (exists xs : list F,
      length xs = n /\ makes_list (bind (lift r) k) (map VFloat xs)).
Proof.
  intros Hk. destruct r as [a | e].
  - exact (Hk a eq_refl).
  - left. exists e. intros w. reflexivity.
Qed.

(** X3: on any value at all, [extract_features] either raises and leaves
    the state untouched, or creates one list of exactly 11 floats and does
    nothing else; which of the two, the exception and the floats do not
    depend on the state. *)
Theorem extract_features_outcomes (entry : json) :
  (exists e, fails_with (extract_features float_of_string entry) e) \/
  (exists xs : list F,
      length xs = 11 /\
      makes_list (extract_features float_of_string entry) (map VFloat xs)).
Proof.
  unfold extract_features.
  do 13 (apply outcome_bind_lift; intros ? _).
  right. eexists [_; _; _; _; _; _; _; _; _; _; _].
  split; [reflexivity |]. intros w. reflexivity.
Qed.

(** X4: when the entry is not a dictionary, or its [metrics] is present
    and is not a dictionary (null, a number, a string, a list),
    [extract_features] raises [AttributeError] and creates nothing. *)
Theorem extract_features_needs_dicts (entry : json) :
  match entry with
  | JDict fields =>
      match assoc "metrics" fields with
      | None | Some (JDict _) => False
      | Some _ => True
      end
  | _ => True
  end ->
  fails_with (extract_features float_of_string entry) AttributeError.
Proof.
  intros Hbad w. unfold extract_features.
  destruct entry as [| | | | | | fields]; try reflexivity.
  unfold py_get at 1.
  destruct (assoc "metrics" fields) as [[| | | | | | inner] |];
    try contradiction;
    (destruct (py_get (JDict fields) "params" (JDict [])) eqn:E;
     [reflexivity | unfold py_get in E; destruct (assoc "params" fields);
                    discriminate]).
Qed.

Lemma float_field_same (m1 m2 : list (string * json)) (k : string) (d : Q) :
  assoc k m1 = assoc k m2 ->
  float_field float_of_string (JDict m1) k d
  = float_field float_of_string (JDict m2) k d.
Proof. intros E. unfold float_field, py_get. now rewrite E. Qed.

(** X5: [extract_features] reads the ten numeric feature fields and
    [invert], and nothing else: two records whose sections are
    dictionaries and that agree on these eleven fields give the same
    result, whatever their [id], [label] or other fields such as [du] and
    [dv]. *)
Theorem extract_features_reads_only_features
  (fields1 fields2 : list (string * json)) :
  section_ok fields1 "metrics" -> section_ok fields1 "params" ->
  section_ok fields2 "metrics" -> section_ok fields2 "params" ->
  Forall (fun rule : string * string * Q =>
            field_of fields1 (fst (fst rule)) (snd (fst rule))
            = field_of fields2 (fst (fst rule)) (snd (fst rule)))
    NUMERIC_FEATURES ->
  field_of fields1 "params" "invert" = field_of fields2 "params" "invert" ->
  forall w : world,
    extract_features float_of_string (JDict fields1) w
    = extract_features float_of_string (JDict fields2) w.
Proof.
  intros Hm1 Hp1 Hm2 Hp2 Hsame Hinv w.
  destruct (section_get fields1 "metrics" Hm1) as (ms1 & Hgm1 & Hfm1).
  destruct (section_get fields1 "params" Hp1) as (ps1 & Hgp1 & Hfp1).
  destruct (section_get fields2 "metrics" Hm2) as (ms2 & Hgm2 & Hfm2).
  destruct (section_get fields2 "params" Hp2) as (ps2 & Hgp2 & Hfp2).
  unfold NUMERIC_FEATURES in Hsame.
  repeat match goal with
         | H : Forall _ (_ :: _) |- _ =>
             let E := fresh "E" in
             apply Forall_cons_iff in H; destruct H as [E H];
             cbn [fst snd] in E
         end.
  clear Hsame.
  rewrite Hfm1, Hfm2 in *. rewrite Hfp1, Hfp2 in *.
  unfold extract_features.
  rewrite (bind_lift_ok _ _ _ _ Hgm1), (bind_lift_ok _ _ _ _ Hgp1).
  rewrite (bind_lift_ok _ _ _ _ Hgm2), (bind_lift_ok _ _ _ _ Hgp2).
  repeat match goal with
         | E : assoc ?k ms1 = assoc ?k ms2 |- _ =>
             rewrite (float_field_same ms1 ms2 k _ E); clear E
         | E : assoc ?k ps1 = assoc ?k ps2 |- _ =>
             try rewrite (float_field_same ps1 ps2 k _ E);
             try (unfold py_get at 1; rewrite E; fold (py_get (JDict ps2) k JNull));
             clear E
         end.
  reflexivity.
Qed.


Lemma float_field_raise (fields inner : list (string * json))
  (section key : string) (dflt : Q) (v : json) (e : exn) :
  (forall k, field_of fields section k = assoc k inner) ->
  field_of fields section key = Some v ->
  py_float float_of_string v = Raise e ->
  float_field float_of_string (JDict inner) key dflt = Raise e.
Proof.
  intros Hin Hv He. unfold float_field, py_get.
  rewrite <- Hin, Hv. exact He.
Qed.

(** X6: the first feature field, in the order of [FEATURES], that is
    present but cannot be converted by [float] decides the error:
    [TypeError] for null, a list or a dictionary, [ValueError] for a
    string that is not a number, [OverflowError] for an int beyond the
    range of the floats. Nothing is created. *)
Theorem extract_features_first_bad_field (fields : list (string * json))
  (i : nat) (section key : string) (dflt : Q) (xs : list F) (v : json)
  (e : exn) :
  section_ok fields "metrics" -> section_ok fields "params" ->
  nth_error NUMERIC_FEATURES i = Some (section, key, dflt) ->
  Forall2 (field_rule float_of_string fields) (firstn i NUMERIC_FEATURES) xs ->
  field_of fields section key = Some v ->
  py_float float_of_string v = Raise e ->
  fails_with (extract_features float_of_string (JDict fields)) e.
Proof.
  intros Hm Hp Hi Hpre Hv He w.
  destruct (section_get fields "metrics" Hm) as (ms & Hgm & Hfm).
  destruct (section_get fields "params" Hp) as (ps & Hgp & Hfp).
  unfold extract_features.
  rewrite (bind_lift_ok _ _ _ _ Hgm), (bind_lift_ok _ _ _ _ Hgp).
  unfold NUMERIC_FEATURES in Hi, Hpre.
  do 10 (destruct i as [| i];
         [ cbn [nth_error] in Hi; injection Hi as <- <- <-;
           cbn [firstn] in Hpre;
           repeat match goal with
                  | H : Forall2 _ (_ :: _) _ |- _ =>
                      let Hx := fresh "Hx" in
                      inversion H as [| ? ? ? ? Hx ?]; subst; clear H
                  | H : Forall2 _ [] _ |- _ => clear H
                  end;
           repeat match goal with
                  | H : field_rule _ _ ("metrics", _, _) _ |- _ =>
                      rewrite (bind_lift_ok _ _ _ _
                                 (float_field_ok _ _ _ _ _ _ _ Hfm H));
                      clear H
                  | H : field_rule _ _ ("params", _, _) _ |- _ =>
                      rewrite (bind_lift_ok _ _ _ _
                                 (float_field_ok _ _ _ _ _ _ _ Hfp H));
                      clear H
                  end;
           first [ rewrite (float_field_raise _ _ _ _ _ _ _ Hfm Hv He)
                 | rewrite (float_field_raise _ _ _ _ _ _ _ Hfp Hv He) ];
           reflexivity
         | cbn [nth_error] in Hi ]).
  destruct i; discriminate.
Qed.

End ExtractorMore.

Lemma extract_features_needs_dicts_witness :
  let w0 : @world R := {| heap := [[VInt 1]]; trace := [] |} in
  extract_features (fun _ => None) (JDict [("metrics"%string, JList [])]) w0
  = (Raise AttributeError, w0).
Proof.
  intros w0.
  apply (extract_features_needs_dicts (fun _ : string => @None R)
           (JDict [("metrics"%string, JList [])])).
  exact I.
Defined.

Lemma extract_features_reads_only_features_witness :
  let w0 : @world R := {| heap := []; trace := [] |} in
  extract_features (fun _ => None)
    (JDict [("id"%string, JStr "a");
            ("params"%string,
             JDict [("du"%string, JInt 3); ("dt"%string, JInt 2)])]) w0
  = extract_features (fun _ => None)
      (JDict [("params"%string, JDict [("dt"%string, JInt 2)]);
              ("label"%string, JStr "special")]) w0.
Proof.
  intros w0.
  apply (extract_features_reads_only_features (fun _ : string => @None R)).
  - exact I.
  - exact I.
  - exact I.
  - exact I.
  - repeat constructor.
  - reflexivity.
Defined.

Lemma extract_features_first_bad_field_witness :
  let w0 : @world R := {| heap := []; trace := [] |} in
  extract_features (fun _ => None)
    (JDict [("metrics"%string,
             JDict [("activity"%string, JInt 1);
                    ("entropy"%string, JNull)])]) w0
  = (Raise TypeError, w0).
Proof.
  intros w0.
  apply (extract_features_first_bad_field (fun _ : string => @None R)
           [("metrics"%string,
             JDict [("activity"%string, JInt 1); ("entropy"%string, JNull)])]
           1 "metrics" "entropy" 0.0%Q [IZR 1] JNull TypeError).
  - exact I.
  - exact I.
  - reflexivity.
  - repeat constructor.
  - reflexivity.
  - reflexivity.
Defined.

(* ================================================================= *)
(** ** The logistic function: symmetry, and overflow in binary64 *)

(** X7: over the reals, [logistic(-z)] and [logistic(z)] add up to 1. *)
Theorem logistic_reflection (z : R) :
  exists p q : R,
    logistic z = Ok p /\ logistic (- z)%R = Ok q /\ (p + q = 1)%R.
Proof.
  exists (1 / (1 + exp (- z)))%R, (1 / (1 + exp (- - z)))%R.
  split; [apply logistic_R |]. split; [apply logistic_R |].
  rewrite Ropp_involutive.
  pose proof (exp_pos z) as Hz. pose proof (exp_pos (- z)) as Hn.
  assert (E : (exp z * exp (- z) = 1)%R).
  { rewrite <- exp_plus. replace (z + - z)%R with 0%R by ring. apply exp_0. }
  field_simplify_eq; [nra | split; lra].
Qed.

Section Binary64.

Import SpecFloat FloatOps FloatAxioms.

Variable libm_exp : PrimFloat.float -> PrimFloat.float.

Lemma b64_exp_max_spec :
  exists m e, Prim2SF b64_exp_max = S754_finite false m e.
Proof. eexists _, _. vm_compute. reflexivity. Qed.

Lemma b64_zero_spec : Prim2SF (b64_of_Z 0) = S754_zero false.
Proof. reflexivity. Qed.

Lemma b64_nonneg_opp_in_range (z : PrimFloat.float) :
  PrimFloat.leb (b64_of_Z 0) z = true ->
  PrimFloat.ltb b64_exp_max (PrimFloat.opp z) = false.
Proof.
  rewrite leb_spec, ltb_spec, opp_spec, b64_zero_spec.
  destruct b64_exp_max_spec as (m & e & ->).
  destruct (Prim2SF z) as [s | s | | s mz ez]; try destruct s; simpl;
    try discriminate; reflexivity.
Qed.

Lemma b64_neg_in_range (z : PrimFloat.float) :
  PrimFloat.leb (b64_of_Z 0) z = false ->
  PrimFloat.ltb b64_exp_max z = false.
Proof.
  rewrite leb_spec, ltb_spec, b64_zero_spec.
  destruct b64_exp_max_spec as (m & e & ->).
  destruct (Prim2SF z) as [s | s | | s mz ez]; try destruct s; simpl;
    try discriminate; reflexivity.
Qed.

(** X8: in binary64 arithmetic, whatever the C library's [exp] returns,
    [logistic] never raises [OverflowError], for no input, infinities and
    NaN included: [math.exp] is only called on arguments that are not
    positive. The only exception left is [ZeroDivisionError], when [exp]
    returns exactly -1. *)
Theorem logistic_b64_never_overflows (z : PrimFloat.float) :
  (exists v, @logistic _ (B64_PyFloat libm_exp) z = Ok v) \/
  @logistic _ (B64_PyFloat libm_exp) z = Raise ZeroDivisionError.
Proof.
  unfold logistic, math_exp, py_div. cbn [B64_PyFloat fleb fexp_in_range
    of_Z fneg fexp feqb fadd flit fdiv].
  destruct (PrimFloat.leb (b64_of_Z 0) z) eqn:E.
  - rewrite (b64_nonneg_opp_in_range z E). cbn [negb orb rbind].
    match goal with |- context [if ?c then _ else _] => destruct c end;
      [right; reflexivity | left; eexists; reflexivity].
  - rewrite (b64_neg_in_range z E). cbn [negb orb rbind].
    match goal with |- context [if ?c then _ else _] => destruct c end;
      [right; reflexivity | left; eexists; reflexivity].
Qed.

End Binary64.

(* ================================================================= *)
(** ** The trainer: degenerate inputs *)

Section TrainerEdges.

Context {F : Type} {PF : PyFloat F}.

Local Abbreviation M := (@M F).
Local Abbreviation world := (@world F).
Local Abbreviation val := (@val F).

Lemma range_nonpos (n : Z) : (n <= 0)%Z -> range n = [].
Proof.
  intros Hn. unfold range. replace (Z.to_nat n) with 0 by lia. reflexivity.
Qed.

(** X9: on an empty matrix the trainer raises [IndexError] (from [X[0]])
    before it creates anything, whatever the labels and the
    configuration. *)
Theorem train_empty_matrix (w : world) (Xl : nat) (y : val)
  (epochs : option Z) (lr : option F) :
  nth_error (heap w) Xl = Some [] ->
  train_logistic_regression (VRef Xl) y epochs lr w = (Raise IndexError, w).
Proof.
  intros HX. unfold train_logistic_regression, len, getitem, bind, iter.
  rewrite HX. cbn [ret length]. rewrite HX. reflexivity.
Qed.

(** X10: with an epoch count of zero or less the trainer returns the zero
    model: a new list of [len(X[0])] zeros and bias 0.0. Only the matrix
    and its first row are looked at; the labels are not read. *)
Theorem train_zero_epochs (w : world) (Xl r0 : nat) (rows row0 : list val)
  (y : val) (epochs : Z) (lr : option F) :
  nth_error (heap w) Xl = Some (VRef r0 :: rows) ->
  nth_error (heap w) r0 = Some row0 ->
  (epochs <= 0)%Z ->
  train_logistic_regression (VRef Xl) y (Some epochs) lr w
  = (Ok {| weights := VRef (length (heap w)); bias := flit 0.0 |},
     {| heap := heap w ++ [repeat (VFloat (flit 0.0)) (length row0)];
        trace := trace w |}).
Proof.
  intros HX Hr0 He.
  unfold train_logistic_regression. rewrite (range_nonpos epochs He).
  unfold len, getitem, bind, iter, alloc.
  rewrite HX. cbn [ret nth_error]. rewrite HX. cbn [ret nth_error].
  rewrite Hr0. reflexivity.
Qed.

End TrainerEdges.

Lemma train_empty_matrix_witness :
  let w0 : @world R := {| heap := [[]]; trace := [] |} in
  train_logistic_regression (VRef 0) (VRef 7) None None w0
  = (Raise IndexError, w0).
Proof.
  intros w0. apply (train_empty_matrix w0 0 (VRef 7) None None). reflexivity.
Defined.

Lemma train_zero_epochs_witness :
  let w0 : @world R :=
    {| heap := [[VRef 1]; [VFloat 2%R; VFloat 3%R]]; trace := [] |} in
  train_logistic_regression (VRef 0) (VInt 0) (Some (-5)%Z) None w0
  = (Ok {| weights := VRef 2; bias := flit 0.0 |},
     {| heap := [[VRef 1]; [VFloat 2%R; VFloat 3%R];
                 [VFloat (flit 0.0); VFloat (flit 0.0)]];
        trace := [] |}).
Proof.
  intros w0.
  apply (train_zero_epochs w0 0 1 [] [VFloat 2%R; VFloat 3%R] (VInt 0)
           (-5)%Z None).
  - reflexivity.
  - reflexivity.
  - lia.
Defined.

Section TrainerLabels.

Context {F : Type} {PF : PyFloat F} {PL : PyFloatLaws F}.

Local Abbreviation M := (@M F).
Local Abbreviation world := (@world F).
Local Abbreviation val := (@val F).

Lemma combine_surplus {A B : Type} (xs : list A) (ys extra : list B) :
  length ys = length xs -> combine xs (ys ++ extra) = combine xs ys.
Proof.
  revert ys. induction xs as [| x xs IH]; intros [| y ys] Hlen;
    simpl in *; try discriminate; auto.
  f_equal. apply IH. lia.
Qed.

Lemma spec_train_surplus (nF : nat) (X : list (list F)) (ys extra : list Z)
  (epochs : Z) (lr : F) :
  length ys = length X ->
  spec_train nF X (ys ++ extra) epochs lr = spec_train nF X ys epochs lr.
Proof.
  intros Hlen. unfold spec_train.
  generalize (repeat (flit 0.0) nF, flit 0.0, lr) as s.
  induction (range epochs) as [| e es IH]; intros s; simpl; auto.
  rewrite IH. f_equal.
  destruct s as [[W b] l]. unfold spec_epoch, spec_errors.
  now rewrite combine_surplus.
Qed.

(** X11: the trainer does not compare [len(y)] with [len(X)]: [zip] pairs
    rows and labels, and labels beyond the last row are ignored. With
    surplus labels it returns exactly the model trained on the first
    [len(X)] labels. *)
Theorem train_ignores_surplus_labels (w : world) (Xl yl : nat)
  (rows : list nat) (X : list (list F)) (ys extra : list Z) (nF : nat)
  (epochs : option Z) (lr : option F) :
  matrix_at w Xl rows X ->
  1 <= length X ->
  Forall (fun row => length row = nF) X ->
  ints_at w yl (ys ++ extra) ->
  length ys = length X ->
  exists (W : list F) (b lr_final : F) (w' : world),
    spec_train nF X ys
      (match epochs with Some e => e | None => 5000%Z end)
      (match lr with Some r => r | None => flit 0.05 end)
    = (W, b, lr_final) /\
    train_logistic_regression (VRef Xl) (VRef yl) epochs lr w
    = (Ok {| weights := VRef (length (heap w)); bias := b |}, w') /\
    floats_at w' (length (heap w)) W.
Proof.
  intros HX HN Hlen Hy Hylen.
  assert (Hne : X <> []) by (destruct X; simpl in HN; [lia | discriminate]).
  destruct (train_refines_zip w Xl yl rows X (ys ++ extra) nF epochs lr
              HX Hne Hlen Hy)
    as (model & w' & Hrun & (junk & Hheap) & _ & Hmodel).
  cbv zeta in Hheap, Hmodel.
  rewrite spec_train_surplus in Hheap, Hmodel by exact Hylen.
  destruct (spec_train nF X ys _ _) as [[W b] lrf] eqn:Hspec.
  cbn [fst snd] in Hheap, Hmodel.
  exists W, b, lrf, w'. split; [reflexivity |]. split.
  - rewrite Hrun. now subst model.
  - unfold floats_at. rewrite Hheap. apply nth_error_middle.
Qed.

End TrainerLabels.

Lemma train_ignores_surplus_labels_witness :
  let w0 : @world R :=
    {| heap := [[VRef 1; VRef 2]; [VFloat 1%R; VFloat 0%R];
                [VFloat (-1)%R; VFloat 0%R];
                [VInt 1; VInt 0; VInt 1; VInt 1]];
       trace := [] |} in
  exists (W : list R) (b lr_final : R) (w' : world),
    spec_train 2 [[1%R; 0%R]; [(-1)%R; 0%R]] [1%Z; 0%Z] 5000 (flit 0.05)
    = (W, b, lr_final) /\
    train_logistic_regression (VRef 0) (VRef 3) None None w0
    = (Ok {| weights := VRef 4; bias := b |}, w') /\
    floats_at w' 4 W.
Proof.
  intros w0.
  apply (train_ignores_surplus_labels w0 0 3 [1; 2]
           [[1%R; 0%R]; [(-1)%R; 0%R]] [1%Z; 0%Z] [1%Z; 1%Z] 2 None None).
  - split; [reflexivity |]. repeat constructor.
  - simpl. lia.
  - repeat constructor.
  - reflexivity.
  - reflexivity.
Defined.

(* ================================================================= *)
(** ** The trainer over the reals: single class, constant features, order *)

Section TrainerReal.

Local Open Scope R_scope.

Lemma Q2R_0p9 : Q2R 0.9 = 9 / 10.
Proof. unfold Q2R. simpl. lra. Qed.

Lemma Rsum_negative (xs : list R) :
  xs <> [] -> Forall (fun v => v < 0) xs -> Rsum xs < 0.
Proof.
  intros Hne Hall. induction Hall as [| x xs Hx Hxs IH]; [congruence |].
  simpl. destruct xs as [| x' xs'].
  - simpl. lra.
  - assert (Rsum (x' :: xs') < 0) by (apply IH; discriminate).
    unfold Rsum in *. lra.
Qed.

Lemma Rsum_positive (xs : list R) :
  xs <> [] -> Forall (fun v => 0 < v) xs -> 0 < Rsum xs.
Proof.
  intros Hne Hall. induction Hall as [| x xs Hx Hxs IH]; [congruence |].
  simpl. destruct xs as [| x' xs'].
  - simpl. lra.
  - assert (0 < Rsum (x' :: xs')) by (apply IH; discriminate).
    unfold Rsum in *. lra.
Qed.

Lemma spec_gradB_R (errs : list R) : spec_gradB errs = Rsum errs.
Proof.
  unfold spec_gradB. simpl. rewrite fold_left_Rplus, Q2R_0p0. lra.
Qed.

(** The bias after one epoch. *)
Lemma spec_epoch_bias (nF : nat) (X : list (list R)) (ys : list Z)
  (W : list R) (b lr : R) (epoch : Z) :
  snd (fst (spec_epoch nF X ys (W, b, lr) epoch))
  = b - lr * (Rsum (spec_errors X ys W b) / INR (length X)).
Proof.
  unfold spec_epoch. cbn [fst snd]. rewrite spec_gradB_R. simpl.
  now rewrite <- INR_IZR_INZ.
Qed.

Lemma spec_errors_sign (X : list (list R)) (ys : list Z) (W : list R)
  (b : R) :
  (Forall (fun y => y = 1%Z) ys ->
   Forall (fun v => v < 0) (spec_errors X ys W b)) /\
  (Forall (fun y => y = 0%Z) ys ->
   Forall (fun v => 0 < v) (spec_errors X ys W b)).
Proof.
  unfold spec_errors.
  split; intros Hys; apply Forall_forall; intros v Hv;
    apply in_map_iff in Hv; destruct Hv as ([row y] & <- & Hin);
    apply in_combine_r in Hin; rewrite Forall_forall in Hys;
    rewrite (Hys y Hin); cbn [fst snd]; rewrite logistic_value_R;
    pose proof (sigmoid_bounds (dot W row + b)); simpl; lra.
Qed.

Lemma spec_errors_nonempty (X : list (list R)) (ys : list Z) (W : list R)
  (b : R) :
  X <> [] -> length ys = length X -> spec_errors X ys W b <> [].
Proof.
  unfold spec_errors. destruct X, ys; simpl; try discriminate; congruence.
Qed.

Lemma spec_epochs_bias (nF : nat) (X : list (list R)) (ys : list Z)
  (es : list Z) :
  X <> [] -> length ys = length X ->
  forall (W : list R) (b lr : R),
    0 < lr ->
    let b' := snd (fst (fold_left (spec_epoch nF X ys) es (W, b, lr))) in
    (Forall (fun y => y = 1%Z) ys -> b <= b' /\ (es <> [] -> b < b')) /\
    (Forall (fun y => y = 0%Z) ys -> b' <= b /\ (es <> [] -> b' < b)).
Proof.
  intros Hne Hlen.
  assert (HN : 0 < INR (length X)).
  { apply lt_0_INR. destruct X; simpl; [congruence | lia]. }
  induction es as [| e es IH]; intros W b lr Hlr; cbv zeta.
  - simpl. split; intros _; split; try lra; congruence.
  - cbn [fold_left].
    destruct (spec_epoch nF X ys (W, b, lr) e) as [[W1 b1] lr1] eqn:E.
    assert (Hb1 : b1 = b - lr * (Rsum (spec_errors X ys W b) / INR (length X))).
    { rewrite <- (spec_epoch_bias nF X ys W b lr e). now rewrite E. }
    assert (Hlr1 : 0 < lr1).
    { pose proof (spec_epoch_rate nF X ys W b lr e) as Hr.
      rewrite E in Hr. cbn [snd] in Hr. rewrite Hr.
      destruct ((e mod 1000 =? 0)%Z && (0 <? e)%Z); [| exact Hlr].
      simpl. rewrite Q2R_0p9. lra. }
    specialize (IH W1 b1 lr1 Hlr1). cbv zeta in IH.
    destruct IH as [IH1 IH0].
    pose proof (spec_errors_nonempty X ys W b Hne Hlen) as Herr.
    destruct (spec_errors_sign X ys W b) as [Hneg Hpos].
    split; intros Hys.
    + destruct (IH1 Hys) as [Hle _].
      pose proof (Rsum_negative _ Herr (Hneg Hys)) as Hs.
      assert (Rsum (spec_errors X ys W b) / INR (length X) < 0).
      { apply Rmult_neg_pos; [exact Hs | now apply Rinv_0_lt_compat]. }
      assert (b < b1) by (rewrite Hb1; nra).
      split; [lra | intros _; lra].
    + destruct (IH0 Hys) as [Hle _].
      pose proof (Rsum_positive _ Herr (Hpos Hys)) as Hs.
      assert (0 < Rsum (spec_errors X ys W b) / INR (length X)).
      { apply Rmult_lt_0_compat; [exact Hs | now apply Rinv_0_lt_compat]. }
      assert (b1 < b) by (rewrite Hb1; nra).
      split; [lra | intros _; lra].
Qed.

(** X12: over the reals, with at least one epoch and a positive rate,
    training on examples that are all labeled 1 ends with a positive bias
    and training on examples that are all labeled 0 with a negative one:
    every epoch moves the bias towards the only class. *)
Theorem train_single_class_bias (w : @world R) (Xl yl : nat)
  (rows : list nat) (X : list (list R)) (ys : list Z) (nF : nat)
  (epochs : Z) (lr : R) :
  matrix_at w Xl rows X ->
  (1 <= length X)%nat ->
  Forall (fun row => length row = nF) X ->
  ints_at w yl ys ->
  length ys = length X ->
  (1 <= epochs)%Z ->
  0 < lr ->
  exists (model : trained) (w' : world),
    train_logistic_regression (VRef Xl) (VRef yl) (Some epochs) (Some lr) w
    = (Ok model, w') /\
    (Forall (fun y => y = 1%Z) ys -> 0 < bias model) /\
    (Forall (fun y => y = 0%Z) ys -> bias model < 0).
Proof.
  intros HX HN Hrowlen Hy Hylen He Hlr.
  assert (Hne : X <> []) by (destruct X; simpl in HN; [lia | discriminate]).
  destruct (train_refines w Xl yl rows X ys nF (Some epochs) (Some lr)
              HX Hne Hrowlen Hy Hylen)
    as (model & w' & Hrun & _ & _ & Hmodel).
  cbv zeta in Hmodel.
  exists model, w'. split; [exact Hrun |].
  assert (Hes : range epochs <> []).
  { unfold range. destruct (Z.to_nat epochs) eqn:E; [lia | discriminate]. }
  pose proof (spec_epochs_bias nF X ys (range epochs) Hne Hylen
                (repeat (flit 0.0) nF) (flit 0.0) lr Hlr) as Hb.
  cbv zeta in Hb. fold (spec_train nF X ys epochs lr) in Hb.
  subst model. cbn [bias].
  change (@flit R _ 0.0) with (Q2R 0.0) in Hb. rewrite Q2R_0p0 in Hb.
  destruct Hb as [H1 H0].
  split; intros Hys.
  - destruct (H1 Hys) as [_ Hlt]. now apply Hlt.
  - destruct (H0 Hys) as [_ Hlt]. now apply Hlt.
Qed.


Lemma nth_map_combine_zero (f : R * R -> R) (a b : list R) (j : nat) :
  f (0, 0) = 0 -> nth j a 0 = 0 -> nth j b 0 = 0 ->
  nth j (map f (combine a b)) 0 = 0.
Proof.
  intros Hf. revert b j.
  induction a as [| x a IH]; intros [| y b] [| j] Ha Hb; simpl in *; auto.
  now subst.
Qed.

Lemma nth_repeat_zero (n j : nat) : nth j (repeat 0 n) 0 = 0.
Proof. revert j; induction n; intros [| j]; simpl; auto. Qed.

Lemma spec_gradW_zero_column (nF : nat) (X : list (list R)) (errs : list R)
  (j : nat) :
  Forall (fun row => nth j row 0 = 0) X ->
  nth j (spec_gradW nF X errs) 0 = 0.
Proof.
  intros HX. unfold spec_gradW.
  assert (H0 : nth j (repeat (@flit R _ 0.0) nF) 0 = 0).
  { simpl. rewrite Q2R_0p0. apply nth_repeat_zero. }
  revert H0. generalize (repeat (@flit R _ 0.0) nF) as G. revert errs.
  induction HX as [| row X Hrow _ IH]; intros errs G HG.
  - destruct errs; exact HG.
  - destruct errs as [| e errs]; [exact HG |].
    cbn [combine fold_left]. apply IH. cbn [fst snd].
    apply nth_map_combine_zero; auto. simpl. ring.
Qed.

Lemma spec_train_zero_column (nF : nat) (X : list (list R)) (ys : list Z)
  (epochs : Z) (lr : R) (j : nat) :
  Forall (fun row => nth j row 0 = 0) X ->
  nth j (fst (fst (spec_train nF X ys epochs lr))) 0 = 0.
Proof.
  intros HX. unfold spec_train.
  assert (H0 : nth j (fst (fst (repeat (@flit R _ 0.0) nF,
                                 @flit R _ 0.0, lr))) 0 = 0).
  { simpl. rewrite Q2R_0p0. apply nth_repeat_zero. }
  revert H0.
  generalize (repeat (@flit R _ 0.0) nF, @flit R _ 0.0, lr) as s.
  induction (range epochs) as [| e es IH]; intros s Hs; [exact Hs |].
  cbn [fold_left]. apply IH.
  destruct s as [[W b] l]. unfold spec_epoch. cbn [fst snd] in *.
  apply nth_map_combine_zero; auto.
  - simpl. unfold Rdiv. ring.
  - now apply spec_gradW_zero_column.
Qed.

(** X13: over the reals, a column of the matrix that is zero in every row
    (what the standardization makes of a constant feature) gets the
    weight 0 exactly, after any number of epochs. *)
Theorem train_zero_column_zero_weight (w : @world R) (Xl yl : nat)
  (rows : list nat) (X : list (list R)) (ys : list Z) (nF : nat)
  (epochs : option Z) (lr : option R) (j : nat) :
  matrix_at w Xl rows X ->
  (1 <= length X)%nat ->
  Forall (fun row => length row = nF) X ->
  ints_at w yl ys ->
  length ys = length X ->
  (j < nF)%nat ->
  Forall (fun row => nth j row 0 = 0) X ->
  exists (b : R) (W : list R) (w' : world),
    train_logistic_regression (VRef Xl) (VRef yl) epochs lr w
    = (Ok {| weights := VRef (length (heap w)); bias := b |}, w') /\
    floats_at w' (length (heap w)) W /\
    length W = nF /\
    nth j W 0 = 0.
Proof.
  intros HX HN Hrowlen Hy Hylen Hj Hcol.
  assert (Hne : X <> []) by (destruct X; simpl in HN; [lia | discriminate]).
  destruct (train_refines w Xl yl rows X ys nF epochs lr
              HX Hne Hrowlen Hy Hylen)
    as (model & w' & Hrun & (junk & Hheap) & _ & Hmodel).
  cbv zeta in Hheap, Hmodel.
  set (E := match epochs with Some e => e | None => 5000%Z end) in *.
  set (L := match lr with Some r => r | None => flit 0.05 end) in *.
  exists (snd (fst (spec_train nF X ys E L))),
    (fst (fst (spec_train nF X ys E L))), w'.
  split; [rewrite Hrun; now subst model |].
  split; [unfold floats_at; rewrite Hheap; apply nth_error_middle |].
  split; [now apply spec_train_length |].
  now apply spec_train_zero_column.
Qed.

End TrainerReal.

Lemma train_single_class_bias_witness :
  let w0 : @world R :=
    {| heap := [[VRef 1]; [VFloat 1%R]; [VInt 1]]; trace := [] |} in
  exists (model : trained) (w' : world),
    train_logistic_regression (VRef 0) (VRef 2) (Some 3%Z) (Some (1 / 2)%R) w0
    = (Ok model, w') /\
    (0 < bias model)%R.
Proof.
  intros w0.
  destruct (train_single_class_bias w0 0 2 [1] [[1%R]] [1%Z] 1 3 (1 / 2)%R)
    as (model & w' & Hrun & Hpos & _).
  - split; [reflexivity |]. repeat constructor.
  - simpl. lia.
  - repeat constructor.
  - reflexivity.
  - reflexivity.
  - lia.
  - lra.
  - exists model, w'. split; [exact Hrun |]. apply Hpos. repeat constructor.
Defined.

Lemma train_zero_column_zero_weight_witness :
  let w0 : @world R :=
    {| heap := [[VRef 1; VRef 2]; [VFloat 1%R; VFloat 0%R];
                [VFloat 2%R; VFloat 0%R]; [VInt 1; VInt 0]];
       trace := [] |} in
  exists (b : R) (W : list R) (w' : world),
    train_logistic_regression (VRef 0) (VRef 3) None None w0
    = (Ok {| weights := VRef 4; bias := b |}, w') /\
    floats_at w' 4 W /\
    length W = 2 /\
    nth 1 W 0%R = 0%R.
Proof.
  intros w0.
  apply (train_zero_column_zero_weight w0 0 3 [1; 2]
           [[1%R; 0%R]; [2%R; 0%R]] [1%Z; 0%Z] 2 None None 1).
  - split; [reflexivity |]. repeat constructor.
  - simpl. lia.
  - repeat constructor.
  - reflexivity.
  - reflexivity.
  - lia.
  - repeat constructor.
Defined.

Section TrainerOrder.

Local Open Scope R_scope.

Lemma fold_left_permutation {A S : Type} (f : S -> A -> S) (l l' : list A) :
  (forall s p q, f (f s p) q = f (f s q) p) ->
  Permutation l l' ->
  forall s, fold_left f l s = fold_left f l' s.
Proof.
  intros Hf. induction 1 as [| x l l' _ IH | x y l | l l' l'' _ IH1 _ IH2];
    intros s; simpl; auto.
  - now rewrite Hf.
  - now rewrite IH1.
Qed.

Lemma accumulate_commutes (e1 e2 : R) (G r1 r2 : list R) :
  map (fun q => fst q + e2 * snd q)
    (combine (map (fun q => fst q + e1 * snd q) (combine G r1)) r2)
  = map (fun q => fst q + e1 * snd q)
      (combine (map (fun q => fst q + e2 * snd q) (combine G r2)) r1).
Proof.
  revert r1 r2. induction G as [| g G IH]; intros [| a r1] [| c r2];
    simpl; auto.
  rewrite IH. f_equal. ring.
Qed.

(** One epoch does not depend on the order of the examples. *)
Lemma spec_epoch_permutation (nF : nat) (X1 X2 : list (list R))
  (ys1 ys2 : list Z) (s : opt_state) (epoch : Z) :
  length X1 = length X2 ->
  Permutation (combine X1 ys1) (combine X2 ys2) ->
  spec_epoch nF X1 ys1 s epoch = spec_epoch nF X2 ys2 s epoch.
Proof.
  intros Hlen Hperm. destruct s as [[W b] lr].
  rewrite !spec_epoch_zip. cbv zeta. rewrite Hlen.
  erewrite fold_left_permutation; [reflexivity | | exact Hperm].
  intros [G gb] [r1 y1] [r2 y2]. cbn [fst snd]. f_equal.
  - apply accumulate_commutes.
  - simpl. ring.
Qed.

Lemma spec_train_permutation (nF : nat) (X1 X2 : list (list R))
  (ys1 ys2 : list Z) (epochs : Z) (lr : R) :
  length X1 = length X2 ->
  Permutation (combine X1 ys1) (combine X2 ys2) ->
  spec_train nF X1 ys1 epochs lr = spec_train nF X2 ys2 epochs lr.
Proof.
  intros Hlen Hperm. unfold spec_train.
  generalize (repeat (@flit R _ 0.0) nF, @flit R _ 0.0, lr) as s.
  induction (range epochs) as [| e es IH]; intros s; simpl; auto.
  rewrite (spec_epoch_permutation nF X1 X2 ys1 ys2 s e Hlen Hperm).
  apply IH.
Qed.

(** X14: over the reals, the order of the training examples does not
    matter: two matrices with their labels that hold the same examples in
    a different order give the same weights and the same bias. *)
Theorem train_order_irrelevant (w1 w2 : @world R) (Xl1 yl1 Xl2 yl2 : nat)
  (rows1 rows2 : list nat) (X1 X2 : list (list R)) (ys1 ys2 : list Z)
  (nF : nat) (epochs : option Z) (lr : option R) :
  matrix_at w1 Xl1 rows1 X1 -> ints_at w1 yl1 ys1 ->
  matrix_at w2 Xl2 rows2 X2 -> ints_at w2 yl2 ys2 ->
  (1 <= length X1)%nat ->
  Forall (fun row => length row = nF) X1 ->
  Forall (fun row => length row = nF) X2 ->
  length ys1 = length X1 ->
  length ys2 = length X2 ->
  Permutation (combine X1 ys1) (combine X2 ys2) ->
  exists (b : R) (W : list R) (w1' w2' : world),
    train_logistic_regression (VRef Xl1) (VRef yl1) epochs lr w1
    = (Ok {| weights := VRef (length (heap w1)); bias := b |}, w1') /\
    train_logistic_regression (VRef Xl2) (VRef yl2) epochs lr w2
    = (Ok {| weights := VRef (length (heap w2)); bias := b |}, w2') /\
    floats_at w1' (length (heap w1)) W /\
    floats_at w2' (length (heap w2)) W.
Proof.
  intros HX1 Hy1 HX2 Hy2 HN Hl1 Hl2 Hn1 Hn2 Hperm.
  assert (Hlen : length X1 = length X2).
  { apply Permutation_length in Hperm. rewrite !length_combine in Hperm. lia. }
  assert (Hne1 : X1 <> []) by (destruct X1; simpl in HN; [lia | discriminate]).
  assert (Hne2 : X2 <> []).
  { destruct X2; [simpl in Hlen; lia | discriminate]. }
  destruct (train_refines w1 Xl1 yl1 rows1 X1 ys1 nF epochs lr
              HX1 Hne1 Hl1 Hy1 Hn1)
    as (m1 & w1' & Hrun1 & (junk1 & Hh1) & _ & Hm1).
  destruct (train_refines w2 Xl2 yl2 rows2 X2 ys2 nF epochs lr
              HX2 Hne2 Hl2 Hy2 Hn2)
    as (m2 & w2' & Hrun2 & (junk2 & Hh2) & _ & Hm2).
  cbv zeta in Hh1, Hm1, Hh2, Hm2.
  set (E := match epochs with Some e => e | None => 5000%Z end) in *.
  set (L := match lr with Some r => r | None => flit 0.05 end) in *.
  rewrite <- (spec_train_permutation nF X1 X2 ys1 ys2 E L Hlen Hperm)
    in Hh2, Hm2.
  exists (snd (fst (spec_train nF X1 ys1 E L))),
    (fst (fst (spec_train nF X1 ys1 E L))), w1', w2'.
  split; [rewrite Hrun1; now subst m1 |].
  split; [rewrite Hrun2; now subst m2 |].
  split; unfold floats_at; [rewrite Hh1 | rewrite Hh2];
    apply nth_error_middle.
Qed.

End TrainerOrder.

Lemma train_order_irrelevant_witness :
  let w1 : @world R :=
    {| heap := [[VRef 1; VRef 2]; [VFloat 1%R]; [VFloat 2%R];
                [VInt 1; VInt 0]];
       trace := [] |} in
  let w2 : @world R :=
    {| heap := [[VRef 1; VRef 2]; [VFloat 2%R]; [VFloat 1%R];
                [VInt 0; VInt 1]];
       trace := [] |} in
  exists (b : R) (W : list R) (w1' w2' : world),
    train_logistic_regression (VRef 0) (VRef 3) None None w1
    = (Ok {| weights := VRef 4; bias := b |}, w1') /\
    train_logistic_regression (VRef 0) (VRef 3) None None w2
    = (Ok {| weights := VRef 4; bias := b |}, w2') /\
    floats_at w1' 4 W /\
    floats_at w2' 4 W.
Proof.
  intros w1 w2.
  apply (train_order_irrelevant w1 w2 0 3 0 3 [1; 2] [1; 2]
           [[1%R]; [2%R]] [[2%R]; [1%R]] [1%Z; 0%Z] [0%Z; 1%Z] 1 None None).
  - split; [reflexivity |]. repeat constructor.
  - reflexivity.
  - split; [reflexivity |]. repeat constructor.
  - reflexivity.
  - simpl. lia.
  - repeat constructor.
  - repeat constructor.
  - reflexivity.
  - reflexivity.
  - apply perm_swap.
Defined.

(* ================================================================= *)
(** ** The standardization block: frame, repetition, units *)

(** X15: on a matrix of floats the standardization block either returns
    the two lists it created or raises [OverflowError] (a square
    overflowed), and nothing else. In both cases it has created exactly
    two list objects and written only to the rows of [X]: the list [X]
    itself and every other object are as before, the rows keep their
    length, and nothing is output. *)
Theorem standardize_touches_only_rows {F : Type} {PF : PyFloat F}
  {PL : PyFloatLaws F} (w : @world F) (Xl : nat) (rows : list nat)
  (X : list (list F)) (nF : nat) :
  matrix_at w Xl rows X ->
  NoDup rows ->
  1 <= length X ->
  Forall (fun row => length row = nF) X ->
  exists (r : result (@val F * @val F)) (w' : @world F),
    standardize (VRef Xl) w = (r, w') /\
    (r = Ok (VRef (length (heap w)), VRef (S (length (heap w)))) \/
     r = Raise OverflowError) /\
    length (heap w') = length (heap w) + 2 /\
    trace w' = trace w /\
    nth_error (heap w') Xl = nth_error (heap w) Xl /\
    (forall l, l < length (heap w) -> ~ In l rows ->
               nth_error (heap w') l = nth_error (heap w) l) /\
    (forall r, In r rows ->
               exists items, nth_error (heap w') r = Some items /\
                             length items = nF).
Proof.
  intros HX Hnd HN Hlen.
  assert (Hne : X <> []) by (destruct X; simpl in HN; [lia | discriminate]).
  assert (Hframe : forall (Xc : list (list F)) (Ms Ss : list F)
                          (w' : @world F),
             Forall (fun row => length row = nF) Xc ->
             std_inv w Xl rows Xc Ms Ss w' ->
             length (heap w') = length (heap w) + 2 /\
             trace w' = trace w /\
             nth_error (heap w') Xl = nth_error (heap w) Xl /\
             (forall l, l < length (heap w) -> ~ In l rows ->
                        nth_error (heap w') l = nth_error (heap w) l) /\
             (forall r, In r rows ->
                        exists items, nth_error (heap w') r = Some items /\
                                      length items = nF)).
  { intros Xc Ms Ss w' HXc (Hsize & HX' & Hrows' & _ & _ & Hfr & Htr).
    split; [exact Hsize |]. split; [exact Htr |]. split.
    { destruct HX as [HX _]. unfold refs_at in *. congruence. }
    split; [exact Hfr |].
    intros r Hr. apply In_nth_error in Hr. destruct Hr as [i Hi].
    destruct (Forall2_nth_error _ _ _ _ _ Hrows' Hi) as (row & Hrow & Hat).
    exists (map VFloat row). split; [exact Hat |].
    rewrite length_map. apply nth_error_In in Hrow.
    rewrite Forall_forall in HXc. now apply HXc. }
  pose proof (standardize_outcome w Xl rows X nF HX Hnd Hne Hlen) as Hout.
  destruct (first_overflow nF X) as [k |].
  - destruct Hout as (_ & w' & Hrun & Hinv).
    exists (Raise OverflowError), w'. split; [exact Hrun |].
    split; [now right |].
    apply (Hframe _ _ _ w' (proj1 (upto_lengths X nF Hlen k)) Hinv).
  - destruct Hout as (out & w' & Hrun & -> & Hinv).
    eexists _, w'. split; [exact Hrun |]. split; [now left |].
    apply (Hframe _ _ _ w' (standardized_lengths nF X Hlen) Hinv).
Qed.

Section StandardizeMore.

Local Open Scope R_scope.

Lemma Rsum_all_zero (xs : list R) :
  Forall (fun v => v = 0) xs -> Rsum xs = 0.
Proof.
  induction 1 as [| x xs Hx _ IH]; simpl; lra.
Qed.

Lemma Rvariance_zero_const (col : list R) (v : R) :
  Rvariance col = 0 -> In v col -> v = Rmean col.
Proof.
  intros Hzero Hv. unfold Rvariance in Hzero.
  pose proof (bessel_pos (length col)) as HD.
  assert (Hsq : Rsum (map (fun v => (v - Rmean col) * (v - Rmean col)) col)
                = 0).
  { apply Rmult_eq_reg_r with (/ INR (Nat.max 1 (length col - 1))).
    - unfold Rdiv in Hzero. lra.
    - apply Rinv_neq_0_compat. lra. }
  apply Rsum_zero in Hsq.
  - rewrite Forall_forall in Hsq.
    assert (H0 : (v - Rmean col) * (v - Rmean col) = 0).
    { apply Hsq. apply in_map_iff. eauto. }
    apply Rmult_integral in H0. destruct H0; lra.
  - apply Forall_forall. intros x Hx.
    apply in_map_iff in Hx. destruct Hx as (y & <- & _). apply Rle_0_sqr.
Qed.

(** A standardized column has mean 0 and deviation 1 as the block computes
    them: a second pass divides by 1. *)
Lemma rescaled_stats (col : list R) :
  col <> [] ->
  let col' := map (fun v => (v - Rmean col) / Rstd col) col in
  Rmean col' = 0 /\ Rstd col' = 1.
Proof.
  intros Hne col'. pose proof (Rstd_pos col) as Hs.
  assert (Hmean : Rmean col' = 0) by (apply rescaled_mean; auto; lra).
  split; [exact Hmean |].
  unfold Rstd at 1.
  destruct (Req_dec_T (Rvariance col') 0) as [| Hv']; [reflexivity |].
  destruct (Req_dec_T (Rvariance col) 0) as [Hv | Hv].
  - exfalso. apply Hv'. unfold Rvariance.
    rewrite Rsum_all_zero; [unfold Rdiv; lra |].
    apply Forall_forall. intros x Hx. apply in_map_iff in Hx.
    destruct Hx as (y & <- & Hy). rewrite Hmean.
    unfold col' in Hy. apply in_map_iff in Hy. destruct Hy as (v & <- & Hin).
    rewrite (Rvariance_zero_const col v Hv Hin).
    unfold Rdiv. ring.
  - assert (Hpos : 0 < Rvariance col).
    { pose proof (Rvariance_nonneg col). lra. }
    assert (E : Rstd col = sqrt (Rvariance col)).
    { unfold Rstd. destruct (Req_dec_T (Rvariance col) 0); [lra | auto]. }
    unfold col'. rewrite E, rescaled_variance by auto. apply sqrt_1.
Qed.

Lemma map_nth_seq (l : list R) :
  map (fun j => nth j l 0) (seq 0 (length l)) = l.
Proof.
  apply nth_ext with (d := 0) (d' := 0).
  - now rewrite length_map, length_seq.
  - intros n Hn. rewrite length_map, length_seq in Hn.
    now rewrite (nth_map_seq (fun j => nth j l 0)) by exact Hn.
Qed.

Lemma column_nonempty (j : nat) (X : list (list R)) :
  X <> [] -> column j X <> [].
Proof. unfold column. destruct X; [contradiction | discriminate]. Qed.

(** Standardizing a standardized matrix changes nothing. *)
Lemma standardized_twice (nF : nat) (X : list (list R)) :
  X <> [] ->
  Forall (fun row => length row = nF) X ->
  standardized (standardized X) = standardized X /\
  (forall j, (j < nF)%nat ->
     Rmean (column j (standardized X)) = 0 /\
     Rstd (column j (standardized X)) = 1).
Proof.
  intros Hne HX.
  assert (Hstats : forall j, (j < nF)%nat ->
            Rmean (column j (standardized X)) = 0 /\
            Rstd (column j (standardized X)) = 1).
  { intros j Hj. rewrite (standardized_R nF X HX).
    rewrite (standardized_column_R nF j X Hj).
    apply rescaled_stats. now apply column_nonempty. }
  split; [| exact Hstats].
  pose proof (standardized_lengths nF X HX) as HX'.
  rewrite (standardized_R nF (standardized X) HX').
  transitivity (map (fun row : list R => row) (standardized X));
    [| apply map_id].
  apply map_ext_in. intros row Hrow.
  rewrite Forall_forall in HX'. specialize (HX' row Hrow).
  transitivity (map (fun j => nth j row 0) (seq 0 nF));
    [| rewrite <- HX'; apply map_nth_seq].
  apply map_ext_in. intros j Hj. apply in_seq in Hj.
  destruct (Hstats j) as [-> ->]; [lia |]. unfold Rdiv. lra.
Qed.


Lemma map_const_seq {A : Type} (a : A) (f : nat -> A) (n : nat) :
  (forall j, (j < n)%nat -> f j = a) -> map f (seq 0 n) = repeat a n.
Proof.
  intros Hf. apply nth_ext with (d := a) (d' := a).
  - now rewrite length_map, length_seq, repeat_length.
  - intros k Hk. rewrite length_map, length_seq in Hk.
    rewrite nth_map_seq by exact Hk. rewrite nth_repeat. now apply Hf.
Qed.

(** X16: over the reals, standardizing a second time changes nothing:
    the second pass leaves the rows as the first made them and reports
    mean 0 and deviation 1 for every column (1 being also the fallback of
    the columns that are now zero). *)
Theorem standardize_twice (w : @world R) (Xl : nat) (rows : list nat)
  (X : list (list R)) (nF : nat) :
  matrix_at w Xl rows X ->
  NoDup rows ->
  (1 <= length X)%nat ->
  Forall (fun row => length row = nF) X ->
  exists (out1 : val * val) (w1 w2 : world) (X' : list (list R)),
    standardize (VRef Xl) w = (Ok out1, w1) /\
    matrix_at w1 Xl rows X' /\
    standardize (VRef Xl) w1
    = (Ok (VRef (length (heap w1)), VRef (S (length (heap w1)))), w2) /\
    matrix_at w2 Xl rows X' /\
    floats_at w2 (length (heap w1)) (repeat 0 nF) /\
    floats_at w2 (S (length (heap w1))) (repeat 1 nF).
Proof.
  intros HX Hnd HN Hlen.
  assert (Hne : X <> []) by (destruct X; simpl in HN; [lia | discriminate]).
  destruct (standardize_refines w Xl rows X nF HX Hnd Hne Hlen
              (first_overflow_R nF X))
    as (out1 & w1 & Hrun1 & _ & Hinv1).
  destruct Hinv1 as (_ & HX1 & Hrows1 & _).
  assert (Hm1 : matrix_at w1 Xl rows (standardized X)) by (split; assumption).
  assert (Hne1 : standardized X <> []).
  { unfold standardized. destruct X; [contradiction | discriminate]. }
  pose proof (standardized_lengths nF X Hlen) as Hlen1.
  destruct (standardize_refines w1 Xl rows (standardized X) nF
              Hm1 Hnd Hne1 Hlen1 (first_overflow_R nF (standardized X)))
    as (out2 & w2 & Hrun2 & -> & Hinv2).
  destruct Hinv2 as (_ & HX2 & Hrows2 & HM & HS & _).
  destruct (standardized_twice nF X Hne Hlen) as [Hsame Hstats].
  rewrite Hsame in Hrows2.
  exists out1, w1, w2, (standardized X).
  split; [exact Hrun1 |]. split; [exact Hm1 |]. split; [exact Hrun2 |].
  split; [split; assumption |].
  split.
  - rewrite <- (map_const_seq 0 (fun j => mean_of (column j (standardized X)))
                  nF); [exact HM |].
    intros j Hj. rewrite mean_of_R. now apply Hstats.
  - rewrite <- (map_const_seq 1 (fun j => std_of (column j (standardized X)))
                  nF); [exact HS |].
    intros j Hj. rewrite std_of_R. now apply Hstats.
Qed.

Lemma single_stats (v : R) : Rmean [v] = v /\ Rstd [v] = 1.
Proof.
  assert (Hm : Rmean [v] = v) by (unfold Rmean; simpl; field).
  split; [exact Hm |].
  unfold Rstd. destruct (Req_dec_T (Rvariance [v]) 0) as [| Hv]; auto.
  exfalso. apply Hv. unfold Rvariance. rewrite Hm. simpl. field.
Qed.

(** X17: over the reals, with a single row the divisor [max(1, N-1)]
    is 1, every variance is 0 and every deviation falls back to 1: the
    means are the row itself, and the row becomes all zeros. *)
Theorem standardize_single_sample (w : @world R) (Xl r : nat)
  (row : list R) :
  refs_at w Xl [r] ->
  floats_at w r row ->
  exists w' : world,
    standardize (VRef Xl) w
    = (Ok (VRef (length (heap w)), VRef (S (length (heap w)))), w') /\
    floats_at w' (length (heap w)) row /\
    floats_at w' (S (length (heap w))) (repeat 1 (length row)) /\
    floats_at w' r (repeat 0 (length row)).
Proof.
  intros HX Hr.
  assert (Hm : matrix_at w Xl [r] [row]).
  { split; [exact HX | repeat constructor; exact Hr]. }
  destruct (standardize_refines w Xl [r] [row] (length row) Hm)
    as (out & w' & Hrun & -> & Hinv).
  { repeat constructor. intros []. }
  { discriminate. }
  { repeat constructor. }
  { apply first_overflow_R. }
  destruct Hinv as (_ & _ & Hrows & HM & HS & _).
  inversion Hrows as [| ? ? ? ? Hrow _]; subst.
  assert (Hcol : forall j, column j [row] = [nth j row 0]).
  { intros j. now rewrite column_R. }
  exists w'. split; [exact Hrun |]. split; [| split].
  - assert (E : map (fun j => mean_of (column j [row])) (seq 0 (length row))
                 = row).
    { transitivity (map (fun j => nth j row 0) (seq 0 (length row)));
        [| apply map_nth_seq].
      apply map_ext. intros j.
      rewrite mean_of_R, Hcol. apply single_stats. }
    now rewrite E in HM.
  - rewrite <- (map_const_seq 1 (fun j => std_of (column j [row]))
                  (length row)); [exact HS |].
    intros j _. rewrite std_of_R, Hcol. apply single_stats.
  - rewrite <- (map_const_seq 0
                  (fun j => (nth j row 0 - Rmean (column j [row]))
                            / Rstd (column j [row])) (length row)).
    + unfold standardized_row in Hrow.
      erewrite map_ext; [exact Hrow |].
      intros j. cbv beta. rewrite mean_of_R, std_of_R. simpl.
      now rewrite Q2R_0p0.
    + intros j _. rewrite Hcol.
      destruct (single_stats (nth j row 0)) as [-> ->]. unfold Rdiv. lra.
Qed.

End StandardizeMore.

Lemma standardize_touches_only_rows_witness :
  let w0 : @world R :=
    {| heap := [[VRef 1; VRef 2]; [VFloat 1%R; VFloat 5%R];
                [VFloat 3%R; VFloat 5%R]; [VInt 1; VInt 0]];
       trace := [] |} in
  exists (r : result (val * val)) (w' : world),
    standardize (VRef 0) w0 = (r, w') /\
    (r = Ok (VRef 4, VRef 5) \/ r = Raise OverflowError) /\
    length (heap w') = 6 /\
    nth_error (heap w') 3 = Some [VInt 1; VInt 0].
Proof.
  intros w0.
  destruct (standardize_touches_only_rows w0 0 [1; 2]
              [[1%R; 5%R]; [3%R; 5%R]] 2)
    as (r & w' & Hrun & Hr & Hsize & _ & _ & Hframe & _).
  - split; [reflexivity |]. repeat constructor.
  - repeat constructor; simpl; intuition lia.
  - simpl. lia.
  - repeat constructor.
  - exists r, w'. split; [exact Hrun |]. split; [exact Hr |].
    split; [exact Hsize |].
    rewrite Hframe; [reflexivity | simpl; lia | simpl; intuition lia].
Defined.

Lemma standardize_twice_witness :
  let w0 : @world R :=
    {| heap := [[VRef 1; VRef 2]; [VFloat 1%R; VFloat 5%R];
                [VFloat 3%R; VFloat 5%R]];
       trace := [] |} in
  exists (out1 : val * val) (w1 w2 : world) (X' : list (list R)),
    standardize (VRef 0) w0 = (Ok out1, w1) /\
    matrix_at w1 0 [1; 2] X' /\
    standardize (VRef 0) w1
    = (Ok (VRef (length (heap w1)), VRef (S (length (heap w1)))), w2) /\
    matrix_at w2 0 [1; 2] X' /\
    floats_at w2 (length (heap w1)) [0%R; 0%R] /\
    floats_at w2 (S (length (heap w1))) [1%R; 1%R].
Proof.
  intros w0.
  apply (standardize_twice w0 0 [1; 2] [[1%R; 5%R]; [3%R; 5%R]] 2).
  - split; [reflexivity |]. repeat constructor.
  - repeat constructor; simpl; intuition lia.
  - simpl. lia.
  - repeat constructor.
Defined.

Lemma standardize_single_sample_witness :
  let w0 : @world R :=
    {| heap := [[VRef 1]; [VFloat 4%R; VFloat 5%R]]; trace := [] |} in
  exists w' : world,
    standardize (VRef 0) w0 = (Ok (VRef 2, VRef 3), w') /\
    floats_at w' 2 [4%R; 5%R] /\
    floats_at w' 3 [1%R; 1%R] /\
    floats_at w' 1 [0%R; 0%R].
Proof.
  intros w0.
  apply (standardize_single_sample w0 0 1 [4%R; 5%R]); reflexivity.
Defined.

Section StandardizeUnits.

Local Open Scope R_scope.

Lemma Rsum_affine (a c : R) (xs : list R) :
  Rsum (map (fun v => a * v + c) xs) = a * Rsum xs + INR (length xs) * c.
Proof.
  induction xs as [| x xs IH].
  - simpl. lra.
  - cbn [map Rsum fold_right length].
    fold (Rsum (map (fun v => a * v + c) xs)). fold (Rsum xs).
    rewrite IH, S_INR. lra.
Qed.

Lemma Rmean_affine (a c : R) (col : list R) :
  col <> [] ->
  Rmean (map (fun v => a * v + c) col) = a * Rmean col + c.
Proof.
  intros Hne. unfold Rmean. rewrite length_map, Rsum_affine.
  assert (Hn : 0 < INR (length col)).
  { apply lt_0_INR. destruct col; [contradiction | simpl; lia]. }
  field. lra.
Qed.

Lemma Rsum_times (k : R) (f : R -> R) (xs : list R) :
  Rsum (map (fun v => k * f v) xs) = k * Rsum (map f xs).
Proof.
  induction xs as [| x xs IH]; simpl; [lra |].
  fold (Rsum (map (fun v => k * f v) xs)). fold (Rsum (map f xs)).
  rewrite IH. lra.
Qed.

Lemma Rvariance_affine (a c : R) (col : list R) :
  col <> [] ->
  Rvariance (map (fun v => a * v + c) col) = a * a * Rvariance col.
Proof.
  intros Hne. unfold Rvariance. rewrite Rmean_affine by exact Hne.
  rewrite length_map, map_map.
  pose proof (bessel_pos (length col)) as HD.
  rewrite (map_ext _ (fun v => a * a * ((v - Rmean col) * (v - Rmean col))))
    by (intros v; ring).
  rewrite (Rsum_times (a * a)
             (fun v => (v - Rmean col) * (v - Rmean col))).
  field. lra.
Qed.

(** A positive change of unit of a column does not change what the
    standardization makes of its entries. *)
Lemma rescaled_entry (a c v : R) (col : list R) :
  0 < a -> In v col ->
  let col2 := map (fun x => a * x + c) col in
  (a * v + c - Rmean col2) / Rstd col2 = (v - Rmean col) / Rstd col.
Proof.
  intros Ha Hv col2.
  assert (Hne : col <> []) by (intros ->; contradiction).
  unfold col2. rewrite Rmean_affine by exact Hne.
  unfold Rstd. rewrite Rvariance_affine by exact Hne.
  pose proof (Rvariance_nonneg col) as Hvar.
  destruct (Req_dec_T (Rvariance col) 0) as [E | E].
  - rewrite E.
    destruct (Req_dec_T (a * a * 0) 0) as [_ | N]; [| exfalso; apply N; ring].
    rewrite (Rvariance_zero_const col v E Hv). unfold Rdiv. ring.
  - destruct (Req_dec_T (a * a * Rvariance col) 0) as [Z | _].
    + exfalso. apply Rmult_integral in Z. destruct Z as [Z | Z]; [| lra].
      apply Rmult_integral in Z. destruct Z; lra.
    + rewrite sqrt_mult by nra. rewrite sqrt_square by lra.
      assert (0 < sqrt (Rvariance col)) by (apply sqrt_lt_R0; lra).
      field. split; lra.
Qed.


Lemma change_units_lengths (a c : list R) (nF : nat) (X : list (list R)) :
  Forall (fun row => length row = nF) X ->
  Forall (fun row => length row = nF) (change_units a c X).
Proof.
  intros HX. unfold change_units. apply Forall_forall. intros row2 Hin.
  apply in_map_iff in Hin. destruct Hin as (row & <- & Hrow).
  rewrite length_map, length_seq. rewrite Forall_forall in HX. auto.
Qed.

Lemma change_units_column (a c : list R) (nF j : nat) (X : list (list R)) :
  Forall (fun row => length row = nF) X -> (j < nF)%nat ->
  column j (change_units a c X)
  = map (fun v => nth j a 0 * v + nth j c 0) (column j X).
Proof.
  intros HX Hj. rewrite !column_R. unfold change_units.
  rewrite !map_map. apply map_ext_in. intros row Hrow.
  rewrite Forall_forall in HX. rewrite (HX row Hrow).
  now rewrite (nth_map_seq (fun j => nth j a 0 * nth j row 0 + nth j c 0)).
Qed.

Lemma standardized_change_units (a c : list R) (nF : nat)
  (X : list (list R)) :
  Forall (fun row => length row = nF) X ->
  (forall j, (j < nF)%nat -> 0 < nth j a 0) ->
  standardized (change_units a c X) = standardized X.
Proof.
  intros HX Ha.
  rewrite (standardized_R nF _ (change_units_lengths a c nF X HX)).
  rewrite (standardized_R nF X HX).
  unfold change_units at 3. rewrite map_map.
  apply map_ext_in. intros row Hrow.
  apply map_ext_in. intros j Hj. apply in_seq in Hj.
  assert (Hl : length row = nF).
  { rewrite Forall_forall in HX. auto. }
  rewrite Hl.
  rewrite (nth_map_seq (fun j => nth j a 0 * nth j row 0 + nth j c 0))
    by lia.
  rewrite (change_units_column a c nF j X HX) by lia.
  apply rescaled_entry; [apply Ha; lia |].
  rewrite column_R. apply in_map_iff. eauto.
Qed.

(** X18: over the reals, the standardized matrix does not depend on the
    units of the features: replacing every entry [x] of column [j] by
    [a_j * x + c_j] with [a_j > 0] leaves the matrix held after the block
    the same. *)
Theorem standardize_unit_invariant (w1 w2 : @world R) (Xl1 Xl2 : nat)
  (rows1 rows2 : list nat) (X : list (list R)) (nF : nat) (a c : list R) :
  matrix_at w1 Xl1 rows1 X -> NoDup rows1 ->
  matrix_at w2 Xl2 rows2 (change_units a c X) -> NoDup rows2 ->
  (1 <= length X)%nat ->
  Forall (fun row => length row = nF) X ->
  (forall j, (j < nF)%nat -> 0 < nth j a 0) ->
  exists (out1 out2 : val * val) (w1' w2' : world) (X' : list (list R)),
    standardize (VRef Xl1) w1 = (Ok out1, w1') /\
    standardize (VRef Xl2) w2 = (Ok out2, w2') /\
    matrix_at w1' Xl1 rows1 X' /\
    matrix_at w2' Xl2 rows2 X'.
Proof.
  intros HX1 Hnd1 HX2 Hnd2 HN Hlen Ha.
  assert (Hne : X <> []) by (destruct X; simpl in HN; [lia | discriminate]).
  assert (Hne2 : change_units a c X <> []).
  { unfold change_units. destruct X; [contradiction | discriminate]. }
  destruct (standardize_refines w1 Xl1 rows1 X nF HX1 Hnd1 Hne Hlen
              (first_overflow_R nF X))
    as (out1 & w1' & Hrun1 & _ & Hinv1).
  destruct (standardize_refines w2 Xl2 rows2 (change_units a c X) nF
              HX2 Hnd2 Hne2 (change_units_lengths a c nF X Hlen)
              (first_overflow_R nF (change_units a c X)))
    as (out2 & w2' & Hrun2 & _ & Hinv2).
  destruct Hinv1 as (_ & Hr1 & Hrows1 & _).
  destruct Hinv2 as (_ & Hr2 & Hrows2 & _).
  rewrite (standardized_change_units a c nF X Hlen Ha) in Hrows2.
  exists out1, out2, w1', w2', (standardized X).
  split; [exact Hrun1 |]. split; [exact Hrun2 |].
  split; split; assumption.
Qed.

End StandardizeUnits.

Lemma standardize_unit_invariant_witness :
  let X : list (list R) := [[1%R]; [3%R]] in
  let w1 : @world R :=
    {| heap := [VRef 1; VRef 2] :: map (map VFloat) X; trace := [] |} in
  let w2 : @world R :=
    {| heap := [VRef 1; VRef 2]
               :: map (map VFloat) (change_units [2%R] [1%R] X);
       trace := [] |} in
  exists (out1 out2 : val * val) (w1' w2' : world) (X' : list (list R)),
    standardize (VRef 0) w1 = (Ok out1, w1') /\
    standardize (VRef 0) w2 = (Ok out2, w2') /\
    matrix_at w1' 0 [1; 2] X' /\
    matrix_at w2' 0 [1; 2] X'.
Proof.
  intros X w1 w2.
  apply (standardize_unit_invariant w1 w2 0 0 [1; 2] [1; 2] X 1
           [2%R] [1%R]).
  - split; [reflexivity |]. repeat constructor.
  - repeat constructor; simpl; intuition lia.
  - split; [reflexivity |]. repeat constructor.
  - repeat constructor; simpl; intuition lia.
  - simpl. lia.
  - repeat constructor.
  - intros j Hj. destruct j; [simpl; lra | lia].
Defined.

(* ================================================================= *)
(** ** The whole run: output, bad labels, the written model *)

Section Quiet.

Context {F : Type} {PF : PyFloat F}.
Local Abbreviation M := (@M F).
Local Abbreviation world := (@world F).
Local Abbreviation val := (@val F).
Local Abbreviation json := (@json F).

Variables (n : nat) (t : list (@event F)).

Lemma quiet_alloc (items : list val) : keeps (quiet n t) (alloc items).
Proof.
  intros w [Hn Ht]. split; cbn [alloc snd heap trace]; auto.
  rewrite length_app. lia.
Qed.

Lemma quiet_setitem (v : val) (i : nat) (x : val) :
  keeps (quiet n t) (setitem v i x).
Proof.
  intros w [Hn Ht]. unfold setitem, bind, iter.
  destruct v as [| | l]; cbn [snd]; try (split; assumption).
  destruct (nth_error (heap w) l) as [items |]; cbn [snd];
    [| split; assumption].
  destruct (Nat.ltb i (length items)); cbn [snd store raise heap trace];
    [| split; assumption].
  split; cbn [heap trace]; auto. now rewrite update_length.
Qed.

Lemma quiet_append (v x : val) : keeps (quiet n t) (append v x).
Proof.
  intros w [Hn Ht]. unfold append, bind, iter.
  destruct v as [| | l]; cbn [snd]; try (split; assumption).
  destruct (nth_error (heap w) l) as [items |]; cbn [snd];
    [| split; assumption].
  split; cbn [store snd heap trace]; auto. now rewrite update_length.
Qed.

End Quiet.

Ltac quiet_step :=
  first
    [ apply keeps_ret | apply keeps_raise | apply keeps_lift
    | apply keeps_iter | apply keeps_len | apply keeps_getitem
    | apply quiet_alloc | apply quiet_setitem | apply quiet_append
    | apply keeps_for_each; intros ?
    | apply keeps_for_fold; intros ? ?
    | apply keeps_bind; [| intros ?]
    | progress cbv beta zeta
    | match goal with
      | |- keeps _ (match ?x with _ => _ end) => destruct x
      | |- keeps _ ((match ?x with _ => _ end) _) => destruct x
      end ].

Section QuietCode.

Context {F : Type} {PF : PyFloat F}.
Variable float_of_string : string -> option F.
Variables (n : nat) (t : list (@event F)).

Lemma quiet_collect (dataset : list (@json F)) (X y : @val F) :
  keeps (quiet n t) (collect float_of_string dataset X y).
Proof. unfold collect. repeat quiet_step. Qed.

Lemma quiet_standardize (X : @val F) : keeps (quiet n t) (standardize X).
Proof. unfold standardize, standardize_pass. repeat quiet_step. Qed.

Lemma quiet_train (X y : @val F) (epochs : option Z) (lr : option F) :
  keeps (quiet n t) (train_logistic_regression X y epochs lr).
Proof. unfold train_logistic_regression. repeat quiet_step. Qed.

End QuietCode.

Section AllOrNothing.

Context {F : Type} {PF : PyFloat F}.
Variable float_of_string : string -> option F.

Local Abbreviation M := (@M F).
Local Abbreviation world := (@world F).
Local Abbreviation val := (@val F).
Local Abbreviation json := (@json F).

Lemma bind_ok_inv {A B : Type} (m : M A) (k : A -> M B) (w w' : world)
  (b : B) :
  bind m k w = (Ok b, w') ->
  exists a w1, m w = (Ok a, w1) /\ k a w1 = (Ok b, w').
Proof.
  unfold bind. destruct (m w) as [[a | e] w1]; [eauto | discriminate].
Qed.

Lemma quiet_run {A : Type} (m : M A) (w w' : world) (r : result A)
  (n : nat) (t : list event) :
  keeps (quiet n t) m -> quiet n t w -> m w = (r, w') -> quiet n t w'.
Proof. intros Hk Hw Hm. specialize (Hk w Hw). now rewrite Hm in Hk. Qed.

Lemma iter_valid (l : nat) (w : world) :
  l < length (heap w) -> exists items, iter (VRef l) w = (Ok items, w).
Proof.
  intros Hl. unfold iter.
  destruct (nth_error (heap w) l) as [items |] eqn:E; [eauto |].
  apply nth_error_None in E. lia.
Qed.

Lemma alloc_inv (items : list val) (w w' : world) (v : val) :
  alloc items w = (Ok v, w') ->
  v = VRef (length (heap w)) /\ length (heap w') = S (length (heap w)) /\
  trace w' = trace w.
Proof.
  unfold alloc. intros [= <- <-]. cbn [heap trace].
  rewrite length_app. simpl. repeat split; lia.
Qed.

(** The two lists the standardization block returns are objects of the
    heap it leaves. *)
Lemma standardize_refs (X means stds : val) (w w' : world) :
  standardize X w = (Ok (means, stds), w') ->
  exists lm ls,
    means = VRef lm /\ stds = VRef ls /\
    lm < length (heap w') /\ ls < length (heap w').
Proof.
  unfold standardize. intros Hrun.
  apply bind_ok_inv in Hrun. destruct Hrun as (x0 & w1 & _ & Hrun).
  apply bind_ok_inv in Hrun. destruct Hrun as (nf & w2 & _ & Hrun).
  apply bind_ok_inv in Hrun. destruct Hrun as (m & w3 & Hm & Hrun).
  apply bind_ok_inv in Hrun. destruct Hrun as (s & w4 & Hs & Hrun).
  apply bind_ok_inv in Hrun. destruct Hrun as (ns & w5 & Hns & Hrun).
  apply bind_ok_inv in Hrun. destruct Hrun as (u & w6 & Hloop & Hrun).
  injection Hrun as <- <- <-.
  apply alloc_inv in Hm. destruct Hm as (-> & Hl3 & _).
  apply alloc_inv in Hs. destruct Hs as (-> & Hl4 & _).
  assert (H4 : quiet (length (heap w4)) (trace w4) w4) by (split; auto).
  assert (H5 : quiet (length (heap w4)) (trace w4) w5).
  { eapply quiet_run; [apply keeps_len | exact H4 | exact Hns]. }
  assert (H6 : quiet (length (heap w4)) (trace w4) w6).
  { eapply quiet_run; [| exact H5 | exact Hloop].
    repeat quiet_step. }
  destruct H6 as [H6 _].
  exists (length (heap w2)), (length (heap w3)).
  repeat split; lia.
Qed.

(** The weights the trainer returns are an object of the heap it
    leaves. *)
Lemma train_ref (X y : val) (epochs : option Z) (lr : option F)
  (model : trained) (w w' : world) :
  train_logistic_regression X y epochs lr w = (Ok model, w') ->
  exists lw, weights model = VRef lw /\ lw < length (heap w').
Proof.
  unfold train_logistic_regression. intros Hrun.
  apply bind_ok_inv in Hrun. destruct Hrun as (ns & w1 & _ & Hrun).
  apply bind_ok_inv in Hrun. destruct Hrun as (x0 & w2 & _ & Hrun).
  apply bind_ok_inv in Hrun. destruct Hrun as (nf & w3 & _ & Hrun).
  apply bind_ok_inv in Hrun. destruct Hrun as (ws & w4 & Hws & Hrun).
  apply bind_ok_inv in Hrun. destruct Hrun as ([b l] & w5 & Hloop & Hrun).
  injection Hrun as <- <-. cbn [weights].
  apply alloc_inv in Hws. destruct Hws as (-> & Hl4 & _).
  assert (H4 : quiet (length (heap w4)) (trace w4) w4) by (split; auto).
  assert (H5 : quiet (length (heap w4)) (trace w4) w5).
  { eapply quiet_run; [| exact H4 | exact Hloop]. repeat quiet_step. }
  destruct H5 as [H5 _].
  exists (length (heap w3)). split; [reflexivity | lia].
Qed.

(** X19: for any decoded feedback whatever, [main] either returns after
    exactly three outputs in this order (the directory is made, the model
    file is written once, the message is printed), the model carrying the
    feature names and the name of the feedback file; or it raises and has
    output nothing at all. A failure of the operating system while
    writing is outside the model. *)
Theorem main_output_all_or_nothing (trainedAt output : string)
  (entries : list json) (w : world) :
  match main float_of_string trainedAt output entries w with
  | (Ok _, w') =>
      exists model : Model,
        trace w'
        = trace w
          ++ [Mkdir output; WriteText output model;
              Print ("Model saved to " ++ output)%string] /\
        m_features model = FEATURES /\
        m_trainedAt model = trainedAt
  | (Raise _, w') => trace w' = trace w
  end.
Proof.
  unfold main.
  destruct (build_dataset entries) as [dataset | e]; [| reflexivity].
  unfold bind at 1. unfold lift at 1.
  unfold bind at 1. unfold alloc at 1.
  unfold bind at 1. unfold alloc at 1.
  cbn [heap trace].
  set (w2 := {| heap := (heap w ++ [[]]) ++ [[]]; trace := trace w |}).
  set (X := VRef (length (heap w))).
  set (y := VRef (length (heap w ++ [[]]))).
  assert (H2 : quiet 0 (trace w) w2) by (split; [lia | reflexivity]).
  unfold bind at 1.
  destruct (collect float_of_string dataset X y w2) as [[u | e] w3] eqn:Hc.
  2:{ apply (quiet_run _ _ _ _ _ _ (quiet_collect _ _ _ _ _ _) H2 Hc). }
  assert (H3 : quiet 0 (trace w) w3).
  { apply (quiet_run _ _ _ _ _ _ (quiet_collect _ _ _ _ _ _) H2 Hc). }
  unfold bind at 1.
  destruct (len X w3) as [[k | e] w4] eqn:Hlen.
  2:{ apply (quiet_run _ _ _ _ _ _ (keeps_len _ _) H3 Hlen). }
  assert (H4 : quiet 0 (trace w) w4).
  { apply (quiet_run _ _ _ _ _ _ (keeps_len _ _) H3 Hlen). }
  destruct (Nat.eqb k 0); [apply H4 |].
  unfold bind at 1.
  destruct (standardize X w4) as [[[means stds] | e] w5] eqn:Hstd.
  2:{ apply (quiet_run _ _ _ _ _ _ (quiet_standardize _ _ _) H4 Hstd). }
  destruct (standardize_refs _ _ _ _ _ Hstd) as (lm & ls & -> & -> & Hlm & Hls).
  assert (H5 : quiet (length (heap w5)) (trace w) w5).
  { split; [lia |].
    apply (quiet_run _ _ _ _ _ _ (quiet_standardize _ _ _) H4 Hstd). }
  unfold bind at 1.
  destruct (train_logistic_regression X y (Some 6000%Z) (Some (flit 0.08)) w5)
    as [[model | e] w6] eqn:Htrain.
  2:{ apply (quiet_run _ _ _ _ _ _ (quiet_train _ _ _ _ _ _) H5 Htrain). }
  destruct (train_ref _ _ _ _ _ _ _ Htrain) as (lw & Hw & Hlw).
  destruct (quiet_run _ _ _ _ _ _ (quiet_train _ _ _ _ _ _) H5 Htrain)
    as [Hsize Htr].
  rewrite Hw.
  unfold bind at 1. unfold emit at 1.
  set (w7 := {| heap := heap w6; trace := trace w6 ++ [Mkdir output] |}).
  destruct (iter_valid lw w7 Hlw) as [wsl Hi1].
  destruct (iter_valid lm w7) as [msl Hi2]; [cbn [w7 heap]; lia |].
  destruct (iter_valid ls w7) as [ssl Hi3]; [cbn [w7 heap]; lia |].
  unfold bind at 1. rewrite Hi1.
  unfold bind at 1. rewrite Hi2.
  unfold bind at 1. rewrite Hi3.
  unfold bind, emit. cbn [heap trace].
  eexists. split.
  { unfold w7. cbn [trace]. rewrite Htr, <- !app_assoc. reflexivity. }
  split; reflexivity.
Qed.


End AllOrNothing.

Section LabelErrors.

Context {F : Type} {PF : PyFloat F}.
Variable float_of_string : string -> option F.

Local Abbreviation M := (@M F).
Local Abbreviation world := (@world F).
Local Abbreviation val := (@val F).
Local Abbreviation json := (@json F).

Lemma for_fold_app {S A L : Type} (xs ys : list A) (body : A -> L -> ST S L)
  (l : L) (s : S) :
  for_fold (xs ++ ys) body l s
  = bind (for_fold xs body l) (for_fold ys body) s.
Proof.
  revert l s. induction xs as [| x xs IH]; intros l s.
  - reflexivity.
  - cbn [app for_fold]. unfold bind.
    destruct (body x l s) as [[l' | e] s']; [| reflexivity].
    rewrite IH. reflexivity.
Qed.

(** X20: a record whose [label] is a list or a dictionary is not
    skipped: the membership test [label not in {'special', 'normal'}]
    raises [TypeError] on it, and the run stops without output. *)
Theorem main_unhashable_label (trainedAt output : string)
  (entries good rest : list json) (fields : list (string * json))
  (label : json) (w : world) :
  build_dataset entries = Ok (good ++ JDict fields :: rest) ->
  Forall (entry_ok float_of_string) good ->
  assoc "label" fields = Some label ->
  hashable label = false ->
  exists w' : world,
    main float_of_string trainedAt output entries w = (Raise TypeError, w') /\
    trace w' = trace w.
Proof.
  intros Hds Hgood Hlabel Hhash.
  set (w1 := {| heap := (heap w ++ [[]]) ++ [@nil val]; trace := trace w |}).
  assert (Hinv : collect_inv w (length (heap w)) (S (length (heap w))) [] w1).
  { exists [], []. unfold refs_at, ints_at, w1. cbn [heap trace map].
    split; [apply nth_error_app_Some; apply nth_error_middle |].
    split; [constructor |].
    split.
    { replace (S (length (heap w))) with (length (heap w ++ [@nil val]))
        by (rewrite length_app; simpl; lia).
      apply nth_error_middle. }
    split; [constructor |]. split; [constructor |].
    split; [reflexivity |]. split; [intros r [] |].
    split; [reflexivity |]. split; [reflexivity |].
    split; [| reflexivity].
    exists [[]; []]. rewrite <- app_assoc. auto. }
  destruct (collect_refines float_of_string w _ _ good Hgood [] w1 Hinv)
    as (u & w2 & Hrun & Hinv2).
  assert (Htr : trace w2 = trace w).
  { destruct Hinv2 as (? & ? & Hrest). decompose [and] Hrest. assumption. }
  exists w2. split; [| exact Htr].
  unfold main. rewrite (bind_lift_ok _ _ _ _ Hds).
  unfold bind at 1. unfold alloc at 1. unfold bind at 1. unfold alloc at 1.
  cbn [heap trace]. rewrite length_app. cbn [length].
  replace (length (heap w) + 1) with (S (length (heap w))) by lia.
  fold w1.
  unfold bind at 1. unfold collect, for_each in *.
  rewrite for_fold_app. unfold bind at 1. rewrite Hrun.
  cbn [for_fold]. unfold bind at 1. unfold bind at 1.
  unfold py_get. rewrite Hlabel. unfold lift at 1.
  unfold bind at 1. unfold label_is_valid. rewrite Hhash. reflexivity.
Qed.

End LabelErrors.

Lemma main_unhashable_label_witness :
  exists w' : @world R,
    main (fun _ => None) "feedback.json" "special-model.json"
      [JDict [("id"%string, JStr "seed-1"); ("label"%string, JList [])]]
      {| heap := []; trace := [] |}
    = (Raise TypeError, w') /\
    trace w' = [].
Proof.
  apply (main_unhashable_label (fun _ : string => @None R)
           "feedback.json" "special-model.json"
           [JDict [("id"%string, JStr "seed-1"); ("label"%string, JList [])]]
           MANUAL_SEEDS []
           [("id"%string, JStr "seed-1"); ("label"%string, JList [])]
           (JList []) {| heap := []; trace := [] |}).
  - reflexivity.
  - apply manual_entries_ok.
  - reflexivity.
  - reflexivity.
Defined.

(** X21: whenever the run completes on well-formed feedback, the model it
    writes has 11 weights, 11 means and 11 deviations, and no deviation is
    zero (each is the square root of a positive variance, or 1.0), so that
    standardizing an input with the model never divides by zero. *)
Theorem main_model_is_usable {F : Type} {PF : PyFloat F} {PL : PyFloatLaws F}
  (float_of_string : string -> option F) (trainedAt output : string)
  (entries : list (@json F)) (w w' : @world F) :
  Forall (fun e => id_of e <> None /\ entry_ok float_of_string e) entries ->
  main float_of_string trainedAt output entries w = (Ok tt, w') ->
  exists model : @Model F,
    trace w'
    = trace w
      ++ [Mkdir output; WriteText output model;
          Print ("Model saved to " ++ output)%string] /\
    length (m_weights model) = 11 /\
    length (m_means model) = 11 /\
    length (m_stds model) = 11 /\
    Forall (fun v => exists s, v = VFloat s /\ feqb s (flit 0) = false)
      (m_stds model) /\
    m_trainedAt model = trainedAt.
Proof.
  intros Hent Hok.
  destruct (list_eq_dec Z.eq_dec (labels_of (spec_dataset entries)) [])
    as [Hnone | Hkept].
  { rewrite (main_no_data float_of_string trainedAt output entries w
               Hent Hnone) in Hok.
    discriminate. }
  destruct (main_outcome float_of_string trainedAt output entries w Hent Hkept)
    as (X & w1 & _ & H11 & Hout).
  destruct (first_overflow 11 X) as [k |].
  { destruct Hout as [Hrun _]. rewrite Hrun in Hok. discriminate. }
  destruct Hout as [Hrun Htrace].
  rewrite Hrun in Hok. injection Hok as <-.
  destruct (trained_model_shape trainedAt X
              (labels_of (spec_dataset entries)) H11)
    as (Hw & Hm & Hs & _).
  eexists. split; [exact Htrace |].
  split; [exact Hw |]. split; [exact Hm |]. split; [exact Hs |].
  split; [| reflexivity].
  unfold trained_model. cbn [m_stds].
  apply Forall_forall. intros v Hv.
  apply in_map_iff in Hv. destruct Hv as (s & <- & Hin).
  apply in_map_iff in Hin. destruct Hin as (j & <- & _).
  eexists. split; [reflexivity | apply std_of_nonzero].
Qed.

Lemma main_model_is_usable_witness :
  exists (model : @Model R) (w' : @world R),
    main (fun _ => None) "feedback.json" "special-model.json" []
      {| heap := []; trace := [] |}
    = (Ok tt, w') /\
    length (m_stds model) = 11 /\
    Forall (fun v => exists s, v = VFloat s /\ feqb s (flit 0) = false)
      (m_stds model) /\
    trace w'
    = [Mkdir "special-model.json"; WriteText "special-model.json" model;
       Print "Model saved to special-model.json"].
Proof.
  destruct (main_outcome (fun _ : string => @None R)
              "feedback.json" "special-model.json" []
              {| heap := []; trace := [] |})
    as (X & w' & _ & _ & Hout).
  - constructor.
  - discriminate.
  - rewrite first_overflow_R in Hout. destruct Hout as [Hrun _].
    destruct (main_model_is_usable (fun _ : string => @None R)
                "feedback.json" "special-model.json" []
                {| heap := []; trace := [] |} w')
      as (model & Htrace & _ & _ & Hs & Hnz & _).
    + constructor.
    + exact Hrun.
    + exists model, w'. repeat split; assumption.
Defined.
